(** * inFlow MCP server: request execution and purchase-order reconciliation

    A shallow embedding of the token-bucket limiter and the retry loop of
    [src/client/inflow.ts], and of the receive / unreceive handlers of
    [src/tools/purchase-orders.ts], followed by the properties proved about
    them.

    Conventions of the embedding.
    - A JavaScript [number] is embedded twice.  In the modules
      [RateLimiter] and [PurchaseOrders] it is an exact rational ([Q]):
      they carry the properties that assume exact arithmetic or that do
      not depend on what the arithmetic computes (which calls are made,
      which entries are kept, what a reply lists).  In the modules
      [RateLimiter64] and [PurchaseOrders64] it is an IEEE 754 double
      ([PrimFloat.float]), with [NaN], the infinities and rounding: they
      carry the properties that state what the code computes.
    - A number of a JSON document is a rational; the code reads it as a
      double.
    - [Date.now()] is an integer number of milliseconds ([Z]).
    - An optional field is an [option]; a string is truthy when it is
      present and not empty.
    - [Map<string, V>] is a [gmap string V]; the insertion-ordered
      [Set<string>] is a duplicate-free list in insertion order.
    - Remote calls, sleeps and delays are recorded in an explicit trace. *)

From Stdlib Require Import QArith Qminmax Qround Lqa ZArith String Ascii List.
From Stdlib Require Import DecimalString OrderedTypeEx.
From Stdlib Require Import Sorted Permutation.
From Stdlib Require Floats.
From stdpp Require Import gmap strings list fin_maps.

Open Scope Q_scope.

(** ** JavaScript numbers and truthiness *)

Definition Qltb (a b : Q) : bool := negb (Qle_bool b a).

(** [s] used as a condition, for an optional string. *)
Definition truthy (s : option string) : bool :=
  match s with
  | Some x => negb (String.eqb x "")
  | None => false
  end.

(** [s || ''] *)
Definition or_empty (s : option string) : string :=
  match s with
  | Some x => x
  | None => ""%string
  end.

(** ** The token bucket ([class RateLimiter]) *)

Module RateLimiter.

Record t := Build {
  tokens : Q;
  lastRefill : Z;
  maxTokens : Q;
  refillRate : Q  (* tokens per ms *)
}.

(** [constructor(requestsPerMinute)], with [now] the value of [Date.now()]. *)
Definition new (requestsPerMinute : Q) (now : Z) : t :=
  {| maxTokens := requestsPerMinute;
     tokens := requestsPerMinute;
     lastRefill := now;
     refillRate := requestsPerMinute / 60000 |}.

(** [refill()], reading the clock at [now]. *)
Definition refill (now : Z) (rl : t) : t :=
  let elapsed := (now - lastRefill rl)%Z in
  {| tokens := Qmin (maxTokens rl) (tokens rl + inject_Z elapsed * refillRate rl);
     lastRefill := now;
     maxTokens := maxTokens rl;
     refillRate := refillRate rl |}.

(** [this.tokens -= 1] *)
Definition deduct (rl : t) : t :=
  {| tokens := tokens rl - 1;
     lastRefill := lastRefill rl;
     maxTokens := maxTokens rl;
     refillRate := refillRate rl |}.

(** [acquire()] is asynchronous: it runs up to its [await this.sleep(..)]
    in one piece, and its continuation runs in one piece once the timer
    fires.  Between the two, other callers may run on the same limiter. *)
Inductive started :=
| Finished (rl : t)
| Suspended (waitTime : Z) (rl : t).

Definition acquire_start (now : Z) (rl : t) : started :=
  let rl1 := refill now rl in
  if Qltb (tokens rl1) 1 then
    Suspended (Qceiling ((1 - tokens rl1) / refillRate rl1)) rl1
  else
    Finished (deduct rl1).

Definition acquire_resume (now : Z) (rl : t) : t :=
  deduct (refill now rl).

(** One [acquire()] with nothing else running during its sleep: [now] is
    the clock at the call, [woke] the clock when the sleep returns.  The
    second component is the requested sleep, if any. *)
Definition acquire (now woke : Z) (rl : t) : t * option Z :=
  match acquire_start now rl with
  | Finished rl' => (rl', None)
  | Suspended w rl1 => (acquire_resume woke rl1, Some w)
  end.

(** Several in-flight calls on one limiter: each event is one piece of
    some call, run on the shared state. *)
Inductive event :=
| Call (now : Z)      (* a caller enters [acquire()] *)
| Wake (now : Z).     (* a sleeping caller's timer fires *)

Definition step (ev : event) (rl : t) : t * option Z :=
  match ev with
  | Call now =>
      match acquire_start now rl with
      | Finished rl' => (rl', None)
      | Suspended w rl1 => (rl1, Some w)
      end
  | Wake now => (acquire_resume now rl, None)
  end.

(** Runs a schedule and collects the sleeps that were requested. *)
Fixpoint run (evs : list event) (rl : t) : t * list Z :=
  match evs with
  | [] => (rl, [])
  | ev :: rest =>
      let '(rl1, w) := step ev rl in
      let '(rl2, ws) := run rest rl1 in
      (rl2, match w with Some x => x :: ws | None => ws end)
  end.

(** The algorithm in the words of the specification: tokens accumulate at
    [rate/60000] per millisecond up to [rate]; refill for [elapsed1], wait
    [ceil((1 - tokens)/refillRate)] if fewer than one token is left and
    refill again for [elapsed2], then take one token. *)
Definition spec_acquire (rate tok : Q) (elapsed1 elapsed2 : Z) : Q * option Z :=
  let perMs := rate / 60000 in
  let t1 := Qmin rate (tok + inject_Z elapsed1 * perMs) in
  if Qltb t1 1 then
    (Qmin rate (t1 + inject_Z elapsed2 * perMs) - 1, Some (Qceiling ((1 - t1) / perMs)))
  else
    (t1 - 1, None).

(** Callers one after the other, the clock reading [now] at each call;
    a caller that has to wait sleeps exactly as long as it asked. *)
Fixpoint acquire_in_turn (times : list Z) (rl : t) : t * list (option Z) :=
  match times with
  | [] => (rl, [])
  | now :: rest =>
      let '(rl1, w) :=
        match acquire_start now rl with
        | Finished rl' => (rl', None)
        | Suspended w rl1 => (acquire_resume (now + w) rl1, Some w)
        end in
      let '(rl2, ws) := acquire_in_turn rest rl1 in
      (rl2, w :: ws)
  end.

End RateLimiter.

(** ** The request executor ([class InflowClient]) *)

Module Client.

Record InflowConfig := {
  companyId : string;
  apiKey : string;
  baseUrl : string;
  apiVersion : string;
  rateLimitPerMinute : Q;
  requestTimeoutMs : Z;
  maxRetries : Z;
  retryDelayMs : Z;
  debug : bool
}.

(** What a [catch] clause of the client can see. *)
Inductive JsError :=
| InflowApiError (statusCode : Z) (apiError : option string)
| TypeError (message : string)
| OtherError (name message : string).

(** [error.name] *)
Definition error_name (e : JsError) : string :=
  match e with
  | InflowApiError _ _ => "InflowApiError"
  | TypeError _ => "TypeError"
  | OtherError n _ => n
  end.

(** [isRetryableError(error)] *)
Definition isRetryableError (e : JsError) : bool :=
  match e with
  | InflowApiError statusCode _ => (500 <=? statusCode)%Z || (statusCode =? 429)%Z
  | TypeError _ => true
  | OtherError _ _ => false
  end.

(** The ways [fetch] rejects: a [TypeError] for a network failure, or some
    other exception, among them the [AbortError] raised when the timeout
    aborts the request. *)
Inductive FetchError :=
| NetworkFailure (message : string)
| Exception (name message : string).

(** A response: its status, and its body when that body is JSON.  The
    decoded body is kept as text; [apiError?.message] is read from it. *)
Record Response := {
  status : Z;
  json : option string
}.

Inductive fetched :=
| Rejected (e : FetchError)
| Resolved (r : Response).

(** [response.ok] *)
Definition ok (r : Response) : bool :=
  (200 <=? status r)%Z && (status r <=? 299)%Z.

Inductive outcome :=
| Returned (value : string)
| Threw (e : JsError).

(** Observable steps of the executor.  Log lines ([this.log]) are written
    only when [debug] is set and change nothing else; they are left out. *)
Inductive event :=
| Acquire            (* [await this.rateLimiter.acquire()] *)
| Fetch              (* [await fetch(url, fetchOptions)] *)
| Delay (ms : Z).    (* [await this.delay(delayMs)] *)

(** [executeRequest]: what one attempt makes of the outcome of its fetch. *)
Definition executeRequest (o : fetched) : outcome * list event :=
  let result :=
    match o with
    | Rejected (NetworkFailure m) => Threw (TypeError m)
    | Rejected (Exception n m) =>
        if String.eqb n "AbortError" then Threw (InflowApiError 408 None)
        else Threw (OtherError n m)
    | Resolved r =>
        if negb (ok r) then Threw (InflowApiError (status r) (json r))
        else if (status r =? 204)%Z then Returned "{}"
        else match json r with
             | Some v => Returned v
             | None => Threw (OtherError "SyntaxError" "invalid JSON")
             end
    end in
  (result, [Acquire; Fetch]).

(** The body of [for (let attempt = 0; attempt <= maxRetries; attempt++)].
    [n] is the number of iterations the loop guard still allows, that is
    [maxRetries + 1 - attempt] when this is positive and [0] otherwise; with
    [n = 0] the guard fails and the statement after the loop is reached.
    [remote attempt] is what the fetch of that attempt meets. *)
Fixpoint request_from (cfg : InflowConfig) (remote : Z -> fetched)
    (n : nat) (attempt : Z) : outcome * list event :=
  match n with
  | O => (Threw (OtherError "Error" "Unexpected retry loop exit"), [])
  | S n' =>
      let '(r, tr) := executeRequest (remote attempt) in
      match r with
      | Returned v => (Returned v, tr)
      | Threw error =>
          let isLastAttempt := (attempt =? maxRetries cfg)%Z in
          if isLastAttempt || negb (isRetryableError error) then (Threw error, tr)
          else
            let delayMs := (retryDelayMs cfg * 2 ^ attempt)%Z in
            let '(r', tr') := request_from cfg remote n' (attempt + 1)%Z in
            (r', tr ++ Delay delayMs :: tr')
      end
  end.

(** [request(method, path, options)] *)
Definition request (cfg : InflowConfig) (remote : Z -> fetched) : outcome * list event :=
  request_from cfg remote (Z.to_nat (maxRetries cfg + 1)) 0%Z.

(** Number of attempts and the backoff delays in a trace. *)
Definition attempts (tr : list event) : nat :=
  length (List.filter (fun ev => match ev with Fetch => true | _ => false end) tr).

Fixpoint delays (tr : list event) : list Z :=
  match tr with
  | [] => []
  | Delay ms :: rest => ms :: delays rest
  | _ :: rest => delays rest
  end.

(** The error one attempt raises, if it raises. *)
Definition failure_of (o : fetched) : option JsError :=
  match fst (executeRequest o) with
  | Threw e => Some e
  | Returned _ => None
  end.

(** Sample data: the defaults of [loadConfig], and a remote that answers
    every attempt with the same status and no JSON body. *)
Definition default_config : InflowConfig :=
  {| companyId := "company";
     apiKey := "key";
     baseUrl := "https://cloudapi.inflowinventory.com";
     apiVersion := "2025-06-24";
     rateLimitPerMinute := 60;
     requestTimeoutMs := 30000;
     maxRetries := 3;
     retryDelayMs := 1000;
     debug := false |}.

Definition always (statusCode : Z) : Z -> fetched :=
  fun _ => Resolved {| status := statusCode; json := None |}.

(** The rate limiter is consulted once per [Acquire] in a trace. *)
Definition acquires (tr : list event) : nat :=
  length (List.filter (fun ev => match ev with Acquire => true | _ => false end) tr).

(** [Math.pow(2, attempt)] scaled by the base delay: the backoff before the
    retry that follows attempt [n]. *)
Definition backoff (cfg : InflowConfig) (n : Z) : Z :=
  (retryDelayMs cfg * 2 ^ n)%Z.

Definition total_delay (tr : list event) : Z :=
  foldr Z.add 0%Z (delays tr).

(** What [getList] gives back: the decoded array and, when asked for, the
    count read from the [X-listCount] header. *)
Inductive list_outcome :=
| Listed (data : string) (totalCount : option (option Z))
| ListThrew (e : JsError).

Section Lists.

(** [parseInt(s, 10)]; [None] stands for [NaN]. *)
Variable parseInt : string -> option Z.

(** [getList(path, options)]: one fetch, outside the retry loop of
    [request].  [listCount] is [response.headers.get('X-listCount')]. *)
Definition getList (includeCount : bool) (o : fetched) (listCount : option string)
    : list_outcome * list event :=
  let result :=
    match o with
    | Rejected (NetworkFailure m) => ListThrew (TypeError m)
    | Rejected (Exception n m) =>
        if String.eqb n "AbortError" then ListThrew (InflowApiError 408 None)
        else ListThrew (OtherError n m)
    | Resolved r =>
        if negb (ok r) then ListThrew (InflowApiError (status r) (json r))
        else match json r with
             | Some data =>
                 Listed data
                   (if includeCount
                    then Some (parseInt (match listCount with
                                         | Some c => c
                                         | None => "0"%string
                                         end))
                    else None)
             | None => ListThrew (OtherError "SyntaxError" "invalid JSON")
             end
    end in
  (result, [Acquire; Fetch]).

End Lists.

(** A remote that fails [k] times with [failing] and then answers 200. *)
Definition failing_then_ok (k : Z) (failing : Z) (body : string) : Z -> fetched :=
  fun attempt =>
    if (attempt <? k)%Z then Resolved {| status := failing; json := None |}
    else Resolved {| status := 200; json := Some body |}.

(** The defaults with another number of retries. *)
Definition config_with_retries (n : Z) : InflowConfig :=
  {| companyId := companyId default_config;
     apiKey := apiKey default_config;
     baseUrl := baseUrl default_config;
     apiVersion := apiVersion default_config;
     rateLimitPerMinute := rateLimitPerMinute default_config;
     requestTimeoutMs := requestTimeoutMs default_config;
     maxRetries := n;
     retryDelayMs := retryDelayMs default_config;
     debug := debug default_config |}.

(** A remote on which every fetch is aborted by the timeout. *)
Definition timing_out : Z -> fetched :=
  fun _ => Rejected (Exception "AbortError" "This operation was aborted").

End Client.

(** ** Purchase orders: data ([types/inflow.ts]) *)

Module PurchaseOrders.

Inductive NumOrString :=
| JNum (n : Q)
| JStr (s : string).

(** [{ standardQuantity, uomQuantity, uom?, serialNumbers? }] *)
Record QuantityObject := {
  standardQuantity : option NumOrString;
  uomQuantity : option NumOrString;
  uom : option string;
  serialNumbers : option (list string)
}.

(** A quantity as the API sends it: a number, a string or an object. *)
Inductive Quantity :=
| QNumber (n : Q)
| QString (s : string)
| QObject (o : QuantityObject).

Record Product := {
  name : option string
}.

(** [PurchaseOrderItem], an order line (the fields the handlers read). *)
Record PurchaseOrderItem := {
  line_purchaseOrderLineId : option string;
  line_productId : option string;
  line_product : option Product;
  line_quantity : option Quantity
}.

(** [PurchaseOrderReceiveLine], a ledger entry. *)
Record PurchaseOrderReceiveLine := {
  purchaseOrderReceiveLineId : option string;
  productId : option string;
  description : option string;
  vendorItemCode : option string;
  quantity : option Quantity;
  locationId : option string;
  sublocation : option string;
  receiveDate : option string;
  timestamp : option string
}.

(** [PurchaseOrder] (the fields the handlers read or send back). *)
Record PurchaseOrder := {
  po_purchaseOrderId : option string;
  po_orderNumber : option string;
  po_vendorId : option string;
  po_locationId : option string;
  po_status : option string;
  po_lines : option (list PurchaseOrderItem);
  po_receiveLines : option (list PurchaseOrderReceiveLine);
  po_unstockLines : option (list string);
  po_timestamp : option string
}.

(** The body of the [PUT /purchase-orders] that replaces the ledger.
    [receive] sends no [unstockLines]. *)
Record PutBody := {
  put_purchaseOrderId : option string;
  put_vendorId : option string;
  put_receiveLines : list PurchaseOrderReceiveLine;
  put_unstockLines : option (list string);
  put_timestamp : option string
}.

(** The remote system as a handler meets it: what [client.get] and
    [client.put] give back. *)
Inductive answer (A : Type) :=
| Gave (a : A)
| Raised (e : Client.JsError).
Arguments Gave {A} a.
Arguments Raised {A} e.

Record Remote := {
  get : string -> answer (option PurchaseOrder);
  put : PutBody -> answer PurchaseOrder
}.

Inductive call :=
| GET (purchaseOrderId : string)
| PUT (body : PutBody).

(** The remote writes among the calls of a run. *)
Fixpoint writes (cs : list call) : list PutBody :=
  match cs with
  | [] => []
  | PUT b :: rest => b :: writes rest
  | GET _ :: rest => writes rest
  end.

(** The calls of an invocation: none, the read alone, or the read and
    then one write. *)
Definition read_then_write_once (id : string) (cs : list call) : Prop :=
  cs = [] \/ cs = [GET id] \/ exists body, cs = [GET id; PUT body].

(** How a handler ends: it returns its reply, or an exception escapes. *)
Inductive ending (R : Type) :=
| Replied (r : R)
| Escaped (e : Client.JsError).
Arguments Replied {R} r.
Arguments Escaped {R} e.

Section Engine.

(** [parseFloat]; [None] stands for [NaN]. *)
Variable parseFloat : string -> option Q.
(** [n.toFixed(4)] *)
Variable toFixed4 : Q -> string.

(** [parseFloat(s) || 0] *)
Definition parseFloat_or_0 (s : string) : Q :=
  match parseFloat s with
  | Some n => n
  | None => 0
  end.

(** [parseLineQuantity(qty)] *)
Definition parseLineQuantity (qty : option Quantity) : Q :=
  match qty with
  | None => 0
  | Some (QNumber n) => n
  | Some (QString s) => parseFloat_or_0 s
  | Some (QObject o) =>
      let std :=
        match standardQuantity o with
        | Some v => v
        | None => match uomQuantity o with
                  | Some v => v
                  | None => JNum 0
                  end
        end in
      match std with
      | JStr s => parseFloat_or_0 s
      | JNum n => n
      end
  end.

(** [stripReceiveLineToWritable(rl)] *)
Definition stripReceiveLineToWritable (rl : PurchaseOrderReceiveLine)
    : PurchaseOrderReceiveLine :=
  {| purchaseOrderReceiveLineId := purchaseOrderReceiveLineId rl;
     productId := productId rl;
     description := None;
     vendorItemCode := None;
     quantity := quantity rl;
     locationId := locationId rl;
     sublocation := sublocation rl;
     receiveDate := receiveDate rl;
     timestamp := timestamp rl |}.

(** An entry stripped to its writable fields, field by field: identity,
    product, quantity, location, sublocation, receive date and version
    stamp are those of the entry, and nothing else is left on it. *)
Definition writable_copy (written rl : PurchaseOrderReceiveLine) : Prop :=
  purchaseOrderReceiveLineId written = purchaseOrderReceiveLineId rl /\
  productId written = productId rl /\
  quantity written = quantity rl /\
  locationId written = locationId rl /\
  sublocation written = sublocation rl /\
  receiveDate written = receiveDate rl /\
  timestamp written = timestamp rl /\
  description written = None /\
  vendorItemCode written = None.

(** [{ standardQuantity: n.toFixed(4), uomQuantity: n.toFixed(4) }], with
    the serial numbers when [receive] passes some. *)
Definition fixedQuantity (n : Q) (serials : option (list string)) : Quantity :=
  QObject {| standardQuantity := Some (JStr (toFixed4 n));
             uomQuantity := Some (JStr (toFixed4 n));
             uom := None;
             serialNumbers := serials |}.

(** [currentPO.status && ['Cancelled', 'Closed'].includes(currentPO.status)] *)
Definition terminal_status (status : option string) : bool :=
  match status with
  | Some s => String.eqb s "Cancelled" || String.eqb s "Closed"
  | None => false
  end.

(** The insertion-ordered [Set<string>]: [has] and [add]. *)
Definition set_has (x : string) (s : list string) : bool :=
  existsb (String.eqb x) s.

Definition set_add (x : string) (s : list string) : list string :=
  if set_has x s then s else s ++ [x].

(** [Array.prototype.sort(compare)]: the sort is stable, and [b] goes before
    [a] only when [compare(a, b) > 0]. *)
Fixpoint sort_insert {A : Type} (compare : A -> A -> Z) (x : A) (l : list A) : list A :=
  match l with
  | [] => [x]
  | y :: l' =>
      if (0 <? compare x y)%Z then y :: sort_insert compare x l'
      else x :: y :: l'
  end.

Definition sort {A : Type} (compare : A -> A -> Z) (l : list A) : list A :=
  foldr (sort_insert compare) [] l.

(** [a > b] and [a < b] on strings. *)
Definition str_gt (a b : string) : bool :=
  match String.compare a b with Gt => true | _ => false end.

Definition str_lt (a b : string) : bool :=
  match String.compare a b with Lt => true | _ => false end.

(** The LIFO order in the words of the specification: descending receive
    date, then descending version stamp, then descending identity. *)
Definition later (x y : string) : Prop := String.compare x y = Gt.

Definition lifo_order (a b : PurchaseOrderReceiveLine) : Prop :=
  let dateA := or_empty (receiveDate a) in
  let dateB := or_empty (receiveDate b) in
  let tsA := or_empty (timestamp a) in
  let tsB := or_empty (timestamp b) in
  let idA := or_empty (purchaseOrderReceiveLineId a) in
  let idB := or_empty (purchaseOrderReceiveLineId b) in
  later dateA dateB \/
  (dateA = dateB /\
   (later tsA tsB \/
    (tsA = tsB /\ (later idA idB \/ idA = idB)))).

(** The comparison function of the LIFO sort. *)
Definition lifo_compare (a b : PurchaseOrderReceiveLine) : Z :=
  let dateA := or_empty (receiveDate a) in
  let dateB := or_empty (receiveDate b) in
  if str_gt dateB dateA then 1
  else if str_lt dateB dateA then (-1)
  else
    let tsA := or_empty (timestamp a) in
    let tsB := or_empty (timestamp b) in
    if str_gt tsB tsA then 1
    else if str_lt tsB tsA then (-1)
    else
      let idA := or_empty (purchaseOrderReceiveLineId a) in
      let idB := or_empty (purchaseOrderReceiveLineId b) in
      if str_gt idB idA then 1
      else if str_lt idB idA then (-1)
      else 0.

(** *** [unreceive_purchase_order] *)

Record UnreceiveItem := {
  u_productId : string;
  u_quantity : Q
}.

Record UnreceiveArgs := {
  u_purchaseOrderId : string;
  receiveLineIds : option (list string);
  u_items : option (list UnreceiveItem);
  unreceiveAll : option bool;
  dryRun : option bool
}.

(** An element of [partialMods]. *)
Record PartialMod := {
  mod_id : string;
  newQty : Q;
  oldQty : Q
}.

(** The validation messages of the handler, with the values they print. *)
Inductive UnreceiveError :=
| ReceiveLineNotFound (id : string)
| NoReceiveLinesFor (product : string)
| MoreThanReceived (product : string) (requested totalReceived : Q).

Record RemovedLine := {
  removed_receiveLineId : string;
  removed_productId : string;
  removed_productName : option string;
  removed_quantity : Q;
  removed_receiveDate : option string
}.

Record ModifiedLine := {
  modified_receiveLineId : string;
  modified_productId : string;
  modified_productName : option string;
  modified_oldQty : Q;
  modified_newQty : Q
}.

Inductive UnreceiveReply :=
| ProvideExactlyOne
| UseOnlyOne
| UnreceiveNotFound
| CannotUnreceive (status : string)
| NoReceiveLinesOnPO
| UnreceiveValidationFailed (errors : list UnreceiveError)
| DryRun (purchaseOrderId : string) (orderNumber : option string)
    (currentReceiveLines : nat) (wouldRemove : list RemovedLine)
    (wouldModify : list ModifiedLine) (remainingReceiveLines : Z)
| Unreceived (purchaseOrderId orderNumber previousStatus newStatus : option string)
    (removed : list RemovedLine) (modified : list ModifiedLine)
    (remainingReceiveLines : nat).

(** [[receiveLineIds, items, unreceiveAll].filter(Boolean).length]: an
    array is truthy even when empty, [false] and [undefined] are not. *)
Definition modes (args : UnreceiveArgs) : nat :=
  length (List.filter (fun b : bool => b)
    [ match receiveLineIds args with Some _ => true | None => false end;
      match u_items args with Some _ => true | None => false end;
      match unreceiveAll args with Some b => b | None => false end ]).

(** The lookup [receiveLineId -> receiveLine]. *)
Definition receiveLineMap (existing : list PurchaseOrderReceiveLine)
    : gmap string PurchaseOrderReceiveLine :=
  foldl (fun m rl =>
           if truthy (purchaseOrderReceiveLineId rl)
           then <[or_empty (purchaseOrderReceiveLineId rl) := rl]> m
           else m) ∅ existing.

(** The lookup [productId -> product name], from the order lines. *)
Definition productNameMap (lines : list PurchaseOrderItem) : gmap string string :=
  foldl (fun m line =>
           let nm := match line_product line with Some p => name p | None => None end in
           if truthy (line_productId line) && truthy nm
           then <[or_empty (line_productId line) := or_empty nm]> m
           else m) ∅ lines.

(** [productNameMap.get(productId) || productId] *)
Definition product_label (names : gmap string string) (pid : string) : string :=
  match names !! pid with
  | Some n => if truthy (Some n) then n else pid
  | None => pid
  end.

(** The consumption loop over the sorted lines of one product. *)
Fixpoint lifo_walk (sorted : list PurchaseOrderReceiveLine) (remaining : Q)
    (removeSet : list string) (partialMods : list PartialMod)
    : list string * list PartialMod :=
  match sorted with
  | [] => (removeSet, partialMods)
  | rl :: rest =>
      if Qle_bool remaining 0 then (removeSet, partialMods)
      else
        let lineQty := parseLineQuantity (quantity rl) in
        let rlId := or_empty (purchaseOrderReceiveLineId rl) in
        if Qle_bool lineQty remaining then
          lifo_walk rest (remaining - lineQty) (set_add rlId removeSet) partialMods
        else
          let newQty := lineQty - remaining in
          lifo_walk rest 0 removeSet
            (partialMods ++ [{| mod_id := rlId; newQty := newQty; oldQty := lineQty |}])
  end.

(** The lines a walk removed whole, added to [removeSet] in order. *)
Definition add_all (removeSet : list string) (lines : list PurchaseOrderReceiveLine)
    : list string :=
  foldl (fun s rl => set_add (or_empty (purchaseOrderReceiveLineId rl)) s) removeSet lines.

(** The quantity taken off by partial reductions. *)
Definition reduction (mods : list PartialMod) : Q :=
  foldl (fun sum m => sum + (oldQty m - newQty m)) 0 mods.

(** The receive lines of a product that carry an identity. *)
Definition productLinesOf (existing : list PurchaseOrderReceiveLine) (pid : string)
    : list PurchaseOrderReceiveLine :=
  List.filter (fun rl =>
            match productId rl with
            | Some p => String.eqb p pid
            | None => false
            end && truthy (purchaseOrderReceiveLineId rl)) existing.

(** [productLines.reduce((sum, rl) => sum + parseLineQuantity(rl.quantity), 0)] *)
Definition totalReceivedOf (productLines : list PurchaseOrderReceiveLine) : Q :=
  foldl (fun sum rl => sum + parseLineQuantity (quantity rl)) 0 productLines.

Definition marking : Type := list string * list PartialMod * list UnreceiveError.

(** One iteration of [for (const item of items)]. *)
Definition unreceive_item (existing : list PurchaseOrderReceiveLine)
    (names : gmap string string) (st : marking) (item : UnreceiveItem) : marking :=
  let '(removeSet, partialMods, errors) := st in
  let productLines := productLinesOf existing (u_productId item) in
  if (length productLines =? 0)%nat then
    (removeSet, partialMods,
     errors ++ [NoReceiveLinesFor (product_label names (u_productId item))])
  else
    let totalReceived := totalReceivedOf productLines in
    if Qltb totalReceived (u_quantity item) then
      (removeSet, partialMods,
       errors ++ [MoreThanReceived (product_label names (u_productId item))
                    (u_quantity item) totalReceived])
    else
      let sorted := sort lifo_compare productLines in
      let '(removeSet', partialMods') :=
        lifo_walk sorted (u_quantity item) removeSet partialMods in
      (removeSet', partialMods', errors).

(** Phase 3: which receive lines to remove or modify, by mode. *)
Definition mark (args : UnreceiveArgs) (existing : list PurchaseOrderReceiveLine)
    (names : gmap string string) : marking :=
  if match unreceiveAll args with Some b => b | None => false end then
    (foldl (fun s rl =>
              if truthy (purchaseOrderReceiveLineId rl)
              then set_add (or_empty (purchaseOrderReceiveLineId rl)) s
              else s) [] existing, [], [])
  else
    match receiveLineIds args with
    | Some ids =>
        foldl (fun (st : marking) id =>
                 let '(removeSet, partialMods, errors) := st in
                 match receiveLineMap existing !! id with
                 | None => (removeSet, partialMods, errors ++ [ReceiveLineNotFound id])
                 | Some _ => (set_add id removeSet, partialMods, errors)
                 end) ([], [], []) ids
    | None =>
        match u_items args with
        | Some items => foldl (unreceive_item existing names) ([], [], []) items
        | None => ([], [], [])
        end
    end.

(** Phase 4: the summaries.  [receiveLineMap.get(id)!] is dereferenced; on
    a missing line that is a [TypeError], here [None]. *)
Definition removed_of (existing : list PurchaseOrderReceiveLine)
    (names : gmap string string) (removeSet : list string) : option (list RemovedLine) :=
  mapM (fun rlId =>
          match receiveLineMap existing !! rlId with
          | None => None
          | Some rl =>
              Some {| removed_receiveLineId := rlId;
                      removed_productId := or_empty (productId rl);
                      removed_productName := names !! or_empty (productId rl);
                      removed_quantity := parseLineQuantity (quantity rl);
                      removed_receiveDate := receiveDate rl |}
          end) removeSet.

Definition modified_of (existing : list PurchaseOrderReceiveLine)
    (names : gmap string string) (partialMods : list PartialMod) : option (list ModifiedLine) :=
  mapM (fun m =>
          match receiveLineMap existing !! mod_id m with
          | None => None
          | Some rl =>
              Some {| modified_receiveLineId := mod_id m;
                      modified_productId := or_empty (productId rl);
                      modified_productName := names !! or_empty (productId rl);
                      modified_oldQty := oldQty m;
                      modified_newQty := newQty m |}
          end) partialMods.

(** [remainingLines.find(rl => rl.purchaseOrderReceiveLineId === mod.id)]
    and the assignment to its [quantity]. *)
Fixpoint apply_mod (m : PartialMod) (lines : list PurchaseOrderReceiveLine)
    : list PurchaseOrderReceiveLine :=
  match lines with
  | [] => []
  | rl :: rest =>
      if match purchaseOrderReceiveLineId rl with
         | Some i => String.eqb i (mod_id m)
         | None => false
         end
      then
        {| purchaseOrderReceiveLineId := purchaseOrderReceiveLineId rl;
           productId := productId rl;
           description := description rl;
           vendorItemCode := vendorItemCode rl;
           quantity := Some (fixedQuantity (newQty m) None);
           locationId := locationId rl;
           sublocation := sublocation rl;
           receiveDate := receiveDate rl;
           timestamp := timestamp rl |} :: rest
      else rl :: apply_mod m rest
  end.

(** The retained ledger: lines not marked, stripped, with the partial
    reductions applied. *)
Definition remainingLines (existing : list PurchaseOrderReceiveLine)
    (removeSet : list string) (partialMods : list PartialMod)
    : list PurchaseOrderReceiveLine :=
  foldl (fun lines m => apply_mod m lines)
    (map stripReceiveLineToWritable
       (List.filter (fun rl => negb (set_has (or_empty (purchaseOrderReceiveLineId rl)) removeSet))
          existing))
    partialMods.

(** [a || b] on optional strings. *)
Definition or_else (a b : option string) : option string :=
  if truthy a then a else b.

Definition dereference_error : Client.JsError :=
  Client.TypeError "Cannot read properties of undefined".

(** The handler.  The check [errors.length > 0] sits, in the source, at the
    end of the two branches that can collect errors; the full-reversal
    branch collects none, so one check after the marking is the same. *)
Definition unreceive_purchase_order (remote : Remote) (args : UnreceiveArgs)
    : ending UnreceiveReply * list call :=
  if (modes args =? 0)%nat then (Replied ProvideExactlyOne, [])
  else if (1 <? modes args)%nat then (Replied UseOnlyOne, [])
  else
    let fetch := [GET (u_purchaseOrderId args)] in
    match get remote (u_purchaseOrderId args) with
    | Raised e => (Escaped e, fetch)
    | Gave None => (Replied UnreceiveNotFound, fetch)
    | Gave (Some currentPO) =>
        if terminal_status (po_status currentPO) then
          (Replied (CannotUnreceive (or_empty (po_status currentPO))), fetch)
        else
          let existing := default [] (po_receiveLines currentPO) in
          if (length existing =? 0)%nat then (Replied NoReceiveLinesOnPO, fetch)
          else
            let names := productNameMap (default [] (po_lines currentPO)) in
            let '(removeSet, partialMods, errors) := mark args existing names in
            if negb (length errors =? 0)%nat then
              (Replied (UnreceiveValidationFailed errors), fetch)
            else
              match removed_of existing names removeSet,
                    modified_of existing names partialMods with
              | Some removed, Some modified =>
                  if match dryRun args with Some b => b | None => false end then
                    (Replied (DryRun (u_purchaseOrderId args) (po_orderNumber currentPO)
                                (length existing) removed modified
                                (Z.of_nat (length existing) - Z.of_nat (length removeSet))%Z),
                     fetch)
                  else
                    let lines := remainingLines existing removeSet partialMods in
                    let putBody :=
                      {| put_purchaseOrderId := po_purchaseOrderId currentPO;
                         put_vendorId := po_vendorId currentPO;
                         put_receiveLines := lines;
                         put_unstockLines := Some (default [] (po_unstockLines currentPO));
                         put_timestamp := po_timestamp currentPO |} in
                    match put remote putBody with
                    | Raised e => (Escaped e, fetch ++ [PUT putBody])
                    | Gave result =>
                        (Replied (Unreceived
                           (or_else (po_purchaseOrderId result) (po_purchaseOrderId currentPO))
                           (or_else (po_orderNumber result) (po_orderNumber currentPO))
                           (po_status currentPO) (po_status result)
                           removed modified
                           (match po_receiveLines result with
                            | Some ls => length ls
                            | None => length lines
                            end)),
                         fetch ++ [PUT putBody])
                    end
              | _, _ => (Escaped dereference_error, fetch)
              end
    end.

(** *** [receive_purchase_order] *)

Record ReceiveItem := {
  r_purchaseOrderLineId : option string;
  r_productId : option string;
  r_quantity : Q;
  r_serialNumbers : option (list string)
}.

Record ReceiveArgs := {
  r_purchaseOrderId : string;
  receiveAll : option bool;
  r_items : option (list ReceiveItem);
  r_locationId : option string;
  r_receiveDate : option string;
  allowOverReceive : option bool
}.

(** What the handler reads from its surroundings: the [k]-th value of
    [randomUUID()] in the invocation, and [new Date().toISOString()]. *)
Record Surroundings := {
  randomUUID : nat -> string;
  nowISO : string
}.

(** The validation messages of the handler, with the values they print. *)
Inductive ReceiveError :=
| LineIdNotFound (lineId : string)
| ProductNotOnPO (productId : string)
| MissingIdentifier
| UnresolvedProduct (lineId : option string)
| OverReceive (product : string) (wouldReceive ordered alreadyReceived maxMore : Q)
| SerialCountMismatch (product : string) (count : nat) (quantity : Q).

(** An element of [receiveSummary]. *)
Record SummaryRow := {
  s_productId : string;
  s_productName : option string;
  s_quantity : Q;
  s_ordered : Q;
  s_previouslyReceived : Q;
  s_totalAfterReceive : Q;
  s_fullyReceived : bool
}.

(** An element of [received] in the reply. *)
Record ReceivedRow := {
  productName : option string;
  quantityReceived : Q;
  ordered : Q;
  previouslyReceived : Q;
  totalReceived : Q;
  fullyReceived : bool
}.

Inductive ReceiveReply :=
| BothModes
| NoMode
| ReceiveNotFound
| CannotReceive (status : string)
| AllFullyReceived
| ReceiveValidationFailed (errors : list ReceiveError)
| Received (purchaseOrderId orderNumber previousStatus newStatus : option string)
    (received : list ReceivedRow) (totalReceiveLinesNow : nat)
    (warnings : option (list ReceiveError)).

(** The mutable locals of phase 4. *)
Record ReceiveState := {
  receivedByProduct : gmap string Q;
  newReceiveLines : list PurchaseOrderReceiveLine;
  receiveSummary : list SummaryRow;
  errors : list ReceiveError
}.

(** Phase 3: received totals per product from the existing ledger. *)
Definition receivedTotals (existing : list PurchaseOrderReceiveLine) : gmap string Q :=
  foldl (fun m rl =>
           if negb (truthy (productId rl)) then m
           else
             let qty := parseLineQuantity (quantity rl) in
             let p := or_empty (productId rl) in
             <[p := default 0 (m !! p) + qty]> m) ∅ existing.

Definition lineMapOf (lines : list PurchaseOrderItem) : gmap string PurchaseOrderItem :=
  foldl (fun m line =>
           if truthy (line_purchaseOrderLineId line)
           then <[or_empty (line_purchaseOrderLineId line) := line]> m
           else m) ∅ lines.

Definition productLineMapOf (lines : list PurchaseOrderItem)
    : gmap string (list PurchaseOrderItem) :=
  foldl (fun m line =>
           if truthy (line_productId line)
           then
             let p := or_empty (line_productId line) in
             <[p := default [] (m !! p) ++ [line]]> m
           else m) ∅ lines.

(** The order lines of a product, read off the order itself. *)
Definition line_is_for (pid : string) (line : PurchaseOrderItem) : bool :=
  match line_productId line with
  | Some p => String.eqb p pid && negb (String.eqb p "")
  | None => false
  end.

Definition linesOfProduct (lines : list PurchaseOrderItem) (pid : string)
    : list PurchaseOrderItem :=
  List.filter (line_is_for pid) lines.

(** Ordered quantity summed across all order lines for a product. *)
Definition orderedFor (productLineMap : gmap string (list PurchaseOrderItem))
    (pid : string) : Q :=
  foldl (fun sum l => sum + parseLineQuantity (line_quantity l)) 0
    (default [] (productLineMap !! pid)).

(** The resolution of an item to a product and an order line. *)
Definition resolve (lineMap : gmap string PurchaseOrderItem)
    (productLineMap : gmap string (list PurchaseOrderItem)) (item : ReceiveItem)
    : ReceiveError + (string * PurchaseOrderItem) :=
  let found :=
    if truthy (r_purchaseOrderLineId item) then
      match lineMap !! or_empty (r_purchaseOrderLineId item) with
      | None => inl (LineIdNotFound (or_empty (r_purchaseOrderLineId item)))
      | Some matchedLine => inr (line_productId matchedLine, matchedLine)
      end
    else if truthy (r_productId item) then
      match head (default [] (productLineMap !! or_empty (r_productId item))) with
      | None => inl (ProductNotOnPO (or_empty (r_productId item)))
      | Some matchedLine => inr (r_productId item, matchedLine)
      end
    else inl MissingIdentifier in
  match found with
  | inl e => inl e
  | inr (resolvedProductId, matchedLine) =>
      if negb (truthy resolvedProductId)
      then inl (UnresolvedProduct (r_purchaseOrderLineId item))
      else inr (or_empty resolvedProductId, matchedLine)
  end.

(** [matchedLine?.product?.name] *)
Definition line_name (line : PurchaseOrderItem) : option string :=
  match line_product line with
  | Some p => name p
  | None => None
  end.

(** [matchedLine?.product?.name || resolvedProductId] *)
Definition line_label (line : PurchaseOrderItem) (pid : string) : string :=
  if truthy (line_name line) then or_empty (line_name line) else pid.

(** [if (locationId) receiveLine.locationId = locationId] *)
Definition given (s : option string) : option string :=
  if truthy s then s else None.

Definition push_error (st : ReceiveState) (e : ReceiveError) : ReceiveState :=
  {| receivedByProduct := receivedByProduct st;
     newReceiveLines := newReceiveLines st;
     receiveSummary := receiveSummary st;
     errors := errors st ++ [e] |}.

(** [item.serialNumbers && item.serialNumbers.length > 0] *)
Definition has_serials (item : ReceiveItem) : bool :=
  match r_serialNumbers item with
  | Some sns => (0 <? length sns)%nat
  | None => false
  end.

(** One iteration of [for (const item of items!)]. *)
Definition receive_item (env : Surroundings) (allow : bool)
    (lineMap : gmap string PurchaseOrderItem)
    (productLineMap : gmap string (list PurchaseOrderItem))
    (date : string) (location : option string)
    (st : ReceiveState) (item : ReceiveItem) : ReceiveState :=
  match resolve lineMap productLineMap item with
  | inl e => push_error st e
  | inr (resolvedProductId, matchedLine) =>
      let alreadyReceived := default 0 (receivedByProduct st !! resolvedProductId) in
      let orderedForProduct := orderedFor productLineMap resolvedProductId in
      if negb allow && Qltb orderedForProduct (alreadyReceived + r_quantity item) then
        push_error st
          (OverReceive (line_label matchedLine resolvedProductId)
             (alreadyReceived + r_quantity item) orderedForProduct alreadyReceived
             (orderedForProduct - alreadyReceived))
      else if has_serials item &&
              negb (Qeq_bool (inject_Z (Z.of_nat (length (default [] (r_serialNumbers item)))))
                      (r_quantity item)) then
        push_error st
          (SerialCountMismatch (line_label matchedLine resolvedProductId)
             (length (default [] (r_serialNumbers item))) (r_quantity item))
      else
        let receiveLine :=
          {| purchaseOrderReceiveLineId := Some (randomUUID env (length (newReceiveLines st)));
             productId := Some resolvedProductId;
             description := None;
             vendorItemCode := None;
             quantity := Some (fixedQuantity (r_quantity item)
                                 (if has_serials item then r_serialNumbers item else None));
             locationId := given location;
             sublocation := None;
             receiveDate := Some date;
             timestamp := None |} in
        {| receivedByProduct :=
             <[resolvedProductId := alreadyReceived + r_quantity item]> (receivedByProduct st);
           newReceiveLines := newReceiveLines st ++ [receiveLine];
           receiveSummary := receiveSummary st ++
             [{| s_productId := resolvedProductId;
                 s_productName := line_name matchedLine;
                 s_quantity := r_quantity item;
                 s_ordered := orderedForProduct;
                 s_previouslyReceived := alreadyReceived;
                 s_totalAfterReceive := alreadyReceived + r_quantity item;
                 s_fullyReceived := Qle_bool orderedForProduct (alreadyReceived + r_quantity item) |}];
           errors := errors st |}
  end.

(** One iteration of [for (const line of currentPO.lines)] under
    [receiveAll]. *)
Definition receive_line (env : Surroundings) (date : string) (location : option string)
    (st : ReceiveState) (line : PurchaseOrderItem) : ReceiveState :=
  if negb (truthy (line_productId line)) then st
  else
    let pid := or_empty (line_productId line) in
    let ordered := parseLineQuantity (line_quantity line) in
    let alreadyReceived := default 0 (receivedByProduct st !! pid) in
    let remaining := ordered - alreadyReceived in
    if Qle_bool remaining 0 then st
    else
      let receiveLine :=
        {| purchaseOrderReceiveLineId := Some (randomUUID env (length (newReceiveLines st)));
           productId := Some pid;
           description := None;
           vendorItemCode := None;
           quantity := Some (fixedQuantity remaining None);
           locationId := given location;
           sublocation := None;
           receiveDate := Some date;
           timestamp := None |} in
      {| receivedByProduct := receivedByProduct st;
         newReceiveLines := newReceiveLines st ++ [receiveLine];
         receiveSummary := receiveSummary st ++
           [{| s_productId := pid;
               s_productName := line_name line;
               s_quantity := remaining;
               s_ordered := ordered;
               s_previouslyReceived := alreadyReceived;
               s_totalAfterReceive := ordered;
               s_fullyReceived := true |}];
         errors := errors st |}.

Definition received_row (r : SummaryRow) : ReceivedRow :=
  {| productName := s_productName r;
     quantityReceived := s_quantity r;
     ordered := s_ordered r;
     previouslyReceived := s_previouslyReceived r;
     totalReceived := s_totalAfterReceive r;
     fullyReceived := s_fullyReceived r |}.

Definition flag (b : option bool) : bool :=
  match b with
  | Some x => x
  | None => false
  end.

(** Phase 4 on the fetched order: the new lines, summary and errors. *)
Definition build (env : Surroundings) (args : ReceiveArgs) (currentPO : PurchaseOrder)
    : ReceiveState :=
  let lines := default [] (po_lines currentPO) in
  let existing := default [] (po_receiveLines currentPO) in
  let start :=
    {| receivedByProduct := receivedTotals existing;
       newReceiveLines := [];
       receiveSummary := [];
       errors := [] |} in
  let date := if truthy (r_receiveDate args) then or_empty (r_receiveDate args)
              else nowISO env in
  let location := or_else (r_locationId args) (po_locationId currentPO) in
  if flag (receiveAll args) then
    foldl (receive_line env date location) start lines
  else
    foldl (receive_item env (flag (allowOverReceive args))
             (lineMapOf lines) (productLineMapOf lines) date location)
      start (default [] (r_items args)).

(** The handler. *)
Definition receive_purchase_order (env : Surroundings) (remote : Remote)
    (args : ReceiveArgs) : ending ReceiveReply * list call :=
  let items := default [] (r_items args) in
  if flag (receiveAll args) && (0 <? length items)%nat then (Replied BothModes, [])
  else if negb (flag (receiveAll args)) && (length items =? 0)%nat then (Replied NoMode, [])
  else
    let fetch := [GET (r_purchaseOrderId args)] in
    match get remote (r_purchaseOrderId args) with
    | Raised e => (Escaped e, fetch)
    | Gave None => (Replied ReceiveNotFound, fetch)
    | Gave (Some currentPO) =>
        if (length (default [] (po_lines currentPO)) =? 0)%nat then
          (Replied ReceiveNotFound, fetch)
        else if terminal_status (po_status currentPO) then
          (Replied (CannotReceive (or_empty (po_status currentPO))), fetch)
        else
          let existing := default [] (po_receiveLines currentPO) in
          let st := build env args currentPO in
          if flag (receiveAll args) && (length (newReceiveLines st) =? 0)%nat then
            (Replied AllFullyReceived, fetch)
          else if negb (length (errors st) =? 0)%nat
                  && (length (newReceiveLines st) =? 0)%nat then
            (Replied (ReceiveValidationFailed (errors st)), fetch)
          else
            let strippedExisting := map stripReceiveLineToWritable existing in
            let putBody :=
              {| put_purchaseOrderId := po_purchaseOrderId currentPO;
                 put_vendorId := po_vendorId currentPO;
                 put_receiveLines := strippedExisting ++ newReceiveLines st;
                 put_unstockLines := None;
                 put_timestamp := po_timestamp currentPO |} in
            match put remote putBody with
            | Raised e => (Escaped e, fetch ++ [PUT putBody])
            | Gave result =>
                (Replied (Received
                   (or_else (po_purchaseOrderId result) (po_purchaseOrderId currentPO))
                   (or_else (po_orderNumber result) (po_orderNumber currentPO))
                   (po_status currentPO) (po_status result)
                   (map received_row (receiveSummary st))
                   (match po_receiveLines result with
                    | Some ls =>
                        if (0 <? length ls)%nat then length ls
                        else (length strippedExisting + length (newReceiveLines st))%nat
                    | None => (length strippedExisting + length (newReceiveLines st))%nat
                    end)
                   (if (0 <? length (errors st))%nat then Some (errors st) else None)),
                 fetch ++ [PUT putBody])
            end
    end.

(** The ledger entries of a product, with or without an identity. *)
Definition entriesOfProduct (existing : list PurchaseOrderReceiveLine) (pid : string)
    : list PurchaseOrderReceiveLine :=
  List.filter (fun rl =>
            match productId rl with
            | Some p => String.eqb p pid && negb (String.eqb p "")
            | None => false
            end) existing.



(** What a new ledger entry carries. *)
Definition fresh_entries (env : Surroundings) (new : list PurchaseOrderReceiveLine) : Prop :=
  map purchaseOrderReceiveLineId new
    = map (fun k => Some (randomUUID env k)) (seq 0 (length new)) /\
  Forall (fun rl => truthy (productId rl) = true /\ timestamp rl = None /\
                    exists date, receiveDate rl = Some date) new.

(** Everything of an entry but its quantity and the fields stripped on
    every write. *)
Definition ledger_key (rl : PurchaseOrderReceiveLine)
    : option string * option string * option string * option string
      * option string * option string :=
  (purchaseOrderReceiveLineId rl, productId rl, locationId rl, sublocation rl,
   receiveDate rl, timestamp rl).

(** [!removeSet.has(rl.purchaseOrderReceiveLineId || '')] *)
Definition unmarked (removeSet : list string) (rl : PurchaseOrderReceiveLine) : bool :=
  negb (set_has (or_empty (purchaseOrderReceiveLineId rl)) removeSet).

(** [receiveLineMap.has(id)] *)
Definition on_ledger (existing : list PurchaseOrderReceiveLine) (id : string) : bool :=
  match receiveLineMap existing !! id with
  | Some _ => true
  | None => false
  end.

(** The entry is named by one of the partial modifications. *)
Definition reduced_by (partialMods : list PartialMod) (rl : PurchaseOrderReceiveLine) : Prop :=
  exists m, In m partialMods /\ purchaseOrderReceiveLineId rl = Some (mod_id m).

(** The same call with another [dryRun]. *)
Definition with_dryRun (dry : bool) (args : UnreceiveArgs) : UnreceiveArgs :=
  {| u_purchaseOrderId := u_purchaseOrderId args;
     receiveLineIds := receiveLineIds args;
     u_items := u_items args;
     unreceiveAll := unreceiveAll args;
     dryRun := Some dry |}.

End Engine.

(** *** Sample data

    A reading of [parseFloat] and of [toFixed(4)] on plain decimals such as
    "5.0000" or "-2.5", and an order of ten units of one product with two
    ledger entries, to run the handlers on. *)

Definition digit_of (c : ascii) : option Z :=
  let n := Z.of_N (N_of_ascii c) in
  if (48 <=? n)%Z && (n <=? 57)%Z then Some (n - 48)%Z else None.

Fixpoint read_fraction (s : string) (num : Z) (den : positive) : option Q :=
  match s with
  | EmptyString => Some (Qred (num # den))
  | String c rest =>
      match digit_of c with
      | Some d => read_fraction rest (num * 10 + d)%Z (den * 10)%positive
      | None => None
      end
  end.

Fixpoint read_integer (s : string) (num : Z) : option Q :=
  match s with
  | EmptyString => Some (num # 1)
  | String c rest =>
      if Ascii.eqb c "."%char then read_fraction rest num 1%positive
      else match digit_of c with
           | Some d => read_integer rest (num * 10 + d)%Z
           | None => None
           end
  end.

Definition sample_parseFloat (s : string) : option Q :=
  match s with
  | EmptyString => None
  | String c rest =>
      if Ascii.eqb c "-"%char then option_map Qopp (read_integer rest 0%Z)
      else read_integer s 0%Z
  end.

Definition decimal (n : Z) : string :=
  NilZero.string_of_uint (N.to_uint (Z.to_N n)).

Definition sample_toFixed4 (n : Q) : string :=
  let scaled := Qfloor (n * 10000 + (1 # 2)) in
  let a := Z.abs scaled in
  let frac := (a mod 10000)%Z in
  ((if (scaled <? 0)%Z then "-" else "") ++
   decimal (a / 10000)%Z ++ "." ++
   decimal (frac / 1000)%Z ++ decimal (frac / 100 mod 10)%Z ++
   decimal (frac / 10 mod 10)%Z ++ decimal (frac mod 10)%Z)%string.

Definition entry (id : string) (product : string) (qty : string) (date : string)
    : PurchaseOrderReceiveLine :=
  {| purchaseOrderReceiveLineId := Some id;
     productId := Some product;
     description := Some "as delivered";
     vendorItemCode := None;
     quantity := Some (QObject {| standardQuantity := Some (JStr qty);
                                  uomQuantity := Some (JStr qty);
                                  uom := None;
                                  serialNumbers := None |});
     locationId := Some "warehouse";
     sublocation := None;
     receiveDate := Some date;
     timestamp := Some "0000000000A1" |}.

(** Quantity 5 dated [t1] and quantity 3 dated [t2], with [t2 > t1]. *)
Definition entry_t1 : PurchaseOrderReceiveLine :=
  entry "rl-1" "widget" "5.0000" "2024-01-10T09:00:00Z".

Definition entry_t2 : PurchaseOrderReceiveLine :=
  entry "rl-2" "widget" "3.0000" "2024-02-20T09:00:00Z".

Definition sample_line : PurchaseOrderItem :=
  {| line_purchaseOrderLineId := Some "line-1";
     line_productId := Some "widget";
     line_product := Some {| name := Some "Widget" |};
     line_quantity := Some (QNumber 10) |}.

Definition sample_order : PurchaseOrder :=
  {| po_purchaseOrderId := Some "po-1";
     po_orderNumber := Some "PO-000001";
     po_vendorId := Some "vendor-1";
     po_locationId := Some "warehouse";
     po_status := Some "PartiallyReceived";
     po_lines := Some [sample_line];
     po_receiveLines := Some [entry_t1; entry_t2];
     po_unstockLines := None;
     po_timestamp := Some "0000000000B2" |}.

(** A remote holding [sample_order]; a write is answered with the order
    carrying the ledger that was sent. *)
Definition sample_remote : Remote :=
  {| get := fun _ => Gave (Some sample_order);
     put := fun body =>
       Gave {| po_purchaseOrderId := put_purchaseOrderId body;
               po_orderNumber := po_orderNumber sample_order;
               po_vendorId := put_vendorId body;
               po_locationId := po_locationId sample_order;
               po_status := po_status sample_order;
               po_lines := po_lines sample_order;
               po_receiveLines := Some (put_receiveLines body);
               po_unstockLines := put_unstockLines body;
               po_timestamp := Some "0000000000B3" |} |}.

Definition sample_surroundings : Surroundings :=
  {| randomUUID := fun k => ("uuid-" ++ decimal (Z.of_nat k))%string;
     nowISO := "2024-03-01T12:00:00.000Z" |}.

(** Unreceive [q] units of the product of [sample_order], LIFO. *)
Definition unreceive_quantity (q : Q) : UnreceiveItem :=
  {| u_productId := "widget"; u_quantity := q |}.

Definition unreceive_by_items (items : list UnreceiveItem) (dry : option bool)
    : UnreceiveArgs :=
  {| u_purchaseOrderId := "po-1";
     receiveLineIds := None;
     u_items := Some items;
     unreceiveAll := None;
     dryRun := dry |}.

(** A product with no entry on the ledger of [sample_order]. *)
Definition unreceive_unknown : UnreceiveItem :=
  {| u_productId := "gadget"; u_quantity := 1 |}.

Definition unreceive_by_ids (ids : list string) (dry : option bool) : UnreceiveArgs :=
  {| u_purchaseOrderId := "po-1";
     receiveLineIds := Some ids;
     u_items := None;
     unreceiveAll := None;
     dryRun := dry |}.

(** Receive on [sample_order], by product. *)
Definition receive_quantity (q : Q) : ReceiveItem :=
  {| r_purchaseOrderLineId := None;
     r_productId := Some "widget";
     r_quantity := q;
     r_serialNumbers := None |}.

Definition receive_by_items (items : list ReceiveItem) : ReceiveArgs :=
  {| r_purchaseOrderId := "po-1";
     receiveAll := None;
     r_items := Some items;
     r_locationId := None;
     r_receiveDate := None;
     allowOverReceive := None |}.

(** A remote holding the order [po]; a write is answered with the order
    carrying the ledger that was sent. *)
Definition remote_holding (po : PurchaseOrder) : Remote :=
  {| get := fun _ => Gave (Some po);
     put := fun body =>
       Gave {| po_purchaseOrderId := put_purchaseOrderId body;
               po_orderNumber := po_orderNumber po;
               po_vendorId := put_vendorId body;
               po_locationId := po_locationId po;
               po_status := po_status po;
               po_lines := po_lines po;
               po_receiveLines := Some (put_receiveLines body);
               po_unstockLines := put_unstockLines body;
               po_timestamp := po_timestamp po |} |}.

(** [sample_order] with another status. *)
Definition sample_order_in (status : string) : PurchaseOrder :=
  {| po_purchaseOrderId := po_purchaseOrderId sample_order;
     po_orderNumber := po_orderNumber sample_order;
     po_vendorId := po_vendorId sample_order;
     po_locationId := po_locationId sample_order;
     po_status := Some status;
     po_lines := po_lines sample_order;
     po_receiveLines := po_receiveLines sample_order;
     po_unstockLines := po_unstockLines sample_order;
     po_timestamp := po_timestamp sample_order |}.

Definition unreceive_everything (dry : option bool) : UnreceiveArgs :=
  {| u_purchaseOrderId := "po-1";
     receiveLineIds := None;
     u_items := None;
     unreceiveAll := Some true;
     dryRun := dry |}.


End PurchaseOrders.

(** * The same code on doubles

    Where a property depends on what the arithmetic computes (a token
    count, a sleep, a comparison of quantities), the code is embedded
    once more on IEEE 754 binary64, the numbers it runs on.  The data
    types, the lookups and the sort of the modules above are shared. *)

(** ** JavaScript numbers as doubles *)

Module Double.

Import PrimFloat SpecFloat FloatOps.

(** The double of an integer: exact below [2^53], which covers
    [Date.now()], the differences of two clock readings and array
    lengths. *)
Definition of_Z (z : Z) : float :=
  SF2Prim (binary_normalize prec emax z 0 false).

(** [x || 0]: [NaN] and both zeros are falsy. *)
Definition or_zero (x : float) : float :=
  if is_nan x || is_zero x then zero else x.

(** [Math.min(a, b)]: [NaN] if either is, and [-0] below [+0]. *)
Definition min (a b : float) : float :=
  if is_nan a then a
  else if is_nan b then b
  else if (a <? b)%float then a
  else if (b <? a)%float then b
  else if get_sign a then a else b.

(** [Math.ceil(x)]: [NaN], the infinities and the zeros are returned as
    they are, and so is a double whose exponent leaves no fraction; a
    negative number above [-1] gives [-0]. *)
Definition ceil (x : float) : float :=
  match Prim2SF x with
  | S754_finite s m e =>
      if (0 <=? e)%Z then x
      else
        let d := (2 ^ (- e))%Z in
        if s then
          let n := (Z.pos m / d)%Z in
          if (n =? 0)%Z then neg_zero else (- of_Z n)%float
        else of_Z ((Z.pos m + d - 1) / d)
  | _ => x
  end.

(** The rational number a finite double stands for. *)
Definition value (x : float) : Q :=
  match Prim2SF x with
  | S754_finite s m e =>
      let v := if (0 <=? e)%Z then inject_Z (Z.pos m * 2 ^ e)
               else Z.pos m # Z.to_pos (2 ^ (- e)) in
      if s then - v else v
  | _ => 0
  end.

End Double.

(** ** The token bucket on doubles ([class RateLimiter]) *)

Module RateLimiter64.

Import PrimFloat.

Record t := Build {
  tokens : float;
  lastRefill : Z;
  maxTokens : float;
  refillRate : float  (* tokens per ms *)
}.

(** [constructor(requestsPerMinute)], with [now] the value of [Date.now()]. *)
Definition new (requestsPerMinute : float) (now : Z) : t :=
  {| maxTokens := requestsPerMinute;
     tokens := requestsPerMinute;
     lastRefill := now;
     refillRate := (requestsPerMinute / 60000)%float |}.

(** [refill()], reading the clock at [now]. *)
Definition refill (now : Z) (rl : t) : t :=
  let elapsed := Double.of_Z (now - lastRefill rl) in
  {| tokens := Double.min (maxTokens rl) (tokens rl + elapsed * refillRate rl)%float;
     lastRefill := now;
     maxTokens := maxTokens rl;
     refillRate := refillRate rl |}.

(** [this.tokens -= 1] *)
Definition deduct (rl : t) : t :=
  {| tokens := (tokens rl - 1)%float;
     lastRefill := lastRefill rl;
     maxTokens := maxTokens rl;
     refillRate := refillRate rl |}.

(** The two pieces of [acquire()], before and after its
    [await this.sleep(waitTime)]; [waitTime] is the number handed to
    [setTimeout]. *)
Inductive started :=
| Finished (rl : t)
| Suspended (waitTime : float) (rl : t).

Definition acquire_start (now : Z) (rl : t) : started :=
  let rl1 := refill now rl in
  if (tokens rl1 <? 1)%float then
    Suspended (Double.ceil ((1 - tokens rl1) / refillRate rl1)%float) rl1
  else
    Finished (deduct rl1).

Definition acquire_resume (now : Z) (rl : t) : t :=
  deduct (refill now rl).

(** One [acquire()] with nothing else running during its sleep. *)
Definition acquire (now woke : Z) (rl : t) : t * option float :=
  match acquire_start now rl with
  | Finished rl' => (rl', None)
  | Suspended w rl1 => (acquire_resume woke rl1, Some w)
  end.

(** Several in-flight calls on one limiter. *)
Inductive event :=
| Call (now : Z)      (* a caller enters [acquire()] *)
| Wake (now : Z).     (* a sleeping caller's timer fires *)

Definition step (ev : event) (rl : t) : t * option float :=
  match ev with
  | Call now =>
      match acquire_start now rl with
      | Finished rl' => (rl', None)
      | Suspended w rl1 => (rl1, Some w)
      end
  | Wake now => (acquire_resume now rl, None)
  end.

Fixpoint run (evs : list event) (rl : t) : t * list float :=
  match evs with
  | [] => (rl, [])
  | ev :: rest =>
      let '(rl1, w) := step ev rl in
      let '(rl2, ws) := run rest rl1 in
      (rl2, match w with Some x => x :: ws | None => ws end)
  end.

(** The algorithm in the words of the specification, each operation being
    the one on doubles: tokens accumulate at [rate/60000] per millisecond
    up to [rate]. *)
Definition spec_refill (rate tok : float) (elapsed : Z) : float :=
  Double.min rate (tok + Double.of_Z elapsed * (rate / 60000))%float.

(** Refill for [elapsed1]; with fewer than one token wait
    [ceil((1 - tokens)/refillRate)] and refill again for [elapsed2]; then
    take one token. *)
Definition spec_acquire (rate tok : float) (elapsed1 elapsed2 : Z) : float * option float :=
  let t1 := spec_refill rate tok elapsed1 in
  if (t1 <? 1)%float then
    ((spec_refill rate t1 elapsed2 - 1)%float,
     Some (Double.ceil ((1 - t1) / (rate / 60000))%float))
  else
    ((t1 - 1)%float, None).

End RateLimiter64.

(** ** The request executor with every way an attempt can fail *)

Module FullClient.

Import Client.

(** An exception raised by the platform: a [TypeError], or an error of
    another class with its [name]. *)
Inductive exception :=
| TypeErrorOf (message : string)
| ErrorOf (name message : string).

(** The same exception as a [catch] clause sees it. *)
Definition raised (x : exception) : JsError :=
  match x with
  | TypeErrorOf m => TypeError m
  | ErrorOf n m => OtherError n m
  end.

(** What [await response.json()] gives: the decoded body, or the
    exception it throws (a [SyntaxError] on a body that is not JSON, a
    [TypeError] when the body cannot be read to its end). *)
Inductive body_read :=
| Parsed (v : string)
| Unreadable (x : exception).

(** What one attempt meets.  Between the token and the fetch the request
    is prepared, and that can throw: [new URL] on a base URL that is not
    one and [JSON.stringify] on a filter or a body that cannot be
    serialised raise a [TypeError].  The fetch then rejects (a [TypeError]
    when the network fails, an [AbortError] when the timeout aborts it) or
    resolves with a response. *)
Inductive met :=
| Unprepared (x : exception)
| Unfetched (x : exception)
| Answered (status : Z) (body : body_read).

(** [response.ok] *)
Definition ok (status : Z) : bool :=
  (200 <=? status)%Z && (status <=? 299)%Z.

(** [executeRequest] *)
Definition executeRequest (w : met) : outcome * list event :=
  match w with
  | Unprepared x => (Threw (raised x), [Acquire])
  | Unfetched x =>
      (if String.eqb (error_name (raised x)) "AbortError"
       then Threw (InflowApiError 408 None)
       else Threw (raised x),
       [Acquire; Fetch])
  | Answered status body =>
      (if negb (ok status) then
         Threw (InflowApiError status
                  (match body with Parsed v => Some v | Unreadable _ => None end))
       else if (status =? 204)%Z then Returned "{}"
       else match body with
            | Parsed v => Returned v
            | Unreadable x => Threw (raised x)
            end,
       [Acquire; Fetch])
  end.

(** The retry loop of [request], as in [Client.request_from]. *)
Fixpoint request_from (cfg : InflowConfig) (remote : Z -> met)
    (n : nat) (attempt : Z) : outcome * list event :=
  match n with
  | O => (Threw (OtherError "Error" "Unexpected retry loop exit"), [])
  | S n' =>
      let '(r, tr) := executeRequest (remote attempt) in
      match r with
      | Returned v => (Returned v, tr)
      | Threw error =>
          let isLastAttempt := (attempt =? maxRetries cfg)%Z in
          if isLastAttempt || negb (isRetryableError error) then (Threw error, tr)
          else
            let delayMs := (retryDelayMs cfg * 2 ^ attempt)%Z in
            let '(r', tr') := request_from cfg remote n' (attempt + 1)%Z in
            (r', tr ++ Delay delayMs :: tr')
      end
  end.

Definition request (cfg : InflowConfig) (remote : Z -> met) : outcome * list event :=
  request_from cfg remote (Z.to_nat (maxRetries cfg + 1)) 0%Z.

(** The error one attempt raises, if it raises. *)
Definition failure_of (w : met) : option JsError :=
  match fst (executeRequest w) with
  | Threw e => Some e
  | Returned _ => None
  end.

(** The fetch outcomes of [Client] among all that an attempt can meet. *)
Definition of_fetched (o : fetched) : met :=
  match o with
  | Rejected (NetworkFailure m) => Unfetched (TypeErrorOf m)
  | Rejected (Exception n m) => Unfetched (ErrorOf n m)
  | Resolved r =>
      Answered (status r)
        (match json r with
         | Some v => Parsed v
         | None => Unreadable (ErrorOf "SyntaxError" "invalid JSON")
         end)
  end.

(** The retry policy in the words of the specification: retryable iff an
    HTTP response with status >= 500, an HTTP 429, or a transport-level
    failure with no response received. *)
Definition spec_retryable (w : met) : bool :=
  match w with
  | Answered status _ => (500 <=? status)%Z || (status =? 429)%Z
  | Unfetched _ => true
  | Unprepared _ => false
  end.

Definition is_TypeError (x : exception) : bool :=
  match x with
  | TypeErrorOf _ => true
  | ErrorOf _ _ => false
  end.

(** The policy as the code has it: a response that is not [ok] is retried
    on 5xx and 429; an exception is retried when it is a [TypeError], be
    it thrown by the fetch, before it, or while the body of a successful
    response is read; a fetch that timed out is not retried. *)
Definition retried (w : met) : bool :=
  match w with
  | Unprepared x => is_TypeError x
  | Unfetched x => is_TypeError x
  | Answered status body =>
      if negb (ok status) then (500 <=? status)%Z || (status =? 429)%Z
      else negb (status =? 204)%Z &&
           match body with
           | Parsed _ => false
           | Unreadable x => is_TypeError x
           end
  end.

(** Sample remotes: every fetch times out; a 200 whose body breaks off
    while it is read; a base URL that is not a URL; HTTP 400. *)
Definition timing_out : Z -> met :=
  fun _ => Unfetched (ErrorOf "AbortError" "This operation was aborted").

Definition body_cut_off : Z -> met :=
  fun _ => Answered 200 (Unreadable (TypeErrorOf "terminated")).

Definition invalid_url : Z -> met :=
  fun _ => Unprepared (TypeErrorOf "Invalid URL").

Definition bad_request : Z -> met :=
  fun _ => Answered 400 (Parsed "{}").

End FullClient.

(** ** Purchase orders on doubles ([tools/purchase-orders.ts]) *)

Module PurchaseOrders64.

Import PrimFloat.
Import PurchaseOrders.

Section Engine.

(** The double a number of a JSON document is read as. *)
Variable readNumber : Q -> float.
(** [parseFloat] *)
Variable parseFloat : string -> float.
(** [n.toFixed(4)] *)
Variable toFixed4 : float -> string.

(** A number or a string, as a number: [typeof v === 'string' ?
    parseFloat(v) || 0 : v]. *)
Definition number_of (v : NumOrString) : float :=
  match v with
  | JStr s => Double.or_zero (parseFloat s)
  | JNum n => readNumber n
  end.

(** [parseLineQuantity(qty)] *)
Definition parseLineQuantity (qty : option Quantity) : float :=
  match qty with
  | None => 0
  | Some (QNumber n) => readNumber n
  | Some (QString s) => Double.or_zero (parseFloat s)
  | Some (QObject o) =>
      match standardQuantity o with
      | Some v => number_of v
      | None => match uomQuantity o with
                | Some v => number_of v
                | None => 0
                end
      end
  end.

(** [{ standardQuantity: n.toFixed(4), uomQuantity: n.toFixed(4) }], with
    the serial numbers when [receive] passes some. *)
Definition fixedQuantity (n : float) (serials : option (list string)) : Quantity :=
  QObject {| standardQuantity := Some (JStr (toFixed4 n));
             uomQuantity := Some (JStr (toFixed4 n));
             uom := None;
             serialNumbers := serials |}.

(** *** [unreceive_purchase_order]: the LIFO items *)

Record UnreceiveItem := {
  u_productId : string;
  u_quantity : float
}.

(** An element of [partialMods]. *)
Record PartialMod := {
  mod_id : string;
  newQty : float;
  oldQty : float
}.

(** The validation messages of the items, with the values they print. *)
Inductive UnreceiveError :=
| NoReceiveLinesFor (product : string)
| MoreThanReceived (product : string) (requested totalReceived : float).

(** The consumption loop over the sorted lines of one product. *)
Fixpoint lifo_walk (sorted : list PurchaseOrderReceiveLine) (remaining : float)
    (removeSet : list string) (partialMods : list PartialMod)
    : list string * list PartialMod :=
  match sorted with
  | [] => (removeSet, partialMods)
  | rl :: rest =>
      if (remaining <=? 0)%float then (removeSet, partialMods)
      else
        let lineQty := parseLineQuantity (quantity rl) in
        let rlId := or_empty (purchaseOrderReceiveLineId rl) in
        if (lineQty <=? remaining)%float then
          lifo_walk rest (remaining - lineQty)%float (set_add rlId removeSet) partialMods
        else
          let newQty := (lineQty - remaining)%float in
          lifo_walk rest 0%float removeSet
            (partialMods ++ [{| mod_id := rlId; newQty := newQty; oldQty := lineQty |}])
  end.

(** The same walk in the words of the specification: an entry whose
    quantity is at most the remainder is removed and subtracted; the first
    entry whose quantity exceeds the remainder is reduced to
    [entryQuantity - remainder], and the walk stops there. *)
Fixpoint spec_walk (sorted : list PurchaseOrderReceiveLine) (remaining : float)
    (removeSet : list string) (partialMods : list PartialMod)
    : list string * list PartialMod :=
  match sorted with
  | [] => (removeSet, partialMods)
  | rl :: rest =>
      let lineQty := parseLineQuantity (quantity rl) in
      let rlId := or_empty (purchaseOrderReceiveLineId rl) in
      if (lineQty <=? remaining)%float then
        spec_walk rest (remaining - lineQty)%float (set_add rlId removeSet) partialMods
      else
        (removeSet,
         partialMods ++ [{| mod_id := rlId;
                            newQty := (lineQty - remaining)%float;
                            oldQty := lineQty |}])
  end.

(** The walk as a relation, with the stop at an exhausted remainder spelled
    out: nothing is marked once the remainder is no longer positive.  The
    comparisons and the subtraction are those of the doubles. *)
Inductive consumes : list PurchaseOrderReceiveLine -> float ->
    list string * list PartialMod -> list string * list PartialMod -> Prop :=
| consumes_end (remaining : float) (st : list string * list PartialMod) :
    consumes [] remaining st st
| consumes_nothing_left (sorted : list PurchaseOrderReceiveLine) (remaining : float)
    (st : list string * list PartialMod) :
    (remaining <=? 0)%float = true ->
    consumes sorted remaining st st
| consumes_whole (rl : PurchaseOrderReceiveLine) (rest : list PurchaseOrderReceiveLine)
    (remaining : float) (removeSet : list string) (partialMods : list PartialMod)
    (st : list string * list PartialMod) :
    (remaining <=? 0)%float = false ->
    (parseLineQuantity (quantity rl) <=? remaining)%float = true ->
    consumes rest (remaining - parseLineQuantity (quantity rl))%float
      (set_add (or_empty (purchaseOrderReceiveLineId rl)) removeSet, partialMods) st ->
    consumes (rl :: rest) remaining (removeSet, partialMods) st
| consumes_part (rl : PurchaseOrderReceiveLine) (rest : list PurchaseOrderReceiveLine)
    (remaining : float) (removeSet : list string) (partialMods : list PartialMod) :
    (remaining <=? 0)%float = false ->
    (parseLineQuantity (quantity rl) <=? remaining)%float = false ->
    consumes (rl :: rest) remaining (removeSet, partialMods)
      (removeSet,
       partialMods ++ [{| mod_id := or_empty (purchaseOrderReceiveLineId rl);
                          newQty := (parseLineQuantity (quantity rl) - remaining)%float;
                          oldQty := parseLineQuantity (quantity rl) |}]).

(** [productLines.reduce((sum, rl) => sum + parseLineQuantity(rl.quantity), 0)] *)
Definition totalReceivedOf (productLines : list PurchaseOrderReceiveLine) : float :=
  foldl (fun sum rl => (sum + parseLineQuantity (quantity rl))%float) 0%float productLines.

Definition marking : Type := list string * list PartialMod * list UnreceiveError.

(** One iteration of [for (const item of items)]. *)
Definition unreceive_item (existing : list PurchaseOrderReceiveLine)
    (names : gmap string string) (st : marking) (item : UnreceiveItem) : marking :=
  let '(removeSet, partialMods, errors) := st in
  let productLines := productLinesOf existing (u_productId item) in
  if (length productLines =? 0)%nat then
    (removeSet, partialMods,
     errors ++ [NoReceiveLinesFor (product_label names (u_productId item))])
  else
    let totalReceived := totalReceivedOf productLines in
    if (totalReceived <? u_quantity item)%float then
      (removeSet, partialMods,
       errors ++ [MoreThanReceived (product_label names (u_productId item))
                    (u_quantity item) totalReceived])
    else
      let sorted := sort lifo_compare productLines in
      let '(removeSet', partialMods') :=
        lifo_walk sorted (u_quantity item) removeSet partialMods in
      (removeSet', partialMods', errors).

(** [remainingLines.find(rl => rl.purchaseOrderReceiveLineId === mod.id)]
    and the assignment to its [quantity]. *)
Fixpoint apply_mod (m : PartialMod) (lines : list PurchaseOrderReceiveLine)
    : list PurchaseOrderReceiveLine :=
  match lines with
  | [] => []
  | rl :: rest =>
      if match purchaseOrderReceiveLineId rl with
         | Some i => String.eqb i (mod_id m)
         | None => false
         end
      then
        {| purchaseOrderReceiveLineId := purchaseOrderReceiveLineId rl;
           productId := productId rl;
           description := description rl;
           vendorItemCode := vendorItemCode rl;
           quantity := Some (fixedQuantity (newQty m) None);
           locationId := locationId rl;
           sublocation := sublocation rl;
           receiveDate := receiveDate rl;
           timestamp := timestamp rl |} :: rest
      else rl :: apply_mod m rest
  end.

(** The retained ledger: lines not marked, stripped, with the partial
    reductions applied. *)
Definition remainingLines (existing : list PurchaseOrderReceiveLine)
    (removeSet : list string) (partialMods : list PartialMod)
    : list PurchaseOrderReceiveLine :=
  foldl (fun lines m => apply_mod m lines)
    (map stripReceiveLineToWritable
       (List.filter (fun rl => negb (set_has (or_empty (purchaseOrderReceiveLineId rl)) removeSet))
          existing))
    partialMods.

(** *** [receive_purchase_order] *)

Record ReceiveItem := {
  r_purchaseOrderLineId : option string;
  r_productId : option string;
  r_quantity : float;
  r_serialNumbers : option (list string)
}.

Record ReceiveArgs := {
  r_purchaseOrderId : string;
  receiveAll : option bool;
  r_items : option (list ReceiveItem);
  r_locationId : option string;
  r_receiveDate : option string;
  allowOverReceive : option bool
}.

(** The validation messages of the handler, with the values they print. *)
Inductive ReceiveError :=
| LineIdNotFound (lineId : string)
| ProductNotOnPO (productId : string)
| MissingIdentifier
| UnresolvedProduct (lineId : option string)
| OverReceive (product : string) (wouldReceive ordered alreadyReceived maxMore : float)
| SerialCountMismatch (product : string) (count : nat) (quantity : float).

(** An element of [receiveSummary]. *)
Record SummaryRow := {
  s_productId : string;
  s_productName : option string;
  s_quantity : float;
  s_ordered : float;
  s_previouslyReceived : float;
  s_totalAfterReceive : float;
  s_fullyReceived : bool
}.

(** An element of [received] in the reply. *)
Record ReceivedRow := {
  productName : option string;
  quantityReceived : float;
  ordered : float;
  previouslyReceived : float;
  totalReceived : float;
  fullyReceived : bool
}.

Inductive ReceiveReply :=
| BothModes
| NoMode
| ReceiveNotFound
| CannotReceive (status : string)
| AllFullyReceived
| ReceiveValidationFailed (errors : list ReceiveError)
| Received (purchaseOrderId orderNumber previousStatus newStatus : option string)
    (received : list ReceivedRow) (totalReceiveLinesNow : nat)
    (warnings : option (list ReceiveError)).

(** The mutable locals of phase 4. *)
Record ReceiveState := {
  receivedByProduct : gmap string float;
  newReceiveLines : list PurchaseOrderReceiveLine;
  receiveSummary : list SummaryRow;
  errors : list ReceiveError
}.

(** [receivedByProduct.get(p) || 0] *)
Definition received_so_far (m : gmap string float) (p : string) : float :=
  match m !! p with
  | Some x => Double.or_zero x
  | None => 0
  end.

(** Phase 3: received totals per product from the existing ledger. *)
Definition receivedTotals (existing : list PurchaseOrderReceiveLine) : gmap string float :=
  foldl (fun m rl =>
           if negb (truthy (productId rl)) then m
           else
             let qty := parseLineQuantity (quantity rl) in
             let p := or_empty (productId rl) in
             <[p := (received_so_far m p + qty)%float]> m) ∅ existing.

(** Ordered quantity summed across all order lines for a product. *)
Definition orderedFor (productLineMap : gmap string (list PurchaseOrderItem))
    (pid : string) : float :=
  foldl (fun sum l => (sum + parseLineQuantity (line_quantity l))%float) 0%float
    (default [] (productLineMap !! pid)).

(** The resolution of an item to a product and an order line. *)
Definition resolve (lineMap : gmap string PurchaseOrderItem)
    (productLineMap : gmap string (list PurchaseOrderItem)) (item : ReceiveItem)
    : ReceiveError + (string * PurchaseOrderItem) :=
  let found :=
    if truthy (r_purchaseOrderLineId item) then
      match lineMap !! or_empty (r_purchaseOrderLineId item) with
      | None => inl (LineIdNotFound (or_empty (r_purchaseOrderLineId item)))
      | Some matchedLine => inr (line_productId matchedLine, matchedLine)
      end
    else if truthy (r_productId item) then
      match head (default [] (productLineMap !! or_empty (r_productId item))) with
      | None => inl (ProductNotOnPO (or_empty (r_productId item)))
      | Some matchedLine => inr (r_productId item, matchedLine)
      end
    else inl MissingIdentifier in
  match found with
  | inl e => inl e
  | inr (resolvedProductId, matchedLine) =>
      if negb (truthy resolvedProductId)
      then inl (UnresolvedProduct (r_purchaseOrderLineId item))
      else inr (or_empty resolvedProductId, matchedLine)
  end.

Definition push_error (st : ReceiveState) (e : ReceiveError) : ReceiveState :=
  {| receivedByProduct := receivedByProduct st;
     newReceiveLines := newReceiveLines st;
     receiveSummary := receiveSummary st;
     errors := errors st ++ [e] |}.

(** [item.serialNumbers && item.serialNumbers.length > 0] *)
Definition has_serials (item : ReceiveItem) : bool :=
  match r_serialNumbers item with
  | Some sns => (0 <? length sns)%nat
  | None => false
  end.

(** [item.serialNumbers.length !== item.quantity] *)
Definition serial_count_differs (item : ReceiveItem) : bool :=
  negb (Double.of_Z (Z.of_nat (length (default [] (r_serialNumbers item))))
        =? r_quantity item)%float.

(** The ledger entry built for an accepted item. *)
Definition new_entry (env : Surroundings) (date : string) (location : option string)
    (st : ReceiveState) (pid : string) (qty : Quantity) : PurchaseOrderReceiveLine :=
  {| purchaseOrderReceiveLineId := Some (randomUUID env (length (newReceiveLines st)));
     productId := Some pid;
     description := None;
     vendorItemCode := None;
     quantity := Some qty;
     locationId := given location;
     sublocation := None;
     receiveDate := Some date;
     timestamp := None |}.

(** One iteration of [for (const item of items!)]. *)
Definition receive_item (env : Surroundings) (allow : bool)
    (lineMap : gmap string PurchaseOrderItem)
    (productLineMap : gmap string (list PurchaseOrderItem))
    (date : string) (location : option string)
    (st : ReceiveState) (item : ReceiveItem) : ReceiveState :=
  match resolve lineMap productLineMap item with
  | inl e => push_error st e
  | inr (resolvedProductId, matchedLine) =>
      let alreadyReceived := received_so_far (receivedByProduct st) resolvedProductId in
      let orderedForProduct := orderedFor productLineMap resolvedProductId in
      if negb allow && (orderedForProduct <? alreadyReceived + r_quantity item)%float then
        push_error st
          (OverReceive (line_label matchedLine resolvedProductId)
             (alreadyReceived + r_quantity item)%float orderedForProduct alreadyReceived
             (orderedForProduct - alreadyReceived)%float)
      else if has_serials item && serial_count_differs item then
        push_error st
          (SerialCountMismatch (line_label matchedLine resolvedProductId)
             (length (default [] (r_serialNumbers item))) (r_quantity item))
      else
        let receiveLine :=
          new_entry env date location st resolvedProductId
            (fixedQuantity (r_quantity item)
               (if has_serials item then r_serialNumbers item else None)) in
        {| receivedByProduct :=
             <[resolvedProductId := (alreadyReceived + r_quantity item)%float]>
               (receivedByProduct st);
           newReceiveLines := newReceiveLines st ++ [receiveLine];
           receiveSummary := receiveSummary st ++
             [{| s_productId := resolvedProductId;
                 s_productName := line_name matchedLine;
                 s_quantity := r_quantity item;
                 s_ordered := orderedForProduct;
                 s_previouslyReceived := alreadyReceived;
                 s_totalAfterReceive := (alreadyReceived + r_quantity item)%float;
                 s_fullyReceived :=
                   (orderedForProduct <=? alreadyReceived + r_quantity item)%float |}];
           errors := errors st |}
  end.

(** What an iteration did to the state: it refused the item at the
    over-receive guard. *)
Definition over_receive_rejected (st st' : ReceiveState) : Prop :=
  exists product wouldReceive ordered alreadyReceived maxMore,
    errors st' = errors st ++
      [OverReceive product wouldReceive ordered alreadyReceived maxMore] /\
    newReceiveLines st' = newReceiveLines st /\
    receivedByProduct st' = receivedByProduct st.

(** One iteration of [for (const line of currentPO.lines)] under
    [receiveAll]. *)
Definition receive_line (env : Surroundings) (date : string) (location : option string)
    (st : ReceiveState) (line : PurchaseOrderItem) : ReceiveState :=
  if negb (truthy (line_productId line)) then st
  else
    let pid := or_empty (line_productId line) in
    let ordered := parseLineQuantity (line_quantity line) in
    let alreadyReceived := received_so_far (receivedByProduct st) pid in
    let remaining := (ordered - alreadyReceived)%float in
    if (remaining <=? 0)%float then st
    else
      let receiveLine :=
        new_entry env date location st pid (fixedQuantity remaining None) in
      {| receivedByProduct := receivedByProduct st;
         newReceiveLines := newReceiveLines st ++ [receiveLine];
         receiveSummary := receiveSummary st ++
           [{| s_productId := pid;
               s_productName := line_name line;
               s_quantity := remaining;
               s_ordered := ordered;
               s_previouslyReceived := alreadyReceived;
               s_totalAfterReceive := ordered;
               s_fullyReceived := true |}];
         errors := errors st |}.

Definition received_row (r : SummaryRow) : ReceivedRow :=
  {| productName := s_productName r;
     quantityReceived := s_quantity r;
     ordered := s_ordered r;
     previouslyReceived := s_previouslyReceived r;
     totalReceived := s_totalAfterReceive r;
     fullyReceived := s_fullyReceived r |}.

(** The locals of phase 4 before the first item. *)
Definition start (currentPO : PurchaseOrder) : ReceiveState :=
  {| receivedByProduct := receivedTotals (default [] (po_receiveLines currentPO));
     newReceiveLines := [];
     receiveSummary := [];
     errors := [] |}.

(** [args.receiveDate || new Date().toISOString()] *)
Definition date_of (env : Surroundings) (args : ReceiveArgs) : string :=
  if truthy (r_receiveDate args) then or_empty (r_receiveDate args) else nowISO env.

(** [args.locationId || currentPO.locationId] *)
Definition location_of (args : ReceiveArgs) (currentPO : PurchaseOrder) : option string :=
  or_else (r_locationId args) (po_locationId currentPO).

(** The loop body of the explicit items on the fetched order. *)
Definition item_step (env : Surroundings) (args : ReceiveArgs) (currentPO : PurchaseOrder)
    : ReceiveState -> ReceiveItem -> ReceiveState :=
  receive_item env (flag (allowOverReceive args))
    (lineMapOf (default [] (po_lines currentPO)))
    (productLineMapOf (default [] (po_lines currentPO)))
    (date_of env args) (location_of args currentPO).

(** Phase 4 on the fetched order: the new lines, summary and errors. *)
Definition build (env : Surroundings) (args : ReceiveArgs) (currentPO : PurchaseOrder)
    : ReceiveState :=
  if flag (receiveAll args) then
    foldl (receive_line env (date_of env args) (location_of args currentPO))
      (start currentPO) (default [] (po_lines currentPO))
  else
    foldl (item_step env args currentPO) (start currentPO) (default [] (r_items args)).

(** The handler. *)
Definition receive_purchase_order (env : Surroundings) (remote : Remote)
    (args : ReceiveArgs) : ending ReceiveReply * list call :=
  let items := default [] (r_items args) in
  if flag (receiveAll args) && (0 <? length items)%nat then (Replied BothModes, [])
  else if negb (flag (receiveAll args)) && (length items =? 0)%nat then (Replied NoMode, [])
  else
    let fetch := [GET (r_purchaseOrderId args)] in
    match get remote (r_purchaseOrderId args) with
    | Raised e => (Escaped e, fetch)
    | Gave None => (Replied ReceiveNotFound, fetch)
    | Gave (Some currentPO) =>
        if (length (default [] (po_lines currentPO)) =? 0)%nat then
          (Replied ReceiveNotFound, fetch)
        else if terminal_status (po_status currentPO) then
          (Replied (CannotReceive (or_empty (po_status currentPO))), fetch)
        else
          let existing := default [] (po_receiveLines currentPO) in
          let st := build env args currentPO in
          if flag (receiveAll args) && (length (newReceiveLines st) =? 0)%nat then
            (Replied AllFullyReceived, fetch)
          else if negb (length (errors st) =? 0)%nat
                  && (length (newReceiveLines st) =? 0)%nat then
            (Replied (ReceiveValidationFailed (errors st)), fetch)
          else
            let strippedExisting := map stripReceiveLineToWritable existing in
            let putBody :=
              {| put_purchaseOrderId := po_purchaseOrderId currentPO;
                 put_vendorId := po_vendorId currentPO;
                 put_receiveLines := strippedExisting ++ newReceiveLines st;
                 put_unstockLines := None;
                 put_timestamp := po_timestamp currentPO |} in
            match put remote putBody with
            | Raised e => (Escaped e, fetch ++ [PUT putBody])
            | Gave result =>
                (Replied (Received
                   (or_else (po_purchaseOrderId result) (po_purchaseOrderId currentPO))
                   (or_else (po_orderNumber result) (po_orderNumber currentPO))
                   (po_status currentPO) (po_status result)
                   (map received_row (receiveSummary st))
                   (match po_receiveLines result with
                    | Some ls =>
                        if (0 <? length ls)%nat then length ls
                        else (length strippedExisting + length (newReceiveLines st))%nat
                    | None => (length strippedExisting + length (newReceiveLines st))%nat
                    end)
                   (if (0 <? length (errors st))%nat then Some (errors st) else None)),
                 fetch ++ [PUT putBody])
            end
    end.

(** What the summary rows say when each accepted item is judged on the
    total its predecessors left: the row starts from the running total of
    its product, adds the quantity, does not end above the quantity
    ordered, and leaves its end as the running total for the rows after
    it. *)
Fixpoint rows_follow (totals : gmap string float) (rows : list SummaryRow) : Prop :=
  match rows with
  | [] => True
  | row :: rest =>
      s_previouslyReceived row = received_so_far totals (s_productId row) /\
      s_totalAfterReceive row = (s_previouslyReceived row + s_quantity row)%float /\
      (s_ordered row <? s_totalAfterReceive row)%float = false /\
      rows_follow (<[s_productId row := s_totalAfterReceive row]> totals) rest
  end.

(** The running totals once the rows are added to the fetched ones. *)
Definition totals_after (totals : gmap string float) (rows : list SummaryRow)
    : gmap string float :=
  foldl (fun m row => <[s_productId row := s_totalAfterReceive row]> m) totals rows.

End Engine.

(** *** Sample data on doubles *)

(** A JSON number with a short decimal expansion, read as the nearest
    double: numerator and denominator are exact doubles and the division
    rounds once. *)
Definition sample_readNumber (q : Q) : float :=
  (Double.of_Z (Qnum q) / Double.of_Z (Z.pos (Qden q)))%float.

Definition sample_parseFloat (s : string) : float :=
  match PurchaseOrders.sample_parseFloat s with
  | Some q => sample_readNumber q
  | None => nan
  end.

(** [toFixed(4)] of a finite double rounds the number it stands for. *)
Definition sample_toFixed4 (x : float) : string :=
  if is_nan x then "NaN"%string
  else if is_infinity x then (if get_sign x then "-Infinity" else "Infinity")%string
  else PurchaseOrders.sample_toFixed4 (Double.value x).

(** Unreceive [q] units of the product of [sample_order], LIFO. *)
Definition unreceive_quantity (q : float) : UnreceiveItem :=
  {| u_productId := "widget"; u_quantity := q |}.

(** Receive on [sample_order], by product. *)
Definition receive_quantity (q : float) : ReceiveItem :=
  {| r_purchaseOrderLineId := None;
     r_productId := Some "widget"%string;
     r_quantity := q;
     r_serialNumbers := None |}.

Definition receive_by_items (items : list ReceiveItem) : ReceiveArgs :=
  {| r_purchaseOrderId := "po-1";
     receiveAll := None;
     r_items := Some items;
     r_locationId := None;
     r_receiveDate := None;
     allowOverReceive := None |}.

(** Ledger entries of six tenths dated [t1] and one tenth dated [t2]. *)
Definition tenths_t1 : PurchaseOrderReceiveLine :=
  entry "rl-1" "widget" "0.6" "2024-01-10T09:00:00Z".

Definition tenths_t2 : PurchaseOrderReceiveLine :=
  entry "rl-2" "widget" "0.1" "2024-02-20T09:00:00Z".

End PurchaseOrders64.

(** * Properties *)

(** ** Comparisons on numbers *)

Lemma Qltb_lt (a b : Q) : Qltb a b = true <-> a < b.
Proof.
  unfold Qltb. rewrite negb_true_iff. split.
  - intros H. destruct (Qlt_le_dec a b) as [Hlt | Hle]; [exact Hlt |].
    apply Qle_bool_iff in Hle. congruence.
  - intros H. destruct (Qle_bool b a) eqn:E; [| reflexivity].
    apply Qle_bool_iff in E. lra.
Qed.

Lemma Qltb_ge (a b : Q) : Qltb a b = false <-> b <= a.
Proof.
  unfold Qltb. rewrite negb_false_iff. apply Qle_bool_iff.
Qed.

Lemma Qle_bool_gt (a b : Q) : Qle_bool a b = false <-> b < a.
Proof.
  split.
  - intros H. destruct (Qlt_le_dec b a) as [Hlt | Hle]; [exact Hlt |].
    apply Qle_bool_iff in Hle. congruence.
  - intros H. destruct (Qle_bool a b) eqn:E; [| reflexivity].
    apply Qle_bool_iff in E. lra.
Qed.

(** ** The token bucket *)

Section RateLimiterFacts.

Import RateLimiter.

(** The configured maximum and rate never change. *)
Lemma step_keeps_configuration (ev : event) (rl : t) :
  maxTokens (fst (step ev rl)) = maxTokens rl /\
  refillRate (fst (step ev rl)) = refillRate rl.
Proof.
  destruct ev as [now | now]; simpl.
  - unfold acquire_start. destruct (Qltb _ 1); simpl; auto.
  - auto.
Qed.

(** A refill never exceeds the maximum. *)
Lemma refill_capped (now : Z) (rl : t) : tokens (refill now rl) <= maxTokens rl.
Proof. simpl. apply Q.le_min_l. Qed.

(** Whatever ran on a limiter before, it still has the maximum and the
    rate its constructor gave it. *)
Lemma run_keeps_configuration (evs : list event) :
  forall rl : t,
    maxTokens (fst (run evs rl)) = maxTokens rl /\
    refillRate (fst (run evs rl)) = refillRate rl.
Proof.
  induction evs as [| ev evs IH]; intros rl; simpl; [auto |].
  pose proof (step_keeps_configuration ev rl) as [Hm Hr].
  destruct (step ev rl) as [rl1 w]. simpl in Hm, Hr.
  specialize (IH rl1). destruct (run evs rl1) as [rl2 ws]. simpl in *.
  destruct IH as [IHm IHr]. split; congruence.
Qed.

(** In exact arithmetic: with nothing else running during its sleep, an
    [acquire] on a limiter of capacity at least one leaves the token count within its bounds,
    provided the sleep lasted as long as was asked. *)
Lemma acquire_alone_keeps_bounds (rl : t) (now woke : Z) :
  1 <= maxTokens rl ->
  0 < refillRate rl ->
  (forall w, snd (acquire now woke rl) = Some w -> (now + w <= woke)%Z) ->
  0 <= tokens (fst (acquire now woke rl)) <= maxTokens rl.
Proof.
  intros Hmax Hrate Hsleep. unfold acquire in *. unfold acquire_start in *.
  destruct (Qltb (tokens (refill now rl)) 1) eqn:E.
  - simpl fst. specialize (Hsleep _ eq_refl).
    apply Qltb_lt in E.
    set (t1 := tokens (refill now rl)) in *.
    assert (Hw : (1 - t1) / refillRate (refill now rl)
                 <= inject_Z (woke - lastRefill (refill now rl))).
    { eapply Qle_trans; [apply Qle_ceiling |].
      rewrite <- Zle_Qle. simpl in *. lia. }
    simpl refillRate in Hw.
    apply (Qmult_le_r _ _ (refillRate rl)) in Hw; [| exact Hrate].
    assert (Heq : (1 - t1) / refillRate rl * refillRate rl == 1 - t1)
      by (field; lra).
    rewrite Heq in Hw. clear Heq.
    unfold acquire_resume, deduct. simpl tokens.
    fold t1. simpl maxTokens.
    simpl lastRefill in Hw.
    destruct (Q.min_spec (maxTokens rl)
                (t1 + inject_Z (woke - now) * refillRate rl)) as [[Hc Hm] | [Hc Hm]];
      set (m := Qmin _ _) in *; clearbody m t1; split; lra.
  - simpl fst. apply Qltb_ge in E. unfold deduct. simpl tokens.
    pose proof (refill_capped now rl) as Hcap. simpl in *. lra.
Qed.

(** C9.  A limiter for the default 60 requests per minute is emptied by 60
    calls; two more callers come while it is empty and sleep side by side.
    Each sleeps the 1000 ms it asked for and the clock never runs
    backwards, yet the second to wake finds no token, as the first took
    the one that had accrued, and deducts one all the same. *)
Theorem acquire_interleaved_overdraws :
  let schedule := replicate 60 (Call 0) ++ [Call 0; Call 0; Wake 1000; Wake 1000] in
  let final := run schedule (new 60 0) in
  snd final = [1000; 1000]%Z /\
  tokens (fst final) == -1 /\
  tokens (fst final) < 0.
Proof.
  vm_compute. repeat split; reflexivity.
Qed.

End RateLimiterFacts.

(** ** The token bucket on doubles *)

Section RateLimiter64Facts.

Import PrimFloat RateLimiter64.

(** The configured maximum and rate never change. *)
Lemma limiter_step_keeps_configuration (ev : event) (rl : t) :
  maxTokens (fst (step ev rl)) = maxTokens rl /\
  refillRate (fst (step ev rl)) = refillRate rl.
Proof.
  destruct ev as [now | now]; simpl.
  - unfold acquire_start. destruct (tokens (refill now rl) <? 1)%float; simpl; auto.
  - auto.
Qed.

Lemma limiter_run_keeps_configuration (evs : list event) :
  forall rl : t,
    maxTokens (fst (run evs rl)) = maxTokens rl /\
    refillRate (fst (run evs rl)) = refillRate rl.
Proof.
  induction evs as [| ev evs IH]; intros rl; simpl; [auto |].
  pose proof (limiter_step_keeps_configuration ev rl) as [Hm Hr].
  destruct (step ev rl) as [rl1 w]. simpl in Hm, Hr.
  specialize (IH rl1). destruct (run evs rl1) as [rl2 ws]. simpl in *.
  destruct IH as [IHm IHr]. split; congruence.
Qed.

(** C7.  On a limiter built for [rate], whatever ran on it before, a call
    of [acquire] refills by the elapsed time at [rate/60000] per
    millisecond, capped at the maximum; with fewer than one token it asks
    for a sleep of [ceil((1 - tokens)/refillRate)] milliseconds, and once
    the sleep is over, whatever ran on the limiter meanwhile, it refills
    again; it then deducts exactly one token.  Every operation is the one
    on doubles. *)
Theorem acquire_refills_waits_deducts (rate : float) (built : Z) (before : list event)
    (now woke : Z) :
  let rl := fst (run before (new rate built)) in
  let t1 := spec_refill rate (tokens rl) (now - lastRefill rl) in
  (* the call in one piece, nothing else running during its sleep *)
  (tokens (fst (acquire now woke rl)), snd (acquire now woke rl))
    = spec_acquire rate (tokens rl) (now - lastRefill rl) (woke - now) /\
  (* up to the sleep *)
  acquire_start now rl
    = (if (t1 <? 1)%float
       then Suspended (Double.ceil ((1 - t1) / (rate / 60000))%float)
              {| tokens := t1; lastRefill := now;
                 maxTokens := rate; refillRate := (rate / 60000)%float |}
       else Finished {| tokens := (t1 - 1)%float; lastRefill := now;
                        maxTokens := rate; refillRate := (rate / 60000)%float |}) /\
  (* after the sleep, on the limiter as the others left it *)
  (forall during : list event,
     let rl' := fst (run during (refill now rl)) in
     acquire_resume woke rl'
     = {| tokens := (spec_refill rate (tokens rl') (woke - lastRefill rl') - 1)%float;
          lastRefill := woke;
          maxTokens := rate; refillRate := (rate / 60000)%float |}).
Proof.
  intros rl t1.
  pose proof (limiter_run_keeps_configuration before (new rate built)) as [Hm Hr].
  fold rl in Hm, Hr. simpl in Hm, Hr.
  assert (Hduring : forall during : list event,
            maxTokens (fst (run during (refill now rl))) = rate /\
            refillRate (fst (run during (refill now rl))) = (rate / 60000)%float).
  { intros during.
    pose proof (limiter_run_keeps_configuration during (refill now rl)) as [Hm' Hr'].
    simpl in Hm', Hr'. rewrite Hm in Hm'. rewrite Hr in Hr'. auto. }
  unfold t1. clear t1. clearbody rl.
  destruct rl as [tok last mx rr]. simpl in Hm, Hr. subst mx rr.
  split; [| split].
  - unfold acquire, acquire_start, spec_acquire, spec_refill. simpl.
    destruct (Double.min rate (tok + Double.of_Z (now - last) * (rate / 60000)) <? 1)%float;
      reflexivity.
  - unfold acquire_start, spec_refill. simpl.
    destruct (Double.min rate (tok + Double.of_Z (now - last) * (rate / 60000)) <? 1)%float;
      reflexivity.
  - intros during. destruct (Hduring during) as [Hm' Hr'].
    unfold acquire_resume, deduct, spec_refill.
    unfold refill at 1. simpl. rewrite Hm', Hr'. reflexivity.
Qed.

End RateLimiter64Facts.

Section RateLimiter64Runs.

Import PrimFloat.

(** C7 on an emptied limiter for 60 requests per minute, called again
    after 289 ms: the doubles give [0.289 - epsilon] tokens and a quotient
    just above 711, so the sleep asked for is 712 ms; and on a limiter for
    0 requests per minute the sleep asked for is infinite. *)
Lemma acquire_refills_waits_deducts_witness :
  let emptied := fst (RateLimiter64.run (replicate 60 (RateLimiter64.Call 0))
                        (RateLimiter64.new 60 0)) in
  snd (RateLimiter64.acquire 289 1001 emptied) = Some 712%float /\
  snd (RateLimiter64.acquire 0 0 (RateLimiter64.new 0 0)) = Some PrimFloat.infinity.
Proof.
  intros emptied.
  destruct (acquire_refills_waits_deducts 60 0 (replicate 60 (RateLimiter64.Call 0))
              289 1001) as [Hcall _].
  destruct (acquire_refills_waits_deducts 0 0 [] 0 0) as [Hnone _].
  apply (f_equal snd) in Hcall. apply (f_equal snd) in Hnone.
  cbv zeta in Hcall, Hnone. cbn [snd] in Hcall, Hnone.
  split.
  - unfold emptied. rewrite Hcall. vm_compute. reflexivity.
  - cbn [RateLimiter64.run fst] in Hnone. rewrite Hnone. vm_compute. reflexivity.
Defined.

End RateLimiter64Runs.

(** ** The request executor *)

Section ClientFacts.

Import Client.

Variable cfg : InflowConfig.
Variable remote : Z -> fetched.

(** The loop guard [attempt <= maxRetries] is what the iteration count of
    [request_from] stands for. *)
Lemma iterations_left (attempt : Z) :
  (0 < Z.to_nat (maxRetries cfg + 1 - attempt))%nat <-> (attempt <= maxRetries cfg)%Z.
Proof. lia. Qed.

Lemma executeRequest_trace (o : fetched) : snd (executeRequest o) = [Acquire; Fetch].
Proof. reflexivity. Qed.

Lemma executeRequest_failure (o : fetched) (e : JsError) :
  failure_of o = Some e -> executeRequest o = (Threw e, [Acquire; Fetch]).
Proof.
  unfold failure_of. destruct (executeRequest o) as [r tr] eqn:E.
  pose proof (executeRequest_trace o) as Htr. rewrite E in Htr. simpl in *.
  destruct r; intros H; [discriminate |]. congruence.
Qed.

Lemma request_from_S (n : nat) (attempt : Z) :
  request_from cfg remote (S n) attempt =
  let '(r, tr) := executeRequest (remote attempt) in
  match r with
  | Returned v => (Returned v, tr)
  | Threw error =>
      if (attempt =? maxRetries cfg)%Z || negb (isRetryableError error)
      then (Threw error, tr)
      else
        let '(r', tr') := request_from cfg remote n (attempt + 1)%Z in
        (r', tr ++ Delay (retryDelayMs cfg * 2 ^ attempt)%Z :: tr')
  end.
Proof. reflexivity. Qed.




End ClientFacts.



(** ** The request executor: which failures are retried *)

Section FullClientFacts.

Import Client FullClient.

Variable cfg : InflowConfig.
Variable remote : Z -> met.

Lemma full_request_from_S (n : nat) (attempt : Z) :
  request_from cfg remote (S n) attempt =
  let '(r, tr) := executeRequest (remote attempt) in
  match r with
  | Returned v => (Returned v, tr)
  | Threw error =>
      if (attempt =? maxRetries cfg)%Z || negb (isRetryableError error) then (Threw error, tr)
      else
        let '(r', tr') := request_from cfg remote n (attempt + 1)%Z in
        (r', tr ++ Delay (retryDelayMs cfg * 2 ^ attempt)%Z :: tr')
  end.
Proof. reflexivity. Qed.

(** On the outcomes of a fetch that [Client] distinguishes, an attempt
    goes as in [Client.executeRequest]. *)
Lemma executeRequest_of_fetched (o : fetched) :
  executeRequest (of_fetched o) = Client.executeRequest o.
Proof.
  destruct o as [[m | n m] | r]; simpl; try reflexivity.
  unfold Client.executeRequest, ok, Client.ok. simpl.
  destruct (negb _); [destruct (json r); reflexivity |].
  destruct (status r =? 204)%Z; [reflexivity |].
  destruct (json r); reflexivity.
Qed.

(** An attempt consults the limiter once and fetches at most once. *)
Lemma executeRequest_steps (w : met) :
  acquires (snd (executeRequest w)) = 1%nat /\
  (attempts (snd (executeRequest w)) <= 1)%nat /\
  delays (snd (executeRequest w)) = [].
Proof. destruct w; simpl; repeat split; unfold attempts; simpl; lia. Qed.

(** The error of a failed attempt is retryable exactly in the cases of
    [retried]. *)
Lemma retryable_iff_retried (w : met) (e : JsError) :
  failure_of w = Some e ->
  (isRetryableError e = true <-> retried w = true).
Proof.
  unfold failure_of. destruct w as [x | x | status body]; simpl.
  - intros [= <-]. destruct x; simpl; tauto.
  - destruct x as [m | n m]; simpl.
    + intros [= <-]. simpl. tauto.
    + destruct (String.eqb n "AbortError"); intros [= <-]; simpl; split; discriminate.
  - destruct (negb (ok status)) eqn:Hok.
    + intros [= <-]. simpl. tauto.
    + destruct (status =? 204)%Z; [discriminate |].
      destruct body as [v | x]; [discriminate |].
      intros [= <-]. destruct x; simpl; tauto.
Qed.

(** C4, as the code has it.  The error a failed attempt raises is
    retryable exactly when it comes from a response with status 500 or
    more or 429, or is a [TypeError], whether the fetch raised it (no
    response received), the preparation of the request did, or the
    reading of the body of a successful response; any other failure,
    among them every other 4xx and a fetch that timed out (raised as
    status 408), ends the request after that one attempt, with no retry
    and no backoff delay, while a retryable one is followed, when a retry
    is allowed, by the delay [retryDelayMs] and a second attempt. *)
Theorem terminal_failure_is_raised_at_once (e : JsError) :
  (0 <= maxRetries cfg)%Z ->
  failure_of (remote 0) = Some e ->
  (isRetryableError e = true <-> retried (remote 0) = true) /\
  (retried (remote 0) = false ->
   request cfg remote = (Threw e, snd (executeRequest (remote 0))) /\
   acquires (snd (request cfg remote)) = 1%nat /\
   (attempts (snd (request cfg remote)) <= 1)%nat /\
   delays (snd (request cfg remote)) = []) /\
  (retried (remote 0) = true ->
   (0 < maxRetries cfg)%Z ->
   exists tr,
     snd (request cfg remote)
       = snd (executeRequest (remote 0)) ++ Delay (retryDelayMs cfg)
           :: snd (executeRequest (remote 1)) ++ tr) /\
  (forall status body,
     remote 0 = Answered status body ->
     (400 <= status < 500)%Z -> status <> 429%Z ->
     retried (remote 0) = false /\
     e = InflowApiError status
           (match body with Parsed v => Some v | Unreadable _ => None end)) /\
  (forall message,
     remote 0 = Unfetched (ErrorOf "AbortError" message) ->
     retried (remote 0) = false /\ e = InflowApiError 408 None).
Proof.
  intros Hmax Hfail.
  pose proof (retryable_iff_retried _ _ Hfail) as Hiff.
  assert (Hexec : executeRequest (remote 0) = (Threw e, snd (executeRequest (remote 0)))).
  { unfold failure_of in Hfail. destruct (executeRequest (remote 0)) as [[v | e'] tr];
      simpl in *; congruence. }
  split; [exact Hiff |]. split; [| split; [| split]].
  - intros Hterm.
    assert (Hr : isRetryableError e = false).
    { destruct (isRetryableError e); [| reflexivity].
      destruct Hiff as [Hiff _]. rewrite Hiff in Hterm by reflexivity. discriminate. }
    assert (Heq : request cfg remote = (Threw e, snd (executeRequest (remote 0)))).
    { unfold request.
      replace (Z.to_nat (maxRetries cfg + 1)) with (S (Z.to_nat (maxRetries cfg))) by lia.
      rewrite full_request_from_S, Hexec, Hr, orb_true_r. reflexivity. }
    rewrite Heq. split; [reflexivity |]. exact (executeRequest_steps (remote 0)).
  - intros Hretry Hmore.
    assert (Hr : isRetryableError e = true) by (apply Hiff; exact Hretry).
    unfold request.
    replace (Z.to_nat (maxRetries cfg + 1)) with (S (S (Z.to_nat (maxRetries cfg - 1))))
      by lia.
    rewrite full_request_from_S, Hexec, Hr.
    assert (Hnl : (0 =? maxRetries cfg)%Z = false) by (apply Z.eqb_neq; lia).
    rewrite Hnl. cbn [orb negb]. cbv iota.
    rewrite full_request_from_S. change (0 + 1)%Z with 1%Z.
    rewrite Z.pow_0_r, Z.mul_1_r.
    destruct (executeRequest (remote 1%Z)) as [[v | e1] tr1] eqn:E1.
    + exists []. cbn [snd]. rewrite app_nil_r. reflexivity.
    + destruct ((1 =? maxRetries cfg)%Z || negb (isRetryableError e1)).
      * exists []. cbn [snd]. rewrite app_nil_r. reflexivity.
      * destruct (request_from cfg remote (Z.to_nat (maxRetries cfg - 1)) (1 + 1)%Z)
          as [r2 tr2].
        exists (Delay (retryDelayMs cfg * 2 ^ 1)%Z :: tr2). reflexivity.
  - intros status body Hw H4 H429. rewrite Hw in *.
    assert (Hok : negb (ok status) = true).
    { unfold ok. apply negb_true_iff. apply andb_false_iff. right. apply Z.leb_gt. lia. }
    unfold failure_of in Hfail. simpl in Hfail. simpl. rewrite Hok in *.
    split; [| congruence].
    apply orb_false_iff. split; [apply Z.leb_gt; lia | apply Z.eqb_neq; exact H429].
  - intros message Hw. rewrite Hw in *.
    unfold failure_of in Hfail. simpl in Hfail. split; [reflexivity | congruence].
Qed.

End FullClientFacts.

(** C4 on HTTP 400, which ends the request after one attempt, and on HTTP
    503, after which the request sleeps [retryDelayMs] and tries again. *)
Lemma terminal_failure_is_raised_at_once_witness :
  let e := Client.InflowApiError 400 (Some "{}"%string) in
  let unavailable := fun _ : Z => FullClient.Answered 503 (FullClient.Parsed "{}") in
  (Client.isRetryableError e = true <-> FullClient.retried (FullClient.bad_request 0) = true) /\
  FullClient.retried (FullClient.bad_request 0) = false /\
  FullClient.request Client.default_config FullClient.bad_request
    = (Client.Threw e, [Client.Acquire; Client.Fetch]) /\
  Client.acquires (snd (FullClient.request Client.default_config FullClient.bad_request))
    = 1%nat /\
  (Client.attempts (snd (FullClient.request Client.default_config FullClient.bad_request))
   <= 1)%nat /\
  Client.delays (snd (FullClient.request Client.default_config FullClient.bad_request)) = [] /\
  (exists tr,
     snd (FullClient.request Client.default_config unavailable)
     = [Client.Acquire; Client.Fetch] ++ Client.Delay 1000
         :: [Client.Acquire; Client.Fetch] ++ tr).
Proof.
  intros e unavailable.
  destruct (terminal_failure_is_raised_at_once
              Client.default_config FullClient.bad_request e)
    as [Hiff [Hterminal [_ [Hstatus _]]]].
  - simpl. lia.
  - reflexivity.
  - destruct (Hstatus 400%Z (FullClient.Parsed "{}") eq_refl) as [Hnot _]; [lia | lia |].
    destruct (Hterminal Hnot) as [Heq [Hacq [Hatt Hdelays]]].
    split; [exact Hiff |]. split; [exact Hnot |]. split; [exact Heq |].
    split; [exact Hacq |]. split; [exact Hatt |]. split; [exact Hdelays |].
    destruct (terminal_failure_is_raised_at_once
                Client.default_config unavailable (Client.InflowApiError 503 (Some "{}"%string)))
      as [_ [_ [Hretry _]]].
    + simpl. lia.
    + reflexivity.
    + apply Hretry; [reflexivity | simpl; lia].
Defined.

(** C4 as the claim words it fails in both directions.  A fetch that
    timed out received no response, which the policy of the claim
    retries: the code raises it as status 408 after the one attempt.  A
    response with status 200 is no failure of the policy's three kinds:
    when reading its body fails with a [TypeError] the code goes through
    all its retries; and so it does when the request cannot even be
    prepared, without a single fetch. *)
Lemma timeout_is_terminal_and_type_errors_are_retried :
  (FullClient.spec_retryable (FullClient.timing_out 0) = true /\
   FullClient.request Client.default_config FullClient.timing_out
     = (Client.Threw (Client.InflowApiError 408 None), [Client.Acquire; Client.Fetch])) /\
  (FullClient.spec_retryable (FullClient.body_cut_off 0) = false /\
   fst (FullClient.request Client.default_config FullClient.body_cut_off)
     = Client.Threw (Client.TypeError "terminated") /\
   Client.attempts (snd (FullClient.request Client.default_config FullClient.body_cut_off))
     = 4%nat /\
   Client.delays (snd (FullClient.request Client.default_config FullClient.body_cut_off))
     = [1000; 2000; 4000]%Z) /\
  (FullClient.spec_retryable (FullClient.invalid_url 0) = false /\
   Client.acquires (snd (FullClient.request Client.default_config FullClient.invalid_url))
     = 4%nat /\
   Client.attempts (snd (FullClient.request Client.default_config FullClient.invalid_url))
     = 0%nat).
Proof.
  vm_compute. repeat split; reflexivity.
Qed.

(** ** Sorting *)

Section SortFacts.

Import PurchaseOrders.

Context {A : Type} (compare : A -> A -> Z).

Lemma sort_insert_permutation (x : A) (l : list A) :
  Permutation (x :: l) (sort_insert compare x l).
Proof.
  induction l as [| y l IH]; simpl; [reflexivity |].
  destruct (0 <? compare x y)%Z; [| reflexivity].
  rewrite perm_swap. apply perm_skip. exact IH.
Qed.

(** The sorted array holds the same elements. *)
Lemma sort_permutation (l : list A) : Permutation l (sort compare l).
Proof.
  induction l as [| x l IH]; simpl; [reflexivity |].
  rewrite <- sort_insert_permutation. apply perm_skip. exact IH.
Qed.

Variable before : A -> A -> Prop.
Hypothesis before_transitive : forall x y z, before x y -> before y z -> before x z.
Hypothesis stays : forall x y, (0 <? compare x y)%Z = false -> before x y.
Hypothesis moves : forall x y, (0 <? compare x y)%Z = true -> before y x.

Lemma sort_insert_sorted (x : A) (l : list A) :
  StronglySorted before l -> StronglySorted before (sort_insert compare x l).
Proof.
  induction 1 as [| y l Hs IH Hall]; simpl.
  - constructor; constructor.
  - destruct (0 <? compare x y)%Z eqn:E.
    + constructor; [exact IH |].
      eapply Permutation_Forall; [apply sort_insert_permutation |].
      constructor; [apply moves; exact E | exact Hall].
    + constructor; [constructor; assumption |].
      constructor; [apply stays; exact E |].
      eapply List.Forall_impl; [| exact Hall].
      intros z Hz. eapply before_transitive; [apply stays; exact E | exact Hz].
Qed.

(** Every element of the sorted array is [before] all that follow it. *)
Lemma sort_sorted (l : list A) : StronglySorted before (sort compare l).
Proof.
  induction l as [| x l IH]; simpl; [constructor |].
  apply sort_insert_sorted. exact IH.
Qed.

End SortFacts.

(** ** The LIFO order *)

Section OrderFacts.

Import PurchaseOrders.

Lemma compare_Lt_later (x y : string) : String.compare x y = Lt -> later y x.
Proof.
  intros H. unfold later. rewrite String.compare_antisym, H. reflexivity.
Qed.

Lemma later_transitive (x y z : string) : later x y -> later y z -> later x z.
Proof.
  unfold later. intros Hxy Hyz.
  assert (Hyx : String.compare y x = Lt)
    by (rewrite String.compare_antisym, Hxy; reflexivity).
  assert (Hzy : String.compare z y = Lt)
    by (rewrite String.compare_antisym, Hyz; reflexivity).
  apply String_as_OT.cmp_lt in Hyx, Hzy.
  pose proof (String_as_OT.lt_trans _ _ _ Hzy Hyx) as Hzx.
  apply String_as_OT.cmp_lt in Hzx. unfold String_as_OT.cmp in Hzx.
  rewrite String.compare_antisym, Hzx. reflexivity.
Qed.

Lemma lifo_order_transitive (a b c : PurchaseOrderReceiveLine) :
  lifo_order a b -> lifo_order b c -> lifo_order a c.
Proof.
  unfold lifo_order.
  intros [H1 | [E1 [H2 | [E2 [H3 | E3]]]]] [G1 | [F1 [G2 | [F2 [G3 | F3]]]]];
    try rewrite E1 in *; try rewrite <- F1 in *;
    try rewrite E2 in *; try rewrite <- F2 in *;
    try rewrite E3 in *; try rewrite <- F3 in *;
    eauto 8 using later_transitive.
Qed.

(** [lifo_compare] leaves [a] in front of [b] only when [a] is not older. *)
Lemma lifo_compare_stays (a b : PurchaseOrderReceiveLine) :
  (0 <? lifo_compare a b)%Z = false -> lifo_order a b.
Proof.
  unfold lifo_compare, lifo_order, str_gt, str_lt.
  destruct (String.compare (or_empty (receiveDate b)) (or_empty (receiveDate a))) eqn:E1;
    [| intros _; left; apply compare_Lt_later; exact E1 | discriminate].
  apply String.compare_eq_iff in E1. right. split; [auto |].
  destruct (String.compare (or_empty (timestamp b)) (or_empty (timestamp a))) eqn:E2;
    [| left; apply compare_Lt_later; exact E2 | discriminate].
  apply String.compare_eq_iff in E2. right. split; [auto |].
  destruct (String.compare (or_empty (purchaseOrderReceiveLineId b))
              (or_empty (purchaseOrderReceiveLineId a))) eqn:E3;
    [| left; apply compare_Lt_later; exact E3 | discriminate].
  apply String.compare_eq_iff in E3. right. auto.
Qed.

(** [lifo_compare] moves [b] in front of [a] only when [b] is newer. *)
Lemma lifo_compare_moves (a b : PurchaseOrderReceiveLine) :
  (0 <? lifo_compare a b)%Z = true -> lifo_order b a.
Proof.
  unfold lifo_compare, lifo_order, str_gt, str_lt, later.
  destruct (String.compare (or_empty (receiveDate b)) (or_empty (receiveDate a))) eqn:E1;
    [| discriminate | intros _; left; reflexivity].
  apply String.compare_eq_iff in E1. right. split; [auto |].
  destruct (String.compare (or_empty (timestamp b)) (or_empty (timestamp a))) eqn:E2;
    [| discriminate | left; reflexivity].
  apply String.compare_eq_iff in E2. right. split; [auto |].
  destruct (String.compare (or_empty (purchaseOrderReceiveLineId b))
              (or_empty (purchaseOrderReceiveLineId a))) eqn:E3;
    [discriminate | discriminate | left; reflexivity].
Qed.

Lemma lifo_sort_sorted (l : list PurchaseOrderReceiveLine) :
  StronglySorted lifo_order (sort lifo_compare l).
Proof.
  apply sort_sorted.
  - exact lifo_order_transitive.
  - exact lifo_compare_stays.
  - exact lifo_compare_moves.
Qed.

End OrderFacts.

(** ** Unreceive: the LIFO walk *)

Section WalkFacts.

Import PurchaseOrders.

Variable parseFloat : string -> option Q.

Local Abbreviation qty rl := (parseLineQuantity parseFloat (quantity rl)).
Local Abbreviation total := (totalReceivedOf parseFloat).
Local Abbreviation walk := (lifo_walk parseFloat).

Lemma lifo_walk_nothing_left (l : list PurchaseOrderReceiveLine) (r : Q)
    (rs : list string) (pm : list PartialMod) :
  r <= 0 -> walk l r rs pm = (rs, pm).
Proof.
  intros Hr. apply Qle_bool_iff in Hr.
  destruct l; simpl; [reflexivity |]. rewrite Hr. reflexivity.
Qed.

Lemma total_from (l : list PurchaseOrderReceiveLine) (a : Q) :
  foldl (fun sum rl => sum + qty rl) a l == a + total l.
Proof.
  unfold totalReceivedOf. revert a.
  induction l as [| rl l IH]; intros a; simpl; [lra |].
  rewrite (IH (a + qty rl)), (IH (0 + qty rl)). lra.
Qed.

Lemma total_cons (rl : PurchaseOrderReceiveLine) (l : list PurchaseOrderReceiveLine) :
  total (rl :: l) == qty rl + total l.
Proof.
  unfold totalReceivedOf at 1. simpl. rewrite total_from. lra.
Qed.

(** The total does not depend on the order of the lines. *)
Lemma total_permutation (l l' : list PurchaseOrderReceiveLine) :
  Permutation l l' -> total l == total l'.
Proof.
  induction 1 as [| x l l' _ IH | x y l | l l' l'' _ IH1 _ IH2].
  - reflexivity.
  - rewrite !total_cons, IH. reflexivity.
  - rewrite !total_cons. lra.
  - rewrite IH1. exact IH2.
Qed.

(** What a walk marks: the first [k] lines whole and at most one partial
    reduction, which together take off exactly the requested quantity. *)
Lemma lifo_walk_conserves (l : list PurchaseOrderReceiveLine) :
  forall (r : Q) (rs : list string) (pm : list PartialMod),
    0 <= r -> r <= total l ->
    exists (k : nat) (mods : list PartialMod),
      walk l r rs pm = (add_all rs (take k l), pm ++ mods) /\
      (length mods <= 1)%nat /\
      total (take k l) + reduction mods == r.
Proof.
  induction l as [| rl l IH]; intros r rs pm H0 Hle.
  - exists 0%nat, []. simpl. rewrite app_nil_r.
    split; [reflexivity |]. split; [lia |].
    unfold totalReceivedOf, reduction in *. simpl in *. lra.
  - pose proof (total_cons rl l) as Hcons.
    simpl lifo_walk. destruct (Qle_bool r 0) eqn:E0.
    + apply Qle_bool_iff in E0. exists 0%nat, []. simpl. rewrite app_nil_r.
      split; [reflexivity |]. split; [lia |].
      unfold totalReceivedOf, reduction. simpl. lra.
    + apply Qle_bool_gt in E0.
      destruct (Qle_bool (qty rl) r) eqn:E1.
      * apply Qle_bool_iff in E1.
        destruct (IH (r - qty rl)
                    (set_add (or_empty (purchaseOrderReceiveLineId rl)) rs) pm)
          as [k [mods [Heq [Hlen Hsum]]]]; [lra | lra |].
        exists (S k), mods. rewrite Heq. simpl take.
        split; [reflexivity |]. split; [exact Hlen |].
        pose proof (total_cons rl (take k l)) as Hc. lra.
      * apply Qle_bool_gt in E1.
        rewrite lifo_walk_nothing_left by lra.
        eexists 0%nat, [_]. simpl take.
        split; [reflexivity |]. split; [simpl; lia |].
        unfold totalReceivedOf, reduction. simpl. lra.
Qed.

(** An item that passes validation is handled by sorting and walking. *)
Lemma unreceive_item_valid (existing : list PurchaseOrderReceiveLine)
    (names : gmap string string) (item : UnreceiveItem)
    (rs : list string) (pm : list PartialMod) (errs : list UnreceiveError) :
  productLinesOf existing (u_productId item) <> [] ->
  u_quantity item <= total (productLinesOf existing (u_productId item)) ->
  unreceive_item parseFloat existing names (rs, pm, errs) item =
  (fst (walk (sort lifo_compare (productLinesOf existing (u_productId item)))
          (u_quantity item) rs pm),
   snd (walk (sort lifo_compare (productLinesOf existing (u_productId item)))
          (u_quantity item) rs pm),
   errs).
Proof.
  intros Hne Hle. unfold unreceive_item.
  destruct (productLinesOf existing (u_productId item)) as [| rl l] eqn:El;
    [congruence |].
  simpl length. simpl Nat.eqb. cbv iota.
  apply Qltb_ge in Hle. rewrite Hle.
  destruct (walk _ _ _ _). reflexivity.
Qed.

(** In exact arithmetic, the marks of a LIFO item that passes validation
    and asks for a quantity that is not negative add up to that quantity. *)
Lemma unreceive_item_conserves (existing : list PurchaseOrderReceiveLine)
    (names : gmap string string) (item : UnreceiveItem)
    (rs : list string) (pm : list PartialMod) (errs : list UnreceiveError) :
  productLinesOf existing (u_productId item) <> [] ->
  0 <= u_quantity item ->
  u_quantity item <= total (productLinesOf existing (u_productId item)) ->
  let sorted := sort lifo_compare (productLinesOf existing (u_productId item)) in
  exists (k : nat) (mods : list PartialMod),
    unreceive_item parseFloat existing names (rs, pm, errs) item
      = (add_all rs (take k sorted), pm ++ mods, errs) /\
    (length mods <= 1)%nat /\
    total (take k sorted) + reduction mods == u_quantity item.
Proof.
  intros Hne H0 Hle sorted.
  rewrite (unreceive_item_valid existing names item rs pm errs Hne Hle).
  fold sorted.
  destruct (lifo_walk_conserves sorted (u_quantity item) rs pm H0)
    as [k [mods [Heq [Hlen Hsum]]]].
  { unfold sorted. rewrite <- (total_permutation _ _ (sort_permutation lifo_compare _)).
    exact Hle. }
  exists k, mods. rewrite Heq. simpl. auto.
Qed.

End WalkFacts.

(** ** Unreceive on doubles: the LIFO walk *)

Section Walk64Facts.

Import PrimFloat PurchaseOrders PurchaseOrders64.

Variable readNumber : Q -> float.
Variable parseFloat : string -> float.

Local Abbreviation qty64 rl := (parseLineQuantity readNumber parseFloat (quantity rl)).
Local Abbreviation walk64 := (lifo_walk readNumber parseFloat).

Lemma double_walk_nothing_left (l : list PurchaseOrderReceiveLine) (r : float)
    (rs : list string) (pm : list PartialMod) :
  (r <=? 0)%float = true -> walk64 l r rs pm = (rs, pm).
Proof.
  intros Hr. destruct l; simpl; [reflexivity |]. rewrite Hr. reflexivity.
Qed.

(** The loop is the walk of the relation [consumes]. *)
Lemma double_walk_consumes (l : list PurchaseOrderReceiveLine) :
  forall (r : float) (rs : list string) (pm : list PartialMod),
    consumes readNumber parseFloat l r (rs, pm) (walk64 l r rs pm).
Proof.
  induction l as [| rl l IH]; intros r rs pm; simpl.
  - constructor.
  - destruct (r <=? 0)%float eqn:E0.
    + apply consumes_nothing_left. exact E0.
    + destruct (qty64 rl <=? r)%float eqn:E1.
      * apply consumes_whole; [exact E0 | exact E1 | apply IH].
      * rewrite double_walk_nothing_left by reflexivity.
        apply consumes_part; assumption.
Qed.

(** [consumes] leaves no choice: it has one outcome. *)
Lemma double_consumes_deterministic (l : list PurchaseOrderReceiveLine) (r : float)
    (st st1 st2 : list string * list PartialMod) :
  consumes readNumber parseFloat l r st st1 ->
  consumes readNumber parseFloat l r st st2 -> st1 = st2.
Proof.
  intros H1. revert st2.
  induction H1 as [r st | l r st Hr | rl rest r rs pm st Hr Hq H IH | rl rest r rs pm Hr Hq];
    intros st2 H2; inversion H2; subst; try reflexivity; try congruence.
  apply IH. assumption.
Qed.

(** An item that passes validation is handled by sorting and walking. *)
Lemma double_unreceive_item_valid (existing : list PurchaseOrderReceiveLine)
    (names : gmap string string) (item : UnreceiveItem)
    (rs : list string) (pm : list PartialMod) (errs : list UnreceiveError) :
  productLinesOf existing (u_productId item) <> [] ->
  (totalReceivedOf readNumber parseFloat (productLinesOf existing (u_productId item))
     <? u_quantity item)%float = false ->
  unreceive_item readNumber parseFloat existing names (rs, pm, errs) item =
  (fst (walk64 (sort lifo_compare (productLinesOf existing (u_productId item)))
          (u_quantity item) rs pm),
   snd (walk64 (sort lifo_compare (productLinesOf existing (u_productId item)))
          (u_quantity item) rs pm),
   errs).
Proof.
  intros Hne Hle. unfold unreceive_item.
  destruct (productLinesOf existing (u_productId item)) as [| rl l] eqn:El;
    [congruence |].
  simpl length. simpl Nat.eqb. cbv iota. rewrite Hle.
  destruct (walk64 _ _ _ _). reflexivity.
Qed.

(** C1, as the code has it.  For a LIFO item whose quantity does not
    exceed the total received of its product, the product's entries are
    sorted descending by receive date, then version stamp, then identity,
    and walked while the remainder is positive: an entry no larger than
    the remainder is removed whole and subtracted, the first entry larger
    than the remainder is reduced to [entryQuantity - remainder] and ends
    the walk, and nothing is marked once the remainder is no longer
    positive.  The comparisons, the sum and the subtractions are those of
    the doubles.  On entries of 5 at [t1] and 3 at [t2 > t1] and a request
    of 4, the entry at [t2] is removed and the entry at [t1] is reduced to
    4 and written back as 4.0000. *)
Theorem lifo_unreceive_sorts_then_walks (existing : list PurchaseOrderReceiveLine)
    (names : gmap string string) (item : UnreceiveItem)
    (rs : list string) (pm : list PartialMod) (errs : list UnreceiveError) :
  productLinesOf existing (u_productId item) <> [] ->
  (totalReceivedOf readNumber parseFloat (productLinesOf existing (u_productId item))
     <? u_quantity item)%float = false ->
  let lines := productLinesOf existing (u_productId item) in
  let sorted := sort lifo_compare lines in
  Permutation lines sorted /\
  StronglySorted lifo_order sorted /\
  (exists rs' pm',
     unreceive_item readNumber parseFloat existing names (rs, pm, errs) item
       = (rs', pm', errs) /\
     consumes readNumber parseFloat sorted (u_quantity item) (rs, pm) (rs', pm') /\
     forall st,
       consumes readNumber parseFloat sorted (u_quantity item) (rs, pm) st ->
       st = (rs', pm')) /\
  (unreceive_item sample_readNumber sample_parseFloat [entry_t1; entry_t2] ∅
     ([], [], []) (unreceive_quantity 4)
   = (["rl-2"%string], [{| mod_id := "rl-1"; newQty := 4; oldQty := 5 |}], []) /\
   remainingLines sample_toFixed4 [entry_t1; entry_t2] ["rl-2"%string]
     [{| mod_id := "rl-1"; newQty := 4; oldQty := 5 |}]
   = [stripReceiveLineToWritable (entry "rl-1" "widget" "4.0000" "2024-01-10T09:00:00Z")]).
Proof.
  intros Hne Hle lines sorted.
  split; [apply sort_permutation |].
  split; [apply lifo_sort_sorted |].
  split; [| split; vm_compute; reflexivity].
  rewrite (double_unreceive_item_valid existing names item rs pm errs Hne Hle).
  fold lines. fold sorted.
  pose proof (double_walk_consumes sorted (u_quantity item) rs pm) as Hw.
  destruct (walk64 sorted (u_quantity item) rs pm) as [rs' pm'] eqn:E.
  exists rs', pm'. simpl. split; [reflexivity |]. split; [exact Hw |].
  intros st Hst. exact (double_consumes_deterministic _ _ _ _ _ Hst Hw).
Qed.

End Walk64Facts.

(** ** Runs on the sample order, on doubles: the LIFO walk *)

Section SampleWalks64.

Import PrimFloat PurchaseOrders PurchaseOrders64.

(** C1 on the two sample entries and a request of 4. *)
Lemma lifo_unreceive_sorts_then_walks_witness :
  let existing := [entry_t1; entry_t2] in
  let item := unreceive_quantity 4 in
  let lines := productLinesOf existing (u_productId item) in
  let sorted := sort lifo_compare lines in
  sorted = [entry_t2; entry_t1] /\
  Permutation lines sorted /\
  StronglySorted lifo_order sorted /\
  (exists rs' pm',
     unreceive_item sample_readNumber sample_parseFloat existing ∅ ([], [], []) item
       = (rs', pm', []) /\
     consumes sample_readNumber sample_parseFloat sorted (u_quantity item)
       ([], []) (rs', pm') /\
     forall st,
       consumes sample_readNumber sample_parseFloat sorted (u_quantity item) ([], []) st ->
       st = (rs', pm')) /\
  (unreceive_item sample_readNumber sample_parseFloat existing ∅ ([], [], []) item
   = (["rl-2"%string], [{| mod_id := "rl-1"; newQty := 4; oldQty := 5 |}], []) /\
   remainingLines sample_toFixed4 existing ["rl-2"%string]
     [{| mod_id := "rl-1"; newQty := 4; oldQty := 5 |}]
   = [stripReceiveLineToWritable (entry "rl-1" "widget" "4.0000" "2024-01-10T09:00:00Z")]).
Proof.
  split; [reflexivity |].
  destruct (lifo_unreceive_sorts_then_walks sample_readNumber sample_parseFloat
              [entry_t1; entry_t2] ∅ (unreceive_quantity 4) [] [] [])
    as [Hperm [Hsorted [Hwalk Hexample]]].
  - vm_compute. discriminate.
  - vm_compute. reflexivity.
  - split; [exact Hperm |]. split; [exact Hsorted |]. split; [exact Hwalk | exact Hexample].
Defined.

(** C1 as the claim words it fails on a request that is not positive.  A
    request of -1 does not exceed the total received and passes
    validation; the loop stops at once and marks nothing, where the walk
    of the specification finds that the newest entry, of 3, exceeds the
    remainder -1 and reduces it to [3 - (-1)], which would write the entry
    back with a quantity of 4.0000. *)
Lemma lifo_walk_marks_nothing_on_a_negative_request :
  let existing := [entry_t1; entry_t2] in
  let sorted := sort lifo_compare (productLinesOf existing "widget") in
  (totalReceivedOf sample_readNumber sample_parseFloat (productLinesOf existing "widget")
     <? -1)%float = false /\
  unreceive_item sample_readNumber sample_parseFloat existing ∅ ([], [], [])
    (unreceive_quantity (-1)) = ([], [], []) /\
  lifo_walk sample_readNumber sample_parseFloat sorted (-1) [] [] = ([], []) /\
  spec_walk sample_readNumber sample_parseFloat sorted (-1) [] []
    = ([], [{| mod_id := "rl-2"; newQty := 4; oldQty := 3 |}]) /\
  remainingLines sample_toFixed4 existing [] []
    = map stripReceiveLineToWritable existing /\
  remainingLines sample_toFixed4 existing []
    [{| mod_id := "rl-2"; newQty := 4; oldQty := 3 |}]
    = [stripReceiveLineToWritable entry_t1;
       stripReceiveLineToWritable (entry "rl-2" "widget" "4.0000" "2024-02-20T09:00:00Z")].
Proof.
  vm_compute. repeat split; reflexivity.
Qed.

End SampleWalks64.

(** ** Unreceive: what the marks of a LIFO item add up to *)

Section ConservationFacts.

Import PrimFloat PurchaseOrders.

Variable parseFloat : string -> option Q.
Variable readNumber : Q -> float.
Variable parseFloat64 : string -> float.

Local Abbreviation qty64 rl :=
  (PurchaseOrders64.parseLineQuantity readNumber parseFloat64 (quantity rl)).
Local Abbreviation walk64 := (PurchaseOrders64.lifo_walk readNumber parseFloat64).
Local Abbreviation left_after r taken :=
  (foldl (fun rem rl => (rem - qty64 rl)%float) r taken).

(** The walk on doubles in detail: the first [k] lines are marked whole,
    each subtracted in turn from the remainder; then the remainder is no
    longer positive or the lines have run out, or else the next line is
    reduced to its quantity less the remainder. *)
Lemma double_walk_marks (l : list PurchaseOrderReceiveLine) :
  forall (r : float) (rs : list string) (pm : list PurchaseOrders64.PartialMod),
    exists k : nat,
      (walk64 l r rs pm = (add_all rs (take k l), pm) /\
       ((left_after r (take k l) <=? 0)%float = true \/ drop k l = [])) \/
      (exists (rl : PurchaseOrderReceiveLine) (rest : list PurchaseOrderReceiveLine),
         drop k l = rl :: rest /\
         walk64 l r rs pm
           = (add_all rs (take k l),
              pm ++ [{| PurchaseOrders64.mod_id := or_empty (purchaseOrderReceiveLineId rl);
                        PurchaseOrders64.newQty := (qty64 rl - left_after r (take k l))%float;
                        PurchaseOrders64.oldQty := qty64 rl |}])).
Proof.
  induction l as [| rl l IH]; intros r rs pm.
  - exists 0%nat. left. simpl. split; [reflexivity | right; reflexivity].
  - simpl PurchaseOrders64.lifo_walk. destruct (r <=? 0)%float eqn:E0.
    + exists 0%nat. left. simpl. split; [reflexivity | left; exact E0].
    + destruct (qty64 rl <=? r)%float eqn:E1.
      * destruct (IH (r - qty64 rl)%float
                    (set_add (or_empty (purchaseOrderReceiveLineId rl)) rs) pm)
          as [k [[Heq Hend] | [rl' [rest [Hdrop Heq]]]]].
        -- exists (S k). left. rewrite Heq. simpl. split; [reflexivity | exact Hend].
        -- exists (S k). right. exists rl', rest. rewrite Heq. simpl.
           split; [exact Hdrop | reflexivity].
      * rewrite double_walk_nothing_left by reflexivity.
        exists 0%nat. right. exists rl, l. simpl. split; reflexivity.
Qed.

(** C8, as the code has it.  For a LIFO item that passes validation, the
    walk removes the first [k] entries of the sorted list whole and
    reduces at most one entry, the one that follows them.  On doubles,
    the entry is reduced to its quantity less what is left of the request
    once the removed entries are subtracted from it one after the other,
    each subtraction rounding as doubles do.  In exact arithmetic, and
    for a request that is not negative, the quantities of the removed
    entries and the reduction of the reduced one add up to the request
    exactly. *)
Theorem lifo_walk_conserves_quantity :
  (forall (existing : list PurchaseOrderReceiveLine) (names : gmap string string)
          (item : PurchaseOrders64.UnreceiveItem) (rs : list string)
          (pm : list PurchaseOrders64.PartialMod)
          (errs : list PurchaseOrders64.UnreceiveError),
     productLinesOf existing (PurchaseOrders64.u_productId item) <> [] ->
     (PurchaseOrders64.totalReceivedOf readNumber parseFloat64
        (productLinesOf existing (PurchaseOrders64.u_productId item))
        <? PurchaseOrders64.u_quantity item)%float = false ->
     let sorted := sort lifo_compare
                     (productLinesOf existing (PurchaseOrders64.u_productId item)) in
     exists (k : nat) (mods : list PurchaseOrders64.PartialMod),
       PurchaseOrders64.unreceive_item readNumber parseFloat64 existing names
         (rs, pm, errs) item
         = (add_all rs (take k sorted), pm ++ mods, errs) /\
       (length mods <= 1)%nat /\
       Forall (fun m =>
                 exists rl rest,
                   drop k sorted = rl :: rest /\
                   PurchaseOrders64.mod_id m = or_empty (purchaseOrderReceiveLineId rl) /\
                   PurchaseOrders64.oldQty m = qty64 rl /\
                   PurchaseOrders64.newQty m
                   = (qty64 rl
                      - left_after (PurchaseOrders64.u_quantity item) (take k sorted))%float)
         mods /\
       (mods = [] ->
        (left_after (PurchaseOrders64.u_quantity item) (take k sorted) <=? 0)%float = true
        \/ drop k sorted = [])) /\
  (forall (existing : list PurchaseOrderReceiveLine) (names : gmap string string)
          (item : UnreceiveItem) (rs : list string) (pm : list PartialMod)
          (errs : list UnreceiveError),
     productLinesOf existing (u_productId item) <> [] ->
     0 <= u_quantity item ->
     u_quantity item
       <= totalReceivedOf parseFloat (productLinesOf existing (u_productId item)) ->
     let sorted := sort lifo_compare (productLinesOf existing (u_productId item)) in
     exists (k : nat) (mods : list PartialMod),
       unreceive_item parseFloat existing names (rs, pm, errs) item
         = (add_all rs (take k sorted), pm ++ mods, errs) /\
       (length mods <= 1)%nat /\
       totalReceivedOf parseFloat (take k sorted) + reduction mods == u_quantity item).
Proof.
  split.
  - intros existing names item rs pm errs Hne Hle sorted.
    rewrite (double_unreceive_item_valid readNumber parseFloat64 existing names item
               rs pm errs Hne Hle).
    fold sorted.
    destruct (double_walk_marks sorted (PurchaseOrders64.u_quantity item) rs pm)
      as [k [[Heq Hend] | [rl [rest [Hdrop Heq]]]]]; rewrite Heq; cbn [fst snd].
    + exists k, []. rewrite app_nil_r. split; [reflexivity |].
      split; [simpl; lia |]. split; [constructor |]. intros _. exact Hend.
    + exists k. eexists [_]. split; [reflexivity |]. split; [simpl; lia |].
      split; [| discriminate].
      constructor; [| constructor]. exists rl, rest. cbn. auto.
  - intros existing names item rs pm errs Hne H0 Hle.
    exact (unreceive_item_conserves parseFloat existing names item rs pm errs Hne H0 Hle).
Qed.

End ConservationFacts.

Section SampleConservation.

Import PrimFloat PurchaseOrders.

(** C8 on the two sample entries and a request of 4, on doubles and in
    exact arithmetic: the entry of 3 is removed and the entry of 5 is
    reduced by 1. *)
Lemma lifo_walk_conserves_quantity_witness :
  let existing := [entry_t1; entry_t2] in
  let sorted := sort lifo_compare (productLinesOf existing "widget") in
  let qty64 := fun rl =>
    PurchaseOrders64.parseLineQuantity PurchaseOrders64.sample_readNumber
      PurchaseOrders64.sample_parseFloat (quantity rl) in
  let left_after := fun taken =>
    foldl (fun rem rl => (rem - qty64 rl)%float) 4%float taken in
  (exists (k : nat) (mods : list PurchaseOrders64.PartialMod),
     PurchaseOrders64.unreceive_item PurchaseOrders64.sample_readNumber
       PurchaseOrders64.sample_parseFloat existing ∅ ([], [], [])
       (PurchaseOrders64.unreceive_quantity 4)
       = (add_all [] (take k sorted), [] ++ mods, []) /\
     (length mods <= 1)%nat /\
     Forall (fun m =>
               exists rl rest,
                 drop k sorted = rl :: rest /\
                 PurchaseOrders64.mod_id m = or_empty (purchaseOrderReceiveLineId rl) /\
                 PurchaseOrders64.oldQty m = qty64 rl /\
                 PurchaseOrders64.newQty m = (qty64 rl - left_after (take k sorted))%float)
       mods /\
     (mods = [] ->
      (left_after (take k sorted) <=? 0)%float = true \/ drop k sorted = [])) /\
  (exists (k : nat) (mods : list PartialMod),
     unreceive_item sample_parseFloat existing ∅ ([], [], []) (unreceive_quantity 4)
       = (add_all [] (take k sorted), [] ++ mods, []) /\
     (length mods <= 1)%nat /\
     totalReceivedOf sample_parseFloat (take k sorted) + reduction mods == 4) /\
  PurchaseOrders64.unreceive_item PurchaseOrders64.sample_readNumber
    PurchaseOrders64.sample_parseFloat existing ∅ ([], [], [])
    (PurchaseOrders64.unreceive_quantity 4)
  = (["rl-2"],
     [{| PurchaseOrders64.mod_id := "rl-1";
         PurchaseOrders64.newQty := 4%float;
         PurchaseOrders64.oldQty := 5%float |}], []).
Proof.
  intros existing sorted qty64 left_after.
  destruct (lifo_walk_conserves_quantity sample_parseFloat
              PurchaseOrders64.sample_readNumber PurchaseOrders64.sample_parseFloat)
    as [Hdoubles Hexact].
  split; [| split].
  - apply (Hdoubles existing ∅ (PurchaseOrders64.unreceive_quantity 4) [] [] []).
    + vm_compute. discriminate.
    + vm_compute. reflexivity.
  - apply (Hexact existing ∅ (unreceive_quantity 4) [] [] []).
    + vm_compute. discriminate.
    + apply Qle_bool_iff. vm_compute. reflexivity.
    + apply Qle_bool_iff. vm_compute. reflexivity.
  - vm_compute. reflexivity.
Defined.

(** C8 as the claim words it fails, in three ways.  A request of -1 passes
    validation, the loop marks nothing, and nothing adds up to -1.  On
    doubles, entries of 0.6 and 0.1 and a request of 0.7 pass validation
    and both entries are removed whole, since [0.7 - 0.1] rounds to the
    double of 0.6, yet the numbers the three doubles stand for do not add
    up: what is removed exceeds what was asked by [2^-55].  And a request
    of 0.00004 on an entry of 5 reduces the entry to [5 - 0.00004] in
    memory, which is written back as 5.0000: the ledger written is the
    ledger fetched. *)
Lemma lifo_marks_miss_the_request :
  (let existing := [entry_t1; entry_t2] in
   let item := unreceive_quantity (-1) in
   let sorted := sort lifo_compare (productLinesOf existing (u_productId item)) in
   productLinesOf existing (u_productId item) <> [] /\
   u_quantity item
     <= totalReceivedOf sample_parseFloat (productLinesOf existing (u_productId item)) /\
   unreceive_item sample_parseFloat existing ∅ ([], [], []) item = ([], [], []) /\
   ~ (exists (k : nat) (mods : list PartialMod),
        unreceive_item sample_parseFloat existing ∅ ([], [], []) item
          = (add_all [] (take k sorted), [] ++ mods, []) /\
        totalReceivedOf sample_parseFloat (take k sorted) + reduction mods
          == u_quantity item)) /\
  (let existing := [PurchaseOrders64.tenths_t1; PurchaseOrders64.tenths_t2] in
   let asked := PurchaseOrders64.sample_readNumber (7 # 10) in
   (PurchaseOrders64.totalReceivedOf PurchaseOrders64.sample_readNumber
      PurchaseOrders64.sample_parseFloat (productLinesOf existing "widget")
      <? asked)%float = false /\
   PurchaseOrders64.unreceive_item PurchaseOrders64.sample_readNumber
     PurchaseOrders64.sample_parseFloat existing ∅ ([], [], [])
     (PurchaseOrders64.unreceive_quantity asked)
     = (["rl-2"%string; "rl-1"%string], [], []) /\
   Double.value (PurchaseOrders64.sample_readNumber (6 # 10))
     + Double.value (PurchaseOrders64.sample_readNumber (1 # 10))
     - Double.value asked == 1 # 36028797018963968) /\
  (let asked := PurchaseOrders64.sample_readNumber (4 # 100000) in
   let reduced :=
     {| PurchaseOrders64.mod_id := "rl-1";
        PurchaseOrders64.newQty := (5 - asked)%float;
        PurchaseOrders64.oldQty := 5%float |} in
   PurchaseOrders64.unreceive_item PurchaseOrders64.sample_readNumber
     PurchaseOrders64.sample_parseFloat [entry_t1] ∅ ([], [], [])
     (PurchaseOrders64.unreceive_quantity asked)
     = ([], [reduced], []) /\
   (5 - asked <? 5)%float = true /\
   PurchaseOrders64.remainingLines PurchaseOrders64.sample_toFixed4 [entry_t1] [] [reduced]
     = [stripReceiveLineToWritable (entry "rl-1" "widget" "5.0000" "2024-01-10T09:00:00Z")]).
Proof.
  split; [| split].
  - split; [vm_compute; discriminate |].
    split; [apply Qle_bool_iff; vm_compute; reflexivity |].
    split; [reflexivity |].
    intros [k [mods [Heq Hsum]]].
    assert (Hm : mods = []) by (vm_compute in Heq; congruence).
    subst mods.
    destruct k as [| [| k]].
    + vm_compute in Hsum. discriminate.
    + vm_compute in Heq. discriminate.
    + rewrite take_ge in Heq by (vm_compute; lia).
      vm_compute in Heq. discriminate.
  - vm_compute. repeat split; reflexivity.
  - vm_compute. repeat split; reflexivity.
Qed.

End SampleConservation.

(** ** Unreceive: every mark names a line of the ledger *)

Section MarkFacts.

Import PurchaseOrders.

Variable parseFloat : string -> option Q.
Variable existing : list PurchaseOrderReceiveLine.

(** [receiveLineMap.has(id)] *)
Local Abbreviation known := (fun id : string => is_Some (receiveLineMap existing !! id)).

Lemma receiveLineMap_from (l : list PurchaseOrderReceiveLine) :
  forall (m : gmap string PurchaseOrderReceiveLine) (k : string),
    is_Some (m !! k) \/
    (exists rl, In rl l /\ truthy (purchaseOrderReceiveLineId rl) = true /\
                or_empty (purchaseOrderReceiveLineId rl) = k) ->
    is_Some (foldl (fun m rl =>
                      if truthy (purchaseOrderReceiveLineId rl)
                      then <[or_empty (purchaseOrderReceiveLineId rl) := rl]> m
                      else m) m l !! k).
Proof.
  induction l as [| a l IH]; intros m k H; simpl.
  - destruct H as [H | [rl [[] _]]]. exact H.
  - apply IH. destruct H as [H | [rl [[-> | Hin] [Ht Hk]]]].
    + left. destruct (truthy (purchaseOrderReceiveLineId a)); [| exact H].
      rewrite lookup_insert. case_decide; [eexists; reflexivity | exact H].
    + left. rewrite Ht, Hk. rewrite lookup_insert_eq. eexists; reflexivity.
    + right. exists rl. auto.
Qed.

(** A line of the ledger that carries an identity is in the lookup. *)
Lemma ledger_line_known (rl : PurchaseOrderReceiveLine) :
  In rl existing ->
  truthy (purchaseOrderReceiveLineId rl) = true ->
  known (or_empty (purchaseOrderReceiveLineId rl)).
Proof.
  intros Hin Ht. apply receiveLineMap_from. right. exists rl. auto.
Qed.

Lemma set_add_known (x : string) (s : list string) :
  known x -> Forall known s -> Forall known (set_add x s).
Proof.
  intros Hx Hs. unfold set_add. destruct (set_has x s); [exact Hs |].
  apply Forall_app. split; [exact Hs |]. constructor; [exact Hx | constructor].
Qed.

Lemma lifo_walk_known (l : list PurchaseOrderReceiveLine) :
  forall (r : Q) (rs : list string) (pm : list PartialMod),
    Forall (fun rl => known (or_empty (purchaseOrderReceiveLineId rl))) l ->
    Forall known rs ->
    Forall (fun m => known (mod_id m)) pm ->
    Forall known (fst (lifo_walk parseFloat l r rs pm)) /\
    Forall (fun m => known (mod_id m)) (snd (lifo_walk parseFloat l r rs pm)).
Proof.
  induction l as [| rl l IH]; intros r rs pm Hl Hrs Hpm; simpl; [auto |].
  inversion Hl as [| ? ? Hrl Hl']; subst.
  destruct (Qle_bool r 0); [auto |].
  destruct (Qle_bool _ r).
  - apply IH; [exact Hl' | apply set_add_known; assumption | exact Hpm].
  - apply IH; [exact Hl' | exact Hrs |].
    apply Forall_app. split; [exact Hpm |]. constructor; [exact Hrl | constructor].
Qed.

Lemma productLines_known (pid : string) :
  Forall (fun rl => known (or_empty (purchaseOrderReceiveLineId rl)))
    (productLinesOf existing pid).
Proof.
  apply List.Forall_forall. intros rl Hin.
  unfold productLinesOf in Hin. apply List.filter_In in Hin.
  destruct Hin as [Hin Hc]. apply andb_true_iff in Hc.
  apply ledger_line_known; tauto.
Qed.

Lemma unreceive_item_known (names : gmap string string) (item : UnreceiveItem)
    (rs : list string) (pm : list PartialMod) (errs : list UnreceiveError) :
  Forall known rs ->
  Forall (fun m => known (mod_id m)) pm ->
  Forall known (fst (fst (unreceive_item parseFloat existing names (rs, pm, errs) item))) /\
  Forall (fun m => known (mod_id m))
    (snd (fst (unreceive_item parseFloat existing names (rs, pm, errs) item))).
Proof.
  intros Hrs Hpm. unfold unreceive_item.
  destruct (length (productLinesOf existing (u_productId item)) =? 0)%nat; [auto |].
  destruct (Qltb _ _); [auto |].
  pose proof (lifo_walk_known
                (sort lifo_compare (productLinesOf existing (u_productId item)))
                (u_quantity item) rs pm) as H.
  destruct (lifo_walk _ _ _ _ _) as [rs' pm']. simpl in *. apply H; try assumption.
  eapply Permutation_Forall; [apply sort_permutation | apply productLines_known].
Qed.

(** Whatever the mode, the marking names lines of the ledger only. *)
Lemma mark_known (args : UnreceiveArgs) (names : gmap string string) :
  Forall known (fst (fst (mark parseFloat args existing names))) /\
  Forall (fun m => known (mod_id m)) (snd (fst (mark parseFloat args existing names))).
Proof.
  unfold mark.
  destruct (match unreceiveAll args with Some b => b | None => false end).
  - simpl. split; [| constructor].
    assert (H : forall l s,
               (forall rl, In rl l -> In rl existing) -> Forall known s ->
               Forall known (foldl (fun s rl =>
                  if truthy (purchaseOrderReceiveLineId rl)
                  then set_add (or_empty (purchaseOrderReceiveLineId rl)) s
                  else s) s l)).
    { induction l as [| rl l IH]; intros s Hsub Hs; simpl; [exact Hs |].
      apply IH; [intros x Hx; apply Hsub; right; exact Hx |].
      destruct (truthy (purchaseOrderReceiveLineId rl)) eqn:Ht; [| exact Hs].
      apply set_add_known; [| exact Hs].
      apply ledger_line_known; [apply Hsub; left; reflexivity | exact Ht]. }
    apply H; [auto | constructor].
  - destruct (receiveLineIds args) as [ids |].
    + assert (H : forall (l : list string) (st : marking),
                 Forall known (fst (fst st)) ->
                 Forall (fun m => known (mod_id m)) (snd (fst st)) ->
                 let st' := foldl (fun (st : marking) id =>
                   let '(removeSet, partialMods, errors) := st in
                   match receiveLineMap existing !! id with
                   | None => (removeSet, partialMods, errors ++ [ReceiveLineNotFound id])
                   | Some _ => (set_add id removeSet, partialMods, errors)
                   end) st l in
                 Forall known (fst (fst st')) /\
                 Forall (fun m => known (mod_id m)) (snd (fst st'))).
      { induction l as [| id l IH]; intros [[rs pm] errs] Hrs Hpm; simpl; [auto |].
        apply IH; destruct (receiveLineMap existing !! id) eqn:E; simpl in *; auto.
        apply set_add_known; [| exact Hrs]. simpl. rewrite E. eexists; reflexivity. }
      apply H; constructor.
    + destruct (u_items args) as [items |]; [| split; constructor].
      assert (H : forall (l : list UnreceiveItem) (st : marking),
                 Forall known (fst (fst st)) ->
                 Forall (fun m => known (mod_id m)) (snd (fst st)) ->
                 Forall known (fst (fst (foldl (unreceive_item parseFloat existing names) st l))) /\
                 Forall (fun m => known (mod_id m))
                   (snd (fst (foldl (unreceive_item parseFloat existing names) st l)))).
      { induction l as [| item l IH]; intros [[rs pm] errs] Hrs Hpm; simpl; [auto |].
        destruct (unreceive_item_known names item rs pm errs Hrs Hpm) as [H1 H2].
        apply IH; assumption. }
      apply H; constructor.
Qed.

(** So the summaries of phase 4 are always built. *)
Lemma summaries_exist (args : UnreceiveArgs) (names : gmap string string)
    (rs : list string) (pm : list PartialMod) (errs : list UnreceiveError) :
  mark parseFloat args existing names = (rs, pm, errs) ->
  exists removed modified,
    removed_of parseFloat existing names rs = Some removed /\
    modified_of existing names pm = Some modified.
Proof.
  intros Hmark. pose proof (mark_known args names) as [Hrs Hpm].
  rewrite Hmark in Hrs, Hpm. simpl in Hrs, Hpm.
  assert (H1 : is_Some (removed_of parseFloat existing names rs)).
  { unfold removed_of. apply mapM_is_Some_2.
    eapply List.Forall_impl; [| exact Hrs].
    intros id [rl Hid]. unfold compose. rewrite Hid. eexists; reflexivity. }
  assert (H2 : is_Some (modified_of existing names pm)).
  { unfold modified_of. apply mapM_is_Some_2.
    eapply List.Forall_impl; [| exact Hpm].
    intros m [rl Hid]. unfold compose. rewrite Hid. eexists; reflexivity. }
  destruct H1 as [removed H1], H2 as [modified H2]. eauto.
Qed.

End MarkFacts.

(** ** What is written back of a fetched entry *)

Section StripFacts.

Import PurchaseOrders.

(** Stripping keeps the seven writable fields as they are and leaves
    nothing else on the entry. *)
Lemma strip_gives_writable_copies (l : list PurchaseOrderReceiveLine) :
  Forall2 writable_copy (map stripReceiveLineToWritable l) l.
Proof.
  induction l as [| rl l IH]; simpl; constructor; [| exact IH].
  unfold writable_copy. simpl. repeat split.
Qed.

End StripFacts.

(** ** Unreceive: the handler *)

Section UnreceiveFacts.

Import PurchaseOrders.

Variable parseFloat : string -> option Q.
Variable toFixed4 : Q -> string.

Local Abbreviation unreceive := (unreceive_purchase_order parseFloat toFixed4).

(** The handler past its checks of the arguments and of the fetched order. *)
Lemma unreceive_past_checks (remote : Remote) (args : UnreceiveArgs) (po : PurchaseOrder) :
  modes args = 1%nat ->
  get remote (u_purchaseOrderId args) = Gave (Some po) ->
  terminal_status (po_status po) = false ->
  default [] (po_receiveLines po) <> [] ->
  unreceive remote args =
  let fetch := [GET (u_purchaseOrderId args)] in
  let existing := default [] (po_receiveLines po) in
  let names := productNameMap (default [] (po_lines po)) in
  let '(removeSet, partialMods, errors) := mark parseFloat args existing names in
  if negb (length errors =? 0)%nat then
    (Replied (UnreceiveValidationFailed errors), fetch)
  else
    match removed_of parseFloat existing names removeSet,
          modified_of existing names partialMods with
    | Some removed, Some modified =>
        if flag (dryRun args) then
          (Replied (DryRun (u_purchaseOrderId args) (po_orderNumber po)
                      (length existing) removed modified
                      (Z.of_nat (length existing) - Z.of_nat (length removeSet))%Z),
           fetch)
        else
          let lines := remainingLines toFixed4 existing removeSet partialMods in
          let putBody :=
            {| put_purchaseOrderId := po_purchaseOrderId po;
               put_vendorId := po_vendorId po;
               put_receiveLines := lines;
               put_unstockLines := Some (default [] (po_unstockLines po));
               put_timestamp := po_timestamp po |} in
          match put remote putBody with
          | Raised e => (Escaped e, fetch ++ [PUT putBody])
          | Gave result =>
              (Replied (Unreceived
                 (or_else (po_purchaseOrderId result) (po_purchaseOrderId po))
                 (or_else (po_orderNumber result) (po_orderNumber po))
                 (po_status po) (po_status result)
                 removed modified
                 (match po_receiveLines result with
                  | Some ls => length ls
                  | None => length lines
                  end)),
               fetch ++ [PUT putBody])
          end
    | _, _ => (Escaped dereference_error, fetch)
    end.
Proof.
  intros Hmodes Hget Hstatus Hne.
  unfold unreceive_purchase_order. rewrite Hmodes, Hget, Hstatus. simpl.
  destruct (default [] (po_receiveLines po)) as [| rl l] eqn:E; [congruence |].
  reflexivity.
Qed.

(** Any error collected by the marking ends the invocation before the
    write, whatever else was marked. *)
Lemma unreceive_errors_write_nothing (remote : Remote) (args : UnreceiveArgs)
    (po : PurchaseOrder) (rs : list string) (pm : list PartialMod)
    (errs : list UnreceiveError) :
  modes args = 1%nat ->
  get remote (u_purchaseOrderId args) = Gave (Some po) ->
  terminal_status (po_status po) = false ->
  default [] (po_receiveLines po) <> [] ->
  mark parseFloat args (default [] (po_receiveLines po))
    (productNameMap (default [] (po_lines po))) = (rs, pm, errs) ->
  errs <> [] ->
  unreceive remote args =
    (Replied (UnreceiveValidationFailed errs), [GET (u_purchaseOrderId args)]).
Proof.
  intros Hmodes Hget Hstatus Hne Hmark Herrs.
  rewrite (unreceive_past_checks remote args po Hmodes Hget Hstatus Hne).
  simpl. rewrite Hmark. destruct errs; [congruence |]. reflexivity.
Qed.

(** With nothing marked, the retained ledger is the existing one, stripped. *)
Lemma remainingLines_unmarked (existing : list PurchaseOrderReceiveLine) :
  remainingLines toFixed4 existing [] [] = map stripReceiveLineToWritable existing.
Proof.
  unfold remainingLines. simpl. f_equal.
  induction existing as [| rl l IH]; simpl; [reflexivity |].
  rewrite IH. reflexivity.
Qed.

(** C6.  With [dryRun] set, an unreceive invocation issues no remote
    write, whichever mode it uses and whatever the remote answers; when it
    passes the checks, its reply is the preview of what would be removed
    and modified. *)
Theorem dry_run_writes_nothing (remote : Remote) (args : UnreceiveArgs) :
  dryRun args = Some true ->
  writes (snd (unreceive remote args)) = [] /\
  (forall po rs pm,
     modes args = 1%nat ->
     get remote (u_purchaseOrderId args) = Gave (Some po) ->
     terminal_status (po_status po) = false ->
     default [] (po_receiveLines po) <> [] ->
     mark parseFloat args (default [] (po_receiveLines po))
       (productNameMap (default [] (po_lines po))) = (rs, pm, []) ->
     exists removed modified,
       removed_of parseFloat (default [] (po_receiveLines po))
         (productNameMap (default [] (po_lines po))) rs = Some removed /\
       modified_of (default [] (po_receiveLines po))
         (productNameMap (default [] (po_lines po))) pm = Some modified /\
       unreceive remote args =
         (Replied (DryRun (u_purchaseOrderId args) (po_orderNumber po)
                     (length (default [] (po_receiveLines po))) removed modified
                     (Z.of_nat (length (default [] (po_receiveLines po)))
                      - Z.of_nat (length rs))%Z),
          [GET (u_purchaseOrderId args)])).
Proof.
  intros Hdry. split.
  - unfold unreceive_purchase_order. rewrite Hdry.
    destruct (modes args =? 0)%nat; [reflexivity |].
    destruct (1 <? modes args)%nat; [reflexivity |].
    destruct (get remote (u_purchaseOrderId args)) as [[po |] | e]; try reflexivity.
    destruct (terminal_status (po_status po)); [reflexivity |].
    destruct (length (default [] (po_receiveLines po)) =? 0)%nat; [reflexivity |].
    destruct (mark _ _ _ _) as [[rs pm] errs].
    destruct (negb (length errs =? 0)%nat); [reflexivity |].
    destruct (removed_of _ _ _ _); [| reflexivity].
    destruct (modified_of _ _ _); reflexivity.
  - intros po rs pm Hmodes Hget Hstatus Hne Hmark.
    destruct (summaries_exist parseFloat _ _ _ _ _ _ Hmark)
      as [removed [modified [Hrem Hmod]]].
    exists removed, modified. split; [exact Hrem |]. split; [exact Hmod |].
    rewrite (unreceive_past_checks remote args po Hmodes Hget Hstatus Hne).
    simpl. rewrite Hmark, Hrem, Hmod, Hdry. reflexivity.
Qed.

(** C10.  An empty [receiveLineIds] array counts as a mode: the invocation
    is not refused for naming no mode, and is refused for naming several
    when [items] or [unreceiveAll] comes with it.  Alone, it marks nothing
    and collects no error; on an order that is found, open and has a
    ledger, and without [dryRun], the write carries the whole existing
    ledger stripped to its writable fields: entry for entry the identity,
    product, quantity, location, sublocation, receive date and version
    stamp that were fetched, and no description or vendor item code. *)
Theorem empty_id_list_rewrites_the_ledger (remote : Remote) (args : UnreceiveArgs) :
  receiveLineIds args = Some [] ->
  (1 <= modes args)%nat /\
  fst (unreceive remote args) <> Replied ProvideExactlyOne /\
  (u_items args <> None \/ unreceiveAll args = Some true ->
   unreceive remote args = (Replied UseOnlyOne, [])) /\
  (u_items args = None -> flag (unreceiveAll args) = false ->
   (forall existing names, mark parseFloat args existing names = ([], [], [])) /\
   forall po result,
     get remote (u_purchaseOrderId args) = Gave (Some po) ->
     terminal_status (po_status po) = false ->
     default [] (po_receiveLines po) <> [] ->
     flag (dryRun args) = false ->
     let body :=
       {| put_purchaseOrderId := po_purchaseOrderId po;
          put_vendorId := po_vendorId po;
          put_receiveLines := map stripReceiveLineToWritable (default [] (po_receiveLines po));
          put_unstockLines := Some (default [] (po_unstockLines po));
          put_timestamp := po_timestamp po |} in
     put remote body = Gave result ->
     writes (snd (unreceive remote args)) = [body] /\
     Forall2 writable_copy (put_receiveLines body) (default [] (po_receiveLines po)) /\
     exists n,
       fst (unreceive remote args) =
         Replied (Unreceived
                    (or_else (po_purchaseOrderId result) (po_purchaseOrderId po))
                    (or_else (po_orderNumber result) (po_orderNumber po))
                    (po_status po) (po_status result) [] [] n)).
Proof.
  intros Hids.
  assert (Hm : modes args = S (length (List.filter (fun b : bool => b)
             [ match u_items args with Some _ => true | None => false end;
               flag (unreceiveAll args) ]))).
  { unfold modes. rewrite Hids. reflexivity. }
  split; [lia |]. split.
  { unfold unreceive_purchase_order. rewrite Hm. simpl.
    destruct (1 <? _)%nat; [discriminate |].
    destruct (get remote (u_purchaseOrderId args)) as [[po |] | e]; try discriminate.
    destruct (terminal_status (po_status po)); [discriminate |].
    destruct (length (default [] (po_receiveLines po)) =? 0)%nat; [discriminate |].
    destruct (mark _ _ _ _) as [[rs pm] errs].
    destruct (negb (length errs =? 0)%nat); [discriminate |].
    destruct (removed_of _ _ _ _); [| discriminate].
    destruct (modified_of _ _ _); [| discriminate].
    destruct (match dryRun args with Some b => b | None => false end); [discriminate |].
    destruct (put remote _); discriminate. }
  split.
  { intros Hother. unfold unreceive_purchase_order. rewrite Hm.
    destruct Hother as [Hitems | Hall].
    - destruct (u_items args); [| congruence].
      simpl. destruct (flag (unreceiveAll args)); reflexivity.
    - rewrite Hall. simpl. destruct (u_items args); reflexivity. }
  intros Hitems Hall.
  assert (Hmark : forall existing names, mark parseFloat args existing names = ([], [], [])).
  { intros existing names. unfold mark. unfold flag in Hall. rewrite Hall, Hids. reflexivity. }
  split; [exact Hmark |].
  intros po result Hget Hstatus Hne Hdry body Hput.
  assert (Hone : modes args = 1%nat).
  { rewrite Hm, Hitems, Hall. reflexivity. }
  rewrite (unreceive_past_checks remote args po Hone Hget Hstatus Hne).
  simpl. rewrite Hmark. simpl. rewrite Hdry.
  rewrite remainingLines_unmarked. fold body. rewrite Hput. simpl.
  split; [reflexivity |].
  split; [apply strip_gives_writable_copies |]. eexists. reflexivity.
Qed.

End UnreceiveFacts.

(** ** Receive *)

Section ReceiveFacts.

Import PurchaseOrders.

Variable parseFloat : string -> option Q.
Variable toFixed4 : Q -> string.
Variable env : Surroundings.

Local Abbreviation receive := (receive_purchase_order parseFloat toFixed4 env).
Local Abbreviation item_step := (receive_item parseFloat toFixed4 env).

(** An iteration either builds one line or records one error. *)
Lemma receive_item_counts (allow : bool) (lineMap : gmap string PurchaseOrderItem)
    (productLineMap : gmap string (list PurchaseOrderItem)) (date : string)
    (location : option string) (st : ReceiveState) (item : ReceiveItem) :
  let st' := item_step allow lineMap productLineMap date location st item in
  (length (newReceiveLines st') + length (errors st')
   = S (length (newReceiveLines st) + length (errors st)))%nat.
Proof.
  unfold receive_item.
  destruct (resolve lineMap productLineMap item) as [e | [pid line]];
    [simpl; rewrite length_app; simpl; lia |].
  destruct (negb allow && Qltb _ _); [simpl; rewrite length_app; simpl; lia |].
  destruct (has_serials item && negb _);
    simpl; rewrite length_app; simpl; lia.
Qed.

Lemma receive_items_count (allow : bool) (lineMap : gmap string PurchaseOrderItem)
    (productLineMap : gmap string (list PurchaseOrderItem)) (date : string)
    (location : option string) (items : list ReceiveItem) :
  forall st,
    let st' := foldl (item_step allow lineMap productLineMap date location) st items in
    (length (newReceiveLines st') + length (errors st')
     = length items + (length (newReceiveLines st) + length (errors st)))%nat.
Proof.
  induction items as [| item items IH]; intros st; simpl; [reflexivity |].
  rewrite IH.
  pose proof (receive_item_counts allow lineMap productLineMap date location st item) as H.
  simpl in H. lia.
Qed.

(** With explicit items, every item ends as a new line or as an error. *)
Lemma build_counts (args : ReceiveArgs) (po : PurchaseOrder) :
  flag (receiveAll args) = false ->
  (length (newReceiveLines (build parseFloat toFixed4 env args po))
   + length (errors (build parseFloat toFixed4 env args po))
   = length (default [] (r_items args)))%nat.
Proof.
  intros Hall. unfold build. rewrite Hall.
  pose proof (receive_items_count (flag (allowOverReceive args))
                (lineMapOf (default [] (po_lines po)))
                (productLineMapOf (default [] (po_lines po)))
                (if truthy (r_receiveDate args) then or_empty (r_receiveDate args)
                 else nowISO env)
                (or_else (r_locationId args) (po_locationId po))
                (default [] (r_items args))
                {| receivedByProduct := receivedTotals parseFloat (default [] (po_receiveLines po));
                   newReceiveLines := [];
                   receiveSummary := [];
                   errors := [] |}) as H.
  simpl in H. lia.
Qed.

Lemma productLineMap_from (pid : string) (l : list PurchaseOrderItem) :
  forall m : gmap string (list PurchaseOrderItem),
    default [] (foldl (fun m line =>
                         if truthy (line_productId line)
                         then
                           <[or_empty (line_productId line) :=
                               default [] (m !! or_empty (line_productId line)) ++ [line]]> m
                         else m) m l !! pid)
    = default [] (m !! pid) ++ linesOfProduct l pid.
Proof.
  induction l as [| a l IH]; intros m; simpl; [rewrite app_nil_r; reflexivity |].
  rewrite IH. unfold line_is_for.
  destruct (line_productId a) as [p |]; simpl; [| reflexivity].
  destruct (String.eqb p "") eqn:Ee; simpl.
  - rewrite andb_false_r. reflexivity.
  - rewrite andb_true_r. destruct (String.eqb p pid) eqn:Ep.
    + apply String.eqb_eq in Ep. subst p.
      rewrite lookup_insert_eq. simpl. rewrite <- app_assoc. reflexivity.
    + apply String.eqb_neq in Ep. rewrite lookup_insert_ne by exact Ep. reflexivity.
Qed.

(** [productLineMap.get(pid) || []] holds every order line of the product,
    in order, and no other. *)
Lemma productLineMap_lines (lines : list PurchaseOrderItem) (pid : string) :
  default [] (productLineMapOf lines !! pid) = linesOfProduct lines pid.
Proof.
  unfold productLineMapOf. exact (productLineMap_from pid lines ∅).
Qed.

(** The handler past its checks of the arguments and of the fetched order,
    with explicit items. *)
Lemma receive_past_checks (remote : Remote) (args : ReceiveArgs) (po : PurchaseOrder) :
  flag (receiveAll args) = false ->
  default [] (r_items args) <> [] ->
  get remote (r_purchaseOrderId args) = Gave (Some po) ->
  default [] (po_lines po) <> [] ->
  terminal_status (po_status po) = false ->
  receive remote args =
  let fetch := [GET (r_purchaseOrderId args)] in
  let existing := default [] (po_receiveLines po) in
  let st := build parseFloat toFixed4 env args po in
  if negb (length (errors st) =? 0)%nat && (length (newReceiveLines st) =? 0)%nat then
    (Replied (ReceiveValidationFailed (errors st)), fetch)
  else
    let strippedExisting := map stripReceiveLineToWritable existing in
    let putBody :=
      {| put_purchaseOrderId := po_purchaseOrderId po;
         put_vendorId := po_vendorId po;
         put_receiveLines := strippedExisting ++ newReceiveLines st;
         put_unstockLines := None;
         put_timestamp := po_timestamp po |} in
    match put remote putBody with
    | Raised e => (Escaped e, fetch ++ [PUT putBody])
    | Gave result =>
        (Replied (Received
           (or_else (po_purchaseOrderId result) (po_purchaseOrderId po))
           (or_else (po_orderNumber result) (po_orderNumber po))
           (po_status po) (po_status result)
           (map received_row (receiveSummary st))
           (match po_receiveLines result with
            | Some ls =>
                if (0 <? length ls)%nat then length ls
                else (length strippedExisting + length (newReceiveLines st))%nat
            | None => (length strippedExisting + length (newReceiveLines st))%nat
            end)
           (if (0 <? length (errors st))%nat then Some (errors st) else None)),
         fetch ++ [PUT putBody])
    end.
Proof.
  intros Hall Hitems Hget Hlines Hstatus.
  unfold receive_purchase_order. rewrite Hall, Hget, Hstatus. simpl.
  destruct (default [] (r_items args)) as [| i its] eqn:Ei; [congruence |].
  destruct (default [] (po_lines po)) as [| l ls] eqn:El; [congruence |].
  reflexivity.
Qed.

(** When every explicit item is refused, nothing is written. *)
Lemma all_rejected_writes_nothing (remote : Remote) (args : ReceiveArgs) :
  flag (receiveAll args) = false ->
  (forall po, get remote (r_purchaseOrderId args) = Gave (Some po) ->
     length (errors (build parseFloat toFixed4 env args po))
     = length (default [] (r_items args))) ->
  writes (snd (receive remote args)) = [] /\
  forall po, get remote (r_purchaseOrderId args) = Gave (Some po) ->
    newReceiveLines (build parseFloat toFixed4 env args po) = [].
Proof.
  intros Hall Hrej.
  assert (Hnone : forall po, get remote (r_purchaseOrderId args) = Gave (Some po) ->
            newReceiveLines (build parseFloat toFixed4 env args po) = []).
  { intros po Hget. pose proof (build_counts args po Hall) as Hc.
    rewrite (Hrej po Hget) in Hc.
    destruct (newReceiveLines _); [reflexivity | simpl in Hc; lia]. }
  split; [| exact Hnone].
  unfold receive_purchase_order. rewrite Hall. simpl.
  destruct (length (default [] (r_items args)) =? 0)%nat eqn:En; [reflexivity |].
  destruct (get remote (r_purchaseOrderId args)) as [[po |] | e] eqn:Hget; try reflexivity.
  destruct (length (default [] (po_lines po)) =? 0)%nat; [reflexivity |].
  destruct (terminal_status (po_status po)); [reflexivity |].
  rewrite (Hnone po eq_refl), (Hrej po eq_refl), En. reflexivity.
Qed.

End ReceiveFacts.

(** ** Batches with some items that validate and some that fail *)

Section BatchFacts.

Import PurchaseOrders.

Variable parseFloat : string -> option Q.
Variable toFixed4 : Q -> string.
Variable env : Surroundings.

(** C5, as the code has it.  A receive invocation with explicit items
    writes the lines of the items that validated and replies with their
    results and the failures as warnings; it is given up only when no item
    validated.  An unreceive invocation is given up as soon as one item
    or identity fails validation: it replies with the failures and writes
    nothing, whatever the other items marked. *)
Theorem partial_failure_aborts_unreceive_only :
  (forall (remote : Remote) (args : ReceiveArgs) (po : PurchaseOrder),
     flag (receiveAll args) = false ->
     default [] (r_items args) <> [] ->
     get remote (r_purchaseOrderId args) = Gave (Some po) ->
     default [] (po_lines po) <> [] ->
     terminal_status (po_status po) = false ->
     let st := build parseFloat toFixed4 env args po in
     let body :=
       {| put_purchaseOrderId := po_purchaseOrderId po;
          put_vendorId := po_vendorId po;
          put_receiveLines :=
            map stripReceiveLineToWritable (default [] (po_receiveLines po))
            ++ newReceiveLines st;
          put_unstockLines := None;
          put_timestamp := po_timestamp po |} in
     newReceiveLines st <> [] ->
     writes (snd (receive_purchase_order parseFloat toFixed4 env remote args)) = [body] /\
     forall result,
       put remote body = Gave result ->
       errors st <> [] ->
       exists n,
         fst (receive_purchase_order parseFloat toFixed4 env remote args) =
           Replied (Received
                      (or_else (po_purchaseOrderId result) (po_purchaseOrderId po))
                      (or_else (po_orderNumber result) (po_orderNumber po))
                      (po_status po) (po_status result)
                      (map received_row (receiveSummary st)) n
                      (Some (errors st)))) /\
  (forall (remote : Remote) (args : UnreceiveArgs) (po : PurchaseOrder)
          (rs : list string) (pm : list PartialMod) (errs : list UnreceiveError),
     modes args = 1%nat ->
     get remote (u_purchaseOrderId args) = Gave (Some po) ->
     terminal_status (po_status po) = false ->
     default [] (po_receiveLines po) <> [] ->
     mark parseFloat args (default [] (po_receiveLines po))
       (productNameMap (default [] (po_lines po))) = (rs, pm, errs) ->
     errs <> [] ->
     unreceive_purchase_order parseFloat toFixed4 remote args =
       (Replied (UnreceiveValidationFailed errs), [GET (u_purchaseOrderId args)]) /\
     writes (snd (unreceive_purchase_order parseFloat toFixed4 remote args)) = []).
Proof.
  split.
  - intros remote args po Hall Hitems Hget Hlines Hstatus st body Hnew.
    rewrite (receive_past_checks parseFloat toFixed4 env remote args po
               Hall Hitems Hget Hlines Hstatus).
    assert (Hlen : (length (newReceiveLines st) =? 0)%nat = false)
      by (destruct (newReceiveLines st); [congruence | reflexivity]).
    cbv zeta. fold st. rewrite Hlen, andb_false_r. fold body.
    destruct (put remote body) as [result | e] eqn:Hput.
    + split; [reflexivity |].
      intros result' [= <-] Herr. eexists. simpl.
      destruct (errors st); [congruence |]. reflexivity.
    + split; [reflexivity |]. intros result' [=].
  - intros remote args po rs pm errs Hmodes Hget Hstatus Hne Hmark Herrs.
    rewrite (unreceive_errors_write_nothing parseFloat toFixed4 remote args po rs pm errs
               Hmodes Hget Hstatus Hne Hmark Herrs).
    split; reflexivity.
Qed.

End BatchFacts.

(** ** Runs on the sample order: the handlers *)

Section SampleRuns.

Import PurchaseOrders.

Local Abbreviation unreceive := (unreceive_purchase_order sample_parseFloat sample_toFixed4).
Local Abbreviation receive :=
  (receive_purchase_order sample_parseFloat sample_toFixed4 sample_surroundings).

(** C5 on one item that fits and one that does not, and on one product
    that has entries and one that has none. *)
Lemma partial_failure_aborts_unreceive_only_witness :
  (let st := build sample_parseFloat sample_toFixed4 sample_surroundings
               (receive_by_items [receive_quantity 1; receive_quantity 2]) sample_order in
   writes (snd (receive sample_remote
                  (receive_by_items [receive_quantity 1; receive_quantity 2])))
   = [{| put_purchaseOrderId := Some "po-1"%string;
         put_vendorId := Some "vendor-1"%string;
         put_receiveLines :=
           map stripReceiveLineToWritable [entry_t1; entry_t2] ++ newReceiveLines st;
         put_unstockLines := None;
         put_timestamp := Some "0000000000B2"%string |}] /\
   length (newReceiveLines st) = 1%nat /\
   errors st = [OverReceive "Widget" 11 10 9 1]) /\
  unreceive sample_remote
    (unreceive_by_items [unreceive_quantity 4; unreceive_unknown] None)
  = (Replied (UnreceiveValidationFailed [NoReceiveLinesFor "gadget"]), [GET "po-1"]).
Proof.
  destruct (partial_failure_aborts_unreceive_only
              sample_parseFloat sample_toFixed4 sample_surroundings) as [Hrec Hunrec].
  split.
  - split; [| split; reflexivity].
    apply (Hrec sample_remote
             (receive_by_items [receive_quantity 1; receive_quantity 2]) sample_order);
      try reflexivity; vm_compute; discriminate.
  - apply (Hunrec sample_remote
             (unreceive_by_items [unreceive_quantity 4; unreceive_unknown] None)
             sample_order ["rl-2"%string]
             [{| mod_id := "rl-1"; newQty := 4; oldQty := 5 |}]
             [NoReceiveLinesFor "gadget"]);
      try reflexivity; vm_compute; discriminate.
Defined.

(** C5 as the claim words it fails for unreceive: the first item
    validates and marks its entries, the second names a product with no
    entries, and the invocation replies with that failure and writes
    nothing, so the first item is not applied. *)
Lemma unreceive_gives_up_the_valid_items :
  let args := unreceive_by_items [unreceive_quantity 4; unreceive_unknown] None in
  unreceive_item sample_parseFloat [entry_t1; entry_t2] ∅ ([], [], []) (unreceive_quantity 4)
    = (["rl-2"%string], [{| mod_id := "rl-1"; newQty := 4; oldQty := 5 |}], []) /\
  unreceive sample_remote args
    = (Replied (UnreceiveValidationFailed [NoReceiveLinesFor "gadget"]), [GET "po-1"]) /\
  writes (snd (unreceive sample_remote args)) = [] /\
  ~ (exists body, In body (writes (snd (unreceive sample_remote args)))).
Proof.
  split; [reflexivity |]. split; [reflexivity |]. split; [reflexivity |].
  intros [body Hin]. vm_compute in Hin. exact Hin.
Qed.

(** C6 on a LIFO request of 4 with [dryRun]. *)
Lemma dry_run_writes_nothing_witness :
  let args := unreceive_by_items [unreceive_quantity 4] (Some true) in
  dryRun args = Some true /\
  writes (snd (unreceive sample_remote args)) = [] /\
  unreceive sample_remote args
  = (Replied (DryRun "po-1" (Some "PO-000001"%string) 2
                [{| removed_receiveLineId := "rl-2";
                    removed_productId := "widget";
                    removed_productName := Some "Widget"%string;
                    removed_quantity := 3;
                    removed_receiveDate := Some "2024-02-20T09:00:00Z"%string |}]
                [{| modified_receiveLineId := "rl-1";
                    modified_productId := "widget";
                    modified_productName := Some "Widget"%string;
                    modified_oldQty := 5;
                    modified_newQty := 4 |}]
                1),
     [GET "po-1"]).
Proof.
  intros args. split; [reflexivity |].
  destruct (dry_run_writes_nothing sample_parseFloat sample_toFixed4 sample_remote args
              eq_refl) as [Hwrites Hpreview].
  split; [exact Hwrites |].
  destruct (Hpreview sample_order ["rl-2"%string]
              [{| mod_id := "rl-1"; newQty := 4; oldQty := 5 |}])
    as [removed [modified [Hrem [Hmod Hrun]]]];
    [reflexivity | reflexivity | reflexivity | vm_compute; discriminate | reflexivity |].
  rewrite Hrun. vm_compute in Hrem, Hmod.
  injection Hrem as <-. injection Hmod as <-. reflexivity.
Defined.

(** C10 on the sample order. *)
Lemma empty_id_list_rewrites_the_ledger_witness :
  let args := unreceive_by_ids [] None in
  receiveLineIds args = Some [] /\
  (1 <= modes args)%nat /\
  mark sample_parseFloat args [entry_t1; entry_t2] ∅ = ([], [], []) /\
  writes (snd (unreceive sample_remote args))
  = [{| put_purchaseOrderId := Some "po-1"%string;
        put_vendorId := Some "vendor-1"%string;
        put_receiveLines := map stripReceiveLineToWritable [entry_t1; entry_t2];
        put_unstockLines := Some [];
        put_timestamp := Some "0000000000B2"%string |}] /\
  Forall2 writable_copy (map stripReceiveLineToWritable [entry_t1; entry_t2])
    [entry_t1; entry_t2] /\
  map description [entry_t1; entry_t2] = [Some "as delivered"; Some "as delivered"]%string /\
  map description (map stripReceiveLineToWritable [entry_t1; entry_t2]) = [None; None].
Proof.
  intros args. split; [reflexivity |].
  destruct (empty_id_list_rewrites_the_ledger sample_parseFloat sample_toFixed4
              sample_remote args eq_refl) as [Hmodes [_ [_ Halone]]].
  split; [exact Hmodes |].
  destruct (Halone eq_refl eq_refl) as [Hmark Hwrite].
  split; [apply Hmark |].
  edestruct (Hwrite sample_order) as [Hw [Hcopies _]];
    [reflexivity | reflexivity | vm_compute; discriminate | reflexivity | reflexivity |].
  split; [exact Hw |]. split; [exact Hcopies |]. split; reflexivity.
Defined.

End SampleRuns.

(** * Further properties *)

(** ** The request executor: retries, bounds and the list read *)

Section RetryFacts.

Import Client.

Variable cfg : InflowConfig.
Variable remote : Z -> fetched.

(** Attempts [j .. k-1] fail retryably and attempt [k] returns. *)
Lemma request_from_returns (n : nat) (j k : Z) (v : string) :
  (j <= k)%Z ->
  (Z.to_nat (k - j) < n)%nat ->
  (forall i, (j <= i < k)%Z ->
     i <> maxRetries cfg /\
     exists ei, failure_of (remote i) = Some ei /\ isRetryableError ei = true) ->
  fst (executeRequest (remote k)) = Returned v ->
  exists tr,
    request_from cfg remote n j = (Returned v, tr) /\
    attempts tr = S (Z.to_nat (k - j)) /\
    delays tr = map (backoff cfg) (seqZ j (k - j)).
Proof.
  revert j. induction n as [| n IH]; intros j Hjk Hn Hbefore Hk; [lia |].
  destruct (Z.eq_dec j k) as [-> | Hne].
  - rewrite request_from_S.
    destruct (executeRequest (remote k)) as [r tr] eqn:E.
    pose proof (executeRequest_trace (remote k)) as Htr. rewrite E in Htr.
    simpl in Hk, Htr. subst r tr.
    exists [Acquire; Fetch]. rewrite Z.sub_diag. repeat split; reflexivity.
  - destruct (Hbefore j ltac:(lia)) as [Hnl [ej [Hj Hr]]].
    rewrite request_from_S, (executeRequest_failure _ _ Hj).
    apply Z.eqb_neq in Hnl. rewrite Hnl, Hr. simpl orb. cbv iota.
    destruct (IH (j + 1)%Z) as [tr [Heq [Hat Hde]]]; try assumption; try lia.
    { intros i Hi. apply Hbefore. lia. }
    rewrite Heq. eexists. split; [reflexivity |]. split.
    + unfold attempts in *. simpl. rewrite Hat. f_equal.
      replace (k - j)%Z with (Z.succ (k - (j + 1))) by lia.
      rewrite Z2Nat.inj_succ by lia. reflexivity.
    + simpl. rewrite Hde.
      replace (k - j)%Z with (Z.succ (k - (j + 1))) by lia.
      rewrite (seqZ_cons j) by lia. simpl.
      replace (Z.succ j) with (j + 1)%Z by lia.
      replace (Z.pred (Z.succ (k - (j + 1)))) with (k - (j + 1))%Z by lia.
      reflexivity.
Qed.

(** The shape of every trace of the loop, while the iteration count is the
    one the loop guard stands for. *)
Lemma request_from_shape (n : nat) :
  forall j : Z,
    (1 <= n)%nat ->
    Z.of_nat n = (maxRetries cfg + 1 - j)%Z ->
    let tr := snd (request_from cfg remote n j) in
    (1 <= attempts tr <= n)%nat /\
    acquires tr = attempts tr /\
    delays tr = map (backoff cfg) (seqZ j (Z.of_nat (attempts tr) - 1)).
Proof.
  induction n as [| n IH]; intros j Hn Hinv; [lia |].
  rewrite request_from_S.
  destruct (executeRequest (remote j)) as [r tr0] eqn:E.
  pose proof (executeRequest_trace (remote j)) as Htr. rewrite E in Htr.
  simpl in Htr. subst tr0.
  destruct r as [v | e];
    [unfold attempts, acquires; simpl; repeat split; try lia; reflexivity |].
  destruct ((j =? maxRetries cfg)%Z || negb (isRetryableError e)) eqn:Hc;
    [unfold attempts, acquires; simpl; repeat split; try lia; reflexivity |].
  apply orb_false_iff in Hc. destruct Hc as [Hnl _]. apply Z.eqb_neq in Hnl.
  destruct (IH (j + 1)%Z) as [Hat [Hac Hde]]; [lia | lia |].
  destruct (request_from cfg remote n (j + 1)) as [r' tr'].
  simpl in Hat, Hac, Hde. cbn [snd app].
  assert (Hattempts : attempts (Acquire :: Fetch :: Delay (retryDelayMs cfg * 2 ^ j) :: tr')
                      = S (attempts tr')) by reflexivity.
  assert (Hacquires : acquires (Acquire :: Fetch :: Delay (retryDelayMs cfg * 2 ^ j) :: tr')
                      = S (acquires tr')) by reflexivity.
  rewrite Hattempts, Hacquires. split; [lia |]. split; [lia |].
  cbn [delays]. rewrite Hde.
  replace (Z.of_nat (S (attempts tr')) - 1)%Z
    with (Z.succ (Z.of_nat (attempts tr') - 1)) by lia.
  rewrite (seqZ_cons j) by lia. simpl.
  replace (Z.succ j) with (j + 1)%Z by lia.
  replace (Z.pred (Z.succ (Z.of_nat (attempts tr') - 1)))
    with (Z.of_nat (attempts tr') - 1)%Z by lia.
  reflexivity.
Qed.

(** The backoff delays before the first [m] retries add up to
    [retryDelayMs * (2^m - 1)]. *)
Lemma backoff_sum (m : nat) :
  foldr Z.add 0%Z (map (backoff cfg) (seqZ 0 (Z.of_nat m)))
  = (retryDelayMs cfg * (2 ^ Z.of_nat m - 1))%Z.
Proof.
  induction m as [| m IH]; [simpl; lia |].
  rewrite seqZ_S, map_app, foldr_app. simpl.
  assert (Hacc : forall (l : list Z) (a : Z),
             foldr Z.add a l = (foldr Z.add 0 l + a)%Z).
  { induction l as [| x l IHl]; intros a; simpl; [lia |]. rewrite IHl. lia. }
  rewrite Hacc, IH. unfold backoff.
  rewrite Z.add_0_l, Nat2Z.inj_succ, Z.pow_succ_r by lia. ring.
Qed.

(** X1.  When the first [k] attempts fail retryably and attempt [k], still
    within the allowed retries, succeeds, [request] returns that attempt's
    value after exactly [k + 1] attempts, having slept
    [retryDelayMs * 2^n] before retry [n + 1] and nothing more. *)
Theorem request_returns_after_retries (k : Z) (v : string) :
  (0 <= k <= maxRetries cfg)%Z ->
  (forall i, (0 <= i < k)%Z ->
     exists ei, failure_of (remote i) = Some ei /\ isRetryableError ei = true) ->
  fst (executeRequest (remote k)) = Returned v ->
  exists tr,
    request cfg remote = (Returned v, tr) /\
    Z.of_nat (attempts tr) = (k + 1)%Z /\
    delays tr = map (backoff cfg) (seqZ 0 k).
Proof.
  intros Hk Hbefore Hret.
  destruct (request_from_returns (Z.to_nat (maxRetries cfg + 1)) 0 k v)
    as [tr [Heq [Hat Hde]]]; try assumption; try lia.
  { intros i Hi. split; [lia |]. apply Hbefore. lia. }
  exists tr. unfold request. rewrite Heq, Hat, Hde.
  replace (k - 0)%Z with k by lia. repeat split; lia.
Qed.


(** X3.  With non-negative settings the backoff sleeps of one request add
    up to at most [retryDelayMs * (2^maxRetries - 1)] milliseconds. *)
Theorem request_total_backoff_is_bounded :
  (0 <= maxRetries cfg)%Z ->
  (0 <= retryDelayMs cfg)%Z ->
  (0 <= total_delay (snd (request cfg remote))
     <= retryDelayMs cfg * (2 ^ maxRetries cfg - 1))%Z.
Proof.
  intros Hmax Hdelay. unfold request, total_delay.
  destruct (request_from_shape (Z.to_nat (maxRetries cfg + 1)) 0) as [Hat [_ Hde]];
    [lia | lia |].
  simpl in Hat, Hde. rewrite Hde.
  set (a := attempts (snd (request_from cfg remote (Z.to_nat (maxRetries cfg + 1)) 0))) in *.
  replace (Z.of_nat a - 1)%Z with (Z.of_nat (a - 1)) by lia.
  rewrite backoff_sum.
  assert (H1 : (0 < 2 ^ Z.of_nat (a - 1))%Z) by (apply Z.pow_pos_nonneg; lia).
  assert (H2 : (2 ^ Z.of_nat (a - 1) <= 2 ^ maxRetries cfg)%Z)
    by (apply Z.pow_le_mono_r; lia).
  split; [apply Z.mul_nonneg_nonneg; lia |].
  apply Z.mul_le_mono_nonneg_l; lia.
Qed.

(** X4.  With a negative [maxRetries] the loop body never runs: nothing is
    fetched, the rate limiter is not consulted, and the request fails with
    the error that follows the loop. *)
Theorem request_with_negative_retries_sends_nothing :
  (maxRetries cfg < 0)%Z ->
  request cfg remote = (Threw (OtherError "Error" "Unexpected retry loop exit"), []).
Proof.
  intros Hneg. unfold request.
  replace (Z.to_nat (maxRetries cfg + 1)) with 0%nat by lia. reflexivity.
Qed.

(** X5.  A fetch aborted by the timeout is raised as an [InflowApiError]
    with status 408 after that one attempt: a timeout is never retried,
    although no response was received. *)
Theorem request_does_not_retry_a_timeout (message : string) :
  (0 <= maxRetries cfg)%Z ->
  remote 0%Z = Rejected (Exception "AbortError" message) ->
  request cfg remote = (Threw (InflowApiError 408 None), [Acquire; Fetch]) /\
  isRetryableError (InflowApiError 408 None) = false.
Proof.
  intros Hmax Habort. split; [| reflexivity]. unfold request.
  replace (Z.to_nat (maxRetries cfg + 1)) with (S (Z.to_nat (maxRetries cfg))) by lia.
  rewrite request_from_S, Habort. simpl. rewrite orb_true_r. reflexivity.
Qed.

(** X6.  [getList] raises for a failed fetch the very error [request]
    would classify, but raises it after its single attempt; when that
    error is retryable, [request] on the same remote goes on to
    [maxRetries + 1] attempts where [getList] has made one. *)
Theorem getList_never_retries (parseInt : string -> option Z) (includeCount : bool)
    (o : fetched) (listCount : option string) (e : JsError) :
  (0 <= maxRetries cfg)%Z ->
  failure_of o = Some e ->
  getList parseInt includeCount o listCount = (ListThrew e, [Acquire; Fetch]) /\
  (isRetryableError e = true ->
   exists tr,
     request cfg (fun _ => o) = (Threw e, tr) /\
     Z.of_nat (attempts tr) = (maxRetries cfg + 1)%Z).
Proof.
  intros Hmax Hfail. split.
  - unfold failure_of, executeRequest in Hfail. unfold getList. simpl in Hfail.
    destruct o as [[m | n m] | r]; simpl in *.
    + congruence.
    + destruct (String.eqb n "AbortError"); congruence.
    + destruct (negb (ok r)); [congruence |].
      destruct (status r =? 204)%Z; [discriminate |].
      destruct (json r); [discriminate | congruence].
  - intros Hr. unfold request.
    assert (H : forall n j,
               Z.of_nat n = (maxRetries cfg + 1 - j)%Z -> (1 <= n)%nat ->
               exists tr, request_from cfg (fun _ => o) n j = (Threw e, tr) /\
                          attempts tr = n).
    { induction n as [| n IH]; intros j Hinv Hn; [lia |].
      rewrite (request_from_S cfg (fun _ => o)). cbv beta.
      rewrite (executeRequest_failure _ _ Hfail), Hr. simpl negb.
      rewrite orb_false_r.
      destruct (j =? maxRetries cfg)%Z eqn:Hl.
      - apply Z.eqb_eq in Hl. exists [Acquire; Fetch].
        split; [reflexivity |]. unfold attempts. simpl. lia.
      - apply Z.eqb_neq in Hl.
        destruct (IH (j + 1)%Z) as [tr [Heq Hat]]; [lia | lia |].
        rewrite Heq. eexists. split; [reflexivity |].
        unfold attempts in *. simpl. rewrite Hat. reflexivity. }
    destruct (H (Z.to_nat (maxRetries cfg + 1)) 0%Z) as [tr [Heq Hat]]; [lia | lia |].
    exists tr. rewrite Heq, Hat. split; [reflexivity | lia].
Qed.

End RetryFacts.

(** X1 on HTTP 500 followed by HTTP 200. *)
Lemma request_returns_after_retries_witness :
  exists tr,
    Client.request Client.default_config (Client.failing_then_ok 1 500 "[]")
      = (Client.Returned "[]", tr) /\
    Z.of_nat (Client.attempts tr) = 2%Z /\
    Client.delays tr = [1000%Z].
Proof.
  apply (request_returns_after_retries Client.default_config
           (Client.failing_then_ok 1 500 "[]") 1 "[]").
  - simpl. lia.
  - intros i Hi. exists (Client.InflowApiError 500 None).
    assert (i = 0%Z) as -> by lia. split; reflexivity.
  - reflexivity.
Defined.


(** X3 on HTTP 503 at every attempt: 1000 + 2000 + 4000 ms. *)
Lemma request_total_backoff_is_bounded_witness :
  (0 <= Client.total_delay (snd (Client.request Client.default_config (Client.always 503)))
     <= 1000 * (2 ^ 3 - 1))%Z.
Proof.
  apply (request_total_backoff_is_bounded Client.default_config (Client.always 503));
    simpl; lia.
Defined.

(** X4 with [INFLOW_MAX_RETRIES=-1]. *)
Lemma request_with_negative_retries_sends_nothing_witness :
  Client.request (Client.config_with_retries (-1)) (Client.always 200)
  = (Client.Threw (Client.OtherError "Error" "Unexpected retry loop exit"), []).
Proof.
  apply (request_with_negative_retries_sends_nothing
           (Client.config_with_retries (-1)) (Client.always 200)).
  simpl. lia.
Defined.

(** X5 on a remote that always times out. *)
Lemma request_does_not_retry_a_timeout_witness :
  Client.request Client.default_config Client.timing_out
    = (Client.Threw (Client.InflowApiError 408 None), [Client.Acquire; Client.Fetch]) /\
  Client.isRetryableError (Client.InflowApiError 408 None) = false.
Proof.
  apply (request_does_not_retry_a_timeout Client.default_config Client.timing_out
           "This operation was aborted").
  - simpl. lia.
  - reflexivity.
Defined.

(** X6 on HTTP 503. *)
Lemma getList_never_retries_witness :
  Client.getList (fun _ => None) true (Client.always 503 0%Z) None
    = (Client.ListThrew (Client.InflowApiError 503 None), [Client.Acquire; Client.Fetch]) /\
  (Client.isRetryableError (Client.InflowApiError 503 None) = true ->
   exists tr,
     Client.request Client.default_config (fun _ => Client.always 503 0%Z)
       = (Client.Threw (Client.InflowApiError 503 None), tr) /\
     Z.of_nat (Client.attempts tr) = (3 + 1)%Z).
Proof.
  apply (getList_never_retries Client.default_config (fun _ => None) true
           (Client.always 503 0%Z) None (Client.InflowApiError 503 None)).
  - simpl. lia.
  - reflexivity.
Defined.

(** ** The token bucket: cap and burst *)

Section BucketFacts.

Import RateLimiter.

Lemma step_capped (ev : event) (rl : t) :
  tokens (fst (step ev rl)) <= maxTokens rl.
Proof.
  pose proof (fun now => refill_capped now rl) as Hcap.
  destruct ev as [now | now]; simpl.
  - unfold acquire_start. destruct (Qltb _ 1); simpl.
    + apply Q.le_min_l.
    + specialize (Hcap now). simpl in Hcap. lra.
  - specialize (Hcap now). simpl in Hcap. lra.
Qed.

Lemma run_capped (evs : list event) :
  forall rl : t, tokens rl <= maxTokens rl -> tokens (fst (run evs rl)) <= maxTokens rl.
Proof.
  induction evs as [| ev evs IH]; intros rl Hrl; simpl; [exact Hrl |].
  pose proof (step_capped ev rl) as Hs.
  pose proof (step_keeps_configuration ev rl) as [Hm _].
  destruct (step ev rl) as [rl1 w]. simpl in Hs, Hm.
  specialize (IH rl1). rewrite Hm in IH.
  destruct (run evs rl1) as [rl2 ws]. simpl in *. apply IH. exact Hs.
Qed.

(** X7.  However calls and wake-ups interleave on a limiter, its token
    count never exceeds the rate it was built for: unused time does not
    accumulate beyond one minute's worth of requests. *)
Theorem tokens_never_exceed_the_rate (rate : Q) (built : Z) (evs : list event) :
  tokens (fst (run evs (new rate built))) <= rate.
Proof.
  apply (run_capped evs (new rate built)). simpl. lra.
Qed.

(** A limiter holding at least [m] tokens serves [m] callers in turn
    without making any of them wait, on a clock that does not run
    backwards. *)
Lemma acquire_in_turn_no_wait (times : list Z) :
  forall (rl : t) (m : nat),
    (length times <= m)%nat ->
    inject_Z (Z.of_nat m) <= tokens rl ->
    inject_Z (Z.of_nat m) <= maxTokens rl ->
    0 <= refillRate rl ->
    StronglySorted Z.le (lastRefill rl :: times) ->
    snd (acquire_in_turn times rl) = map (fun _ => None) times.
Proof.
  induction times as [| now rest IH]; intros rl m Hlen Htok Hmax Hrate Hsorted;
    [reflexivity |].
  simpl in Hlen. destruct m as [| m]; [lia |].
  inversion Hsorted as [| ? ? Hrest Hall]; subst.
  inversion Hall as [| ? ? Hnow _]; subst.
  assert (Hm : inject_Z (Z.of_nat (S m)) == inject_Z (Z.of_nat m) + 1).
  { rewrite Nat2Z.inj_succ. unfold Z.succ. rewrite inject_Z_plus. reflexivity. }
  assert (Hm0 : 0 <= inject_Z (Z.of_nat m)).
  { change 0 with (inject_Z 0). rewrite <- Zle_Qle. lia. }
  assert (Hel : 0 <= inject_Z (now - lastRefill rl) * refillRate rl).
  { apply Qmult_le_0_compat; [| exact Hrate].
    change 0 with (inject_Z 0). rewrite <- Zle_Qle. lia. }
  assert (Hre : inject_Z (Z.of_nat m) + 1 <= tokens (refill now rl)).
  { simpl.
    destruct (Q.min_spec (maxTokens rl)
                (tokens rl + inject_Z (now - lastRefill rl) * refillRate rl))
      as [[_ Hmin] | [_ Hmin]]; rewrite Hmin; lra. }
  simpl acquire_in_turn. unfold acquire_start.
  assert (Hge : Qltb (tokens (refill now rl)) 1 = false) by (apply Qltb_ge; lra).
  rewrite Hge.
  specialize (IH (deduct (refill now rl)) m).
  destruct (acquire_in_turn rest (deduct (refill now rl))) as [rl2 ws].
  simpl in *. f_equal. apply IH; try lra; try lia.
  inversion Hrest; subst; constructor; assumption.
Qed.

(** X8.  A freshly built limiter for [n] requests per minute serves [n]
    callers back to back with no sleep at all, whenever they come. *)
Theorem fresh_limiter_serves_a_burst (n : nat) (built : Z) (times : list Z) :
  (length times <= n)%nat ->
  StronglySorted Z.le (built :: times) ->
  snd (acquire_in_turn times (new (inject_Z (Z.of_nat n)) built))
  = map (fun _ => None) times.
Proof.
  intros Hlen Hsorted.
  apply (acquire_in_turn_no_wait times (new (inject_Z (Z.of_nat n)) built) n);
    simpl; try lra; try assumption.
  assert (H0 : 0 <= inject_Z (Z.of_nat n)).
  { change 0 with (inject_Z 0). rewrite <- Zle_Qle. lia. }
  apply Qle_shift_div_l; lra.
Qed.

End BucketFacts.

(** X8 on three callers of the default limiter. *)
Lemma fresh_limiter_serves_a_burst_witness :
  snd (RateLimiter.acquire_in_turn [0; 0; 5]%Z (RateLimiter.new (inject_Z (Z.of_nat 60)) 0))
  = [None; None; None].
Proof.
  apply (fresh_limiter_serves_a_burst 60 0 [0; 0; 5]%Z).
  - simpl. lia.
  - repeat constructor; lia.
Defined.

(** ** Both handlers: what they call, and when *)

Section CallFacts.

Import PurchaseOrders.

Variable parseFloat : string -> option Q.
Variable toFixed4 : Q -> string.
Variable env : Surroundings.

Lemma unreceive_calls (remote : Remote) (args : UnreceiveArgs) :
  read_then_write_once (u_purchaseOrderId args)
    (snd (unreceive_purchase_order parseFloat toFixed4 remote args)).
Proof.
  unfold unreceive_purchase_order, read_then_write_once.
  destruct (modes args =? 0)%nat; [auto |].
  destruct (1 <? modes args)%nat; [auto |].
  destruct (get remote (u_purchaseOrderId args)) as [[po |] | e]; simpl; auto.
  destruct (terminal_status (po_status po)); simpl; auto.
  destruct (length (default [] (po_receiveLines po)) =? 0)%nat; simpl; auto.
  destruct (mark _ _ _ _) as [[rs pm] errs].
  destruct (negb (length errs =? 0)%nat); simpl; auto.
  destruct (removed_of _ _ _ _); simpl; auto.
  destruct (modified_of _ _ _); simpl; auto.
  destruct (match dryRun args with Some b => b | None => false end); simpl; auto.
  destruct (put remote _); simpl; eauto.
Qed.

Lemma receive_calls (remote : Remote) (args : ReceiveArgs) :
  read_then_write_once (r_purchaseOrderId args)
    (snd (receive_purchase_order parseFloat toFixed4 env remote args)).
Proof.
  unfold receive_purchase_order, read_then_write_once.
  destruct (flag (receiveAll args) && _); [auto |].
  destruct (negb (flag (receiveAll args)) && _); [auto |].
  destruct (get remote (r_purchaseOrderId args)) as [[po |] | e]; simpl; auto.
  destruct (length (default [] (po_lines po)) =? 0)%nat; simpl; auto.
  destruct (terminal_status (po_status po)); simpl; auto.
  destruct (flag (receiveAll args) && _); simpl; auto.
  destruct (negb _ && _); simpl; auto.
  destruct (put remote _); simpl; eauto.
Qed.

(** X10.  An invocation of either handler makes no remote call at all, or
    reads the order once, or reads it once and then writes once: it never
    writes without having read, and never writes twice. *)
Theorem handlers_read_once_and_write_at_most_once (remote : Remote) :
  (forall args : ReceiveArgs,
     read_then_write_once (r_purchaseOrderId args)
       (snd (receive_purchase_order parseFloat toFixed4 env remote args))) /\
  (forall args : UnreceiveArgs,
     read_then_write_once (u_purchaseOrderId args)
       (snd (unreceive_purchase_order parseFloat toFixed4 remote args))).
Proof.
  split; [apply receive_calls | apply unreceive_calls].
Qed.

(** X11.  Contradictory or missing modes are refused before anything is
    fetched, and only then: [unreceive] makes no remote call exactly when
    the number of supplied modes is not one, [receive] exactly when both
    [receiveAll] and items are given or neither is. *)
Theorem mode_errors_are_settled_locally (remote : Remote) :
  (forall args : UnreceiveArgs,
     snd (unreceive_purchase_order parseFloat toFixed4 remote args) = []
     <-> modes args <> 1%nat) /\
  (forall args : ReceiveArgs,
     snd (receive_purchase_order parseFloat toFixed4 env remote args) = []
     <-> (flag (receiveAll args) = true /\ default [] (r_items args) <> [])
         \/ (flag (receiveAll args) = false /\ default [] (r_items args) = [])).
Proof.
  split.
  - intros args. unfold unreceive_purchase_order.
    destruct (modes args =? 0)%nat eqn:E0.
    { apply Nat.eqb_eq in E0. simpl. split; [lia | reflexivity]. }
    destruct (1 <? modes args)%nat eqn:E1.
    { apply Nat.ltb_lt in E1. simpl. split; [lia | reflexivity]. }
    apply Nat.eqb_neq in E0. apply Nat.ltb_ge in E1.
    split; [| lia]. intros H. exfalso.
    destruct (get remote (u_purchaseOrderId args)) as [[po |] | e]; try discriminate.
    destruct (terminal_status (po_status po)); [discriminate |].
    destruct (length (default [] (po_receiveLines po)) =? 0)%nat; [discriminate |].
    destruct (mark _ _ _ _) as [[rs pm] errs].
    destruct (negb (length errs =? 0)%nat); [discriminate |].
    destruct (removed_of _ _ _ _); [| discriminate].
    destruct (modified_of _ _ _); [| discriminate].
    destruct (match dryRun args with Some b => b | None => false end); [discriminate |].
    destruct (put remote _); discriminate.
  - intros args. unfold receive_purchase_order.
    destruct (flag (receiveAll args)); simpl.
    + destruct (default [] (r_items args)) as [| i its]; simpl.
      * split; [| intros [[_ H] | [H _]]; congruence].
        intros H. exfalso.
        destruct (get remote (r_purchaseOrderId args)) as [[po |] | e]; try discriminate.
        destruct (length (default [] (po_lines po)) =? 0)%nat; [discriminate |].
        destruct (terminal_status (po_status po)); [discriminate |].
        destruct (length _ =? 0)%nat; [discriminate |].
        destruct (negb _ && _); [discriminate |].
        destruct (put remote _); discriminate.
      * split; [intros _; left; split; [reflexivity | discriminate] | reflexivity].
    + destruct (default [] (r_items args)) as [| i its] eqn:Ei; simpl.
      * split; [intros _; right; split; reflexivity | reflexivity].
      * split; [| intros [[H _] | [_ H]]; congruence].
        intros H. exfalso.
        destruct (get remote (r_purchaseOrderId args)) as [[po |] | e]; try discriminate.
        destruct (length (default [] (po_lines po)) =? 0)%nat; [discriminate |].
        destruct (terminal_status (po_status po)); [discriminate |].
        destruct (negb _ && _); [discriminate |].
        destruct (put remote _); discriminate.
Qed.

(** X12.  On an order whose status is Cancelled or Closed neither handler
    writes; an unreceive that names one mode, and a receive on an order
    with lines, reply with the refusal that carries the status. *)
Theorem terminal_status_blocks_both_handlers (remote : Remote) (po : PurchaseOrder)
    (status : string) :
  po_status po = Some status ->
  status = "Cancelled"%string \/ status = "Closed"%string ->
  (forall args : ReceiveArgs,
     get remote (r_purchaseOrderId args) = Gave (Some po) ->
     writes (snd (receive_purchase_order parseFloat toFixed4 env remote args)) = [] /\
     (snd (receive_purchase_order parseFloat toFixed4 env remote args) <> [] ->
      default [] (po_lines po) <> [] ->
      fst (receive_purchase_order parseFloat toFixed4 env remote args)
        = Replied (CannotReceive status))) /\
  (forall args : UnreceiveArgs,
     get remote (u_purchaseOrderId args) = Gave (Some po) ->
     writes (snd (unreceive_purchase_order parseFloat toFixed4 remote args)) = [] /\
     (modes args = 1%nat ->
      fst (unreceive_purchase_order parseFloat toFixed4 remote args)
        = Replied (CannotUnreceive status))).
Proof.
  intros Hstatus Hterm.
  assert (Ht : terminal_status (po_status po) = true).
  { rewrite Hstatus. destruct Hterm as [-> | ->]; reflexivity. }
  split.
  - intros args Hget. unfold receive_purchase_order. rewrite Hget, Ht, Hstatus.
    destruct (flag (receiveAll args) && _); [split; [reflexivity | intros H; elim H; reflexivity] |].
    destruct (negb (flag (receiveAll args)) && _);
      [split; [reflexivity | intros H; elim H; reflexivity] |].
    destruct (default [] (po_lines po)) as [| l ls]; simpl;
      [split; [reflexivity | intros _ H; elim H; reflexivity] |].
    split; reflexivity.
  - intros args Hget. unfold unreceive_purchase_order. rewrite Hget, Ht, Hstatus.
    destruct (modes args =? 0)%nat eqn:E0;
      [apply Nat.eqb_eq in E0; split; [reflexivity | lia] |].
    destruct (1 <? modes args)%nat eqn:E1;
      [apply Nat.ltb_lt in E1; split; [reflexivity | lia] |].
    split; reflexivity.
Qed.

(** X13.  Every write of either handler goes to the order that was read
    and carries its vendor and its version stamp as fetched. *)
Theorem every_write_carries_the_fetched_stamp (remote : Remote) (body : PutBody) :
  (forall args : ReceiveArgs,
     In body (writes (snd (receive_purchase_order parseFloat toFixed4 env remote args))) ->
     exists po,
       get remote (r_purchaseOrderId args) = Gave (Some po) /\
       put_purchaseOrderId body = po_purchaseOrderId po /\
       put_vendorId body = po_vendorId po /\
       put_timestamp body = po_timestamp po) /\
  (forall args : UnreceiveArgs,
     In body (writes (snd (unreceive_purchase_order parseFloat toFixed4 remote args))) ->
     exists po,
       get remote (u_purchaseOrderId args) = Gave (Some po) /\
       put_purchaseOrderId body = po_purchaseOrderId po /\
       put_vendorId body = po_vendorId po /\
       put_timestamp body = po_timestamp po).
Proof.
  split.
  - intros args. unfold receive_purchase_order.
    destruct (flag (receiveAll args) && _); [intros []|].
    destruct (negb (flag (receiveAll args)) && _); [intros [] |].
    destruct (get remote (r_purchaseOrderId args)) as [[po |] | e]; try (intros []).
    destruct (length (default [] (po_lines po)) =? 0)%nat; [intros [] |].
    destruct (terminal_status (po_status po)); [intros [] |].
    destruct (flag (receiveAll args) && _); [intros [] |].
    destruct (negb _ && _); [intros [] |].
    destruct (put remote _); simpl; intros [<- | []]; exists po; auto.
  - intros args. unfold unreceive_purchase_order.
    destruct (modes args =? 0)%nat; [intros [] |].
    destruct (1 <? modes args)%nat; [intros [] |].
    destruct (get remote (u_purchaseOrderId args)) as [[po |] | e]; try (intros []).
    destruct (terminal_status (po_status po)); [intros [] |].
    destruct (length (default [] (po_receiveLines po)) =? 0)%nat; [intros [] |].
    destruct (mark _ _ _ _) as [[rs pm] errs].
    destruct (negb (length errs =? 0)%nat); [intros [] |].
    destruct (removed_of _ _ _ _); [| intros []].
    destruct (modified_of _ _ _); [| intros []].
    destruct (match dryRun args with Some b => b | None => false end); [intros [] |].
    destruct (put remote _); simpl; intros [<- | []]; exists po; auto.
Qed.

End CallFacts.

(** ** Receive: what is built and written *)

Section ReceiveBuildFacts.

Import PurchaseOrders.

Variable parseFloat : string -> option Q.
Variable toFixed4 : Q -> string.
Variable env : Surroundings.

Lemma foldl_keeps {A B : Type} (P : A -> Prop) (f : A -> B -> A) (l : list B) :
  (forall a x, P a -> P (f a x)) -> forall a, P a -> P (foldl f a l).
Proof.
  intros Hstep. induction l as [| x l IH]; intros a Ha; simpl; [exact Ha |].
  apply IH. apply Hstep. exact Ha.
Qed.

Lemma resolve_truthy (lineMap : gmap string PurchaseOrderItem)
    (productLineMap : gmap string (list PurchaseOrderItem)) (item : ReceiveItem)
    (pid : string) (line : PurchaseOrderItem) :
  resolve lineMap productLineMap item = inr (pid, line) -> truthy (Some pid) = true.
Proof.
  unfold resolve.
  destruct (truthy (r_purchaseOrderLineId item)).
  - destruct (lineMap !! _) as [l |]; [| discriminate].
    destruct (truthy (line_productId l)) eqn:Ht; simpl; [| discriminate].
    intros [= <- _]. destruct (line_productId l); [exact Ht | discriminate].
  - destruct (truthy (r_productId item)) eqn:Ht; [| discriminate].
    destruct (head _) as [l |]; [| discriminate]. rewrite Ht. simpl.
    intros [= <- _]. destruct (r_productId item); [exact Ht | discriminate].
Qed.

Lemma fresh_entries_snoc (new : list PurchaseOrderReceiveLine)
    (rl : PurchaseOrderReceiveLine) :
  fresh_entries env new ->
  purchaseOrderReceiveLineId rl = Some (randomUUID env (length new)) ->
  truthy (productId rl) = true ->
  timestamp rl = None ->
  (exists date, receiveDate rl = Some date) ->
  fresh_entries env (new ++ [rl]).
Proof.
  intros [Hids Hall] Hid Hp Ht Hd. split.
  - rewrite length_app. simpl. rewrite Nat.add_1_r, seq_S. rewrite !map_app.
    simpl. rewrite Hids, Hid. reflexivity.
  - apply Forall_app. split; [exact Hall |]. constructor; [auto | constructor].
Qed.

(** Every iteration over an item keeps the new entries fresh. *)
Lemma receive_item_fresh (allow : bool) (lineMap : gmap string PurchaseOrderItem)
    (productLineMap : gmap string (list PurchaseOrderItem)) (date : string)
    (location : option string) (st : ReceiveState) (item : ReceiveItem) :
  fresh_entries env (newReceiveLines st) ->
  fresh_entries env
    (newReceiveLines (receive_item parseFloat toFixed4 env allow lineMap productLineMap
                        date location st item)).
Proof.
  intros Hf. unfold receive_item.
  destruct (resolve lineMap productLineMap item) as [e | [pid line]] eqn:Hres;
    [exact Hf |].
  destruct (negb allow && Qltb _ _); [exact Hf |].
  destruct (has_serials item && negb _); [exact Hf |].
  simpl. apply fresh_entries_snoc; simpl; eauto.
  eapply resolve_truthy. exact Hres.
Qed.

Lemma receive_line_fresh (date : string) (location : option string)
    (st : ReceiveState) (line : PurchaseOrderItem) :
  fresh_entries env (newReceiveLines st) ->
  fresh_entries env
    (newReceiveLines (receive_line parseFloat toFixed4 env date location st line)).
Proof.
  intros Hf. unfold receive_line.
  destruct (truthy (line_productId line)) eqn:Ht; simpl; [| exact Hf].
  destruct (Qle_bool _ 0); [exact Hf |].
  simpl. apply fresh_entries_snoc; simpl; eauto.
  destruct (line_productId line); [exact Ht | discriminate].
Qed.

Lemma build_fresh (args : ReceiveArgs) (po : PurchaseOrder) :
  fresh_entries env (newReceiveLines (build parseFloat toFixed4 env args po)).
Proof.
  unfold build. destruct (flag (receiveAll args)).
  - apply (foldl_keeps (fun st => fresh_entries env (newReceiveLines st))).
    + intros st line. apply receive_line_fresh.
    + simpl. split; [reflexivity | constructor].
  - apply (foldl_keeps (fun st => fresh_entries env (newReceiveLines st))).
    + intros st item. apply receive_item_fresh.
    + simpl. split; [reflexivity | constructor].
Qed.

(** X14.  A receive never drops, reorders or rewrites an entry of the
    ledger: whatever it writes is the fetched ledger, in its order and
    stripped to its writable fields (entry for entry the identity,
    product, quantity, location, sublocation, receive date and version
    stamp that were fetched, and no description or vendor item code),
    followed by at least one new entry;
    the new entries carry the successive values of [randomUUID()], a
    product, a receive date and no version stamp. *)
Theorem receive_only_appends (remote : Remote) (args : ReceiveArgs) (body : PutBody) :
  In body (writes (snd (receive_purchase_order parseFloat toFixed4 env remote args))) ->
  exists po new,
    get remote (r_purchaseOrderId args) = Gave (Some po) /\
    put_receiveLines body
      = map stripReceiveLineToWritable (default [] (po_receiveLines po)) ++ new /\
    new = newReceiveLines (build parseFloat toFixed4 env args po) /\
    new <> [] /\
    fresh_entries env new /\
    exists old,
      put_receiveLines body = old ++ new /\
      Forall2 writable_copy old (default [] (po_receiveLines po)).
Proof.
  unfold receive_purchase_order.
  destruct (flag (receiveAll args) && _); [intros [] |].
  destruct (negb (flag (receiveAll args)) && (length (default [] (r_items args)) =? 0)%nat)
    eqn:Hnone; [intros [] |].
  destruct (get remote (r_purchaseOrderId args)) as [[po |] | e]; try (intros []).
  destruct (length (default [] (po_lines po)) =? 0)%nat; [intros [] |].
  destruct (terminal_status (po_status po)); [intros [] |].
  destruct (flag (receiveAll args) && _) eqn:Hall; [intros [] |].
  destruct (negb (length (errors _) =? 0)%nat && _) eqn:Herr; [intros [] |].
  assert (Hnew : newReceiveLines (build parseFloat toFixed4 env args po) <> []).
  { intros Hnil. rewrite Hnil in Hall, Herr. simpl in Hall, Herr.
    rewrite andb_true_r in Hall, Herr. rewrite Hall in Hnone. simpl in Hnone.
    apply negb_false_iff, Nat.eqb_eq in Herr.
    pose proof (build_counts parseFloat toFixed4 env args po Hall) as Hc.
    rewrite Hnil, Herr in Hc. simpl in Hc. rewrite <- Hc in Hnone. discriminate. }
  destruct (put remote _); simpl; intros [<- | []];
    exists po, (newReceiveLines (build parseFloat toFixed4 env args po)); simpl;
    (split; [reflexivity |]); (split; [reflexivity |]); (split; [reflexivity |]);
    (split; [exact Hnew |]); (split; [apply build_fresh |]);
    exists (map stripReceiveLineToWritable (default [] (po_receiveLines po)));
    (split; [reflexivity | apply strip_gives_writable_copies]).
Qed.

(** X15.  The quantity already received that phase 3 computes for a
    product is the sum, in ledger order, of the quantities of the fetched
    entries of that product, and zero for a product with no entry. *)
Theorem received_totals_sum_the_ledger (existing : list PurchaseOrderReceiveLine)
    (pid : string) :
  default 0 (receivedTotals parseFloat existing !! pid)
  = foldl (fun sum rl => sum + parseLineQuantity parseFloat (quantity rl)) 0
      (entriesOfProduct existing pid).
Proof.
  unfold receivedTotals.
  assert (H : forall (l : list PurchaseOrderReceiveLine) (m : gmap string Q),
             default 0 (foldl (fun m rl =>
                if negb (truthy (productId rl)) then m
                else <[or_empty (productId rl) :=
                         default 0 (m !! or_empty (productId rl))
                         + parseLineQuantity parseFloat (quantity rl)]> m) m l !! pid)
             = foldl (fun sum rl => sum + parseLineQuantity parseFloat (quantity rl))
                 (default 0 (m !! pid)) (entriesOfProduct l pid)).
  { induction l as [| a l IH]; intros m; simpl; [reflexivity |].
    rewrite IH. destruct (productId a) as [p |]; simpl; [| reflexivity].
    destruct (String.eqb p "") eqn:Ee; simpl.
    - rewrite andb_false_r. reflexivity.
    - rewrite andb_true_r. destruct (String.eqb p pid) eqn:Ep.
      + apply String.eqb_eq in Ep. subst p. rewrite lookup_insert_eq. reflexivity.
      + apply String.eqb_neq in Ep. rewrite lookup_insert_ne by exact Ep. reflexivity. }
  exact (H existing ∅).
Qed.




End ReceiveBuildFacts.

(** ** Receive on doubles: the over-receive guard and the running total *)

Section Receive64Facts.

Import PrimFloat PurchaseOrders PurchaseOrders64.

Variable readNumber : Q -> float.
Variable parseFloat : string -> float.
Variable toFixed4 : float -> string.
Variable env : Surroundings.

Local Abbreviation receive64 := (receive_purchase_order readNumber parseFloat toFixed4 env).
Local Abbreviation step64 := (receive_item readNumber parseFloat toFixed4 env).
Local Abbreviation build64 := (build readNumber parseFloat toFixed4 env).

(** An iteration either builds one line or records one error. *)
Lemma double_receive_item_counts (allow : bool) (lineMap : gmap string PurchaseOrderItem)
    (productLineMap : gmap string (list PurchaseOrderItem)) (date : string)
    (location : option string) (st : ReceiveState) (item : ReceiveItem) :
  let st' := step64 allow lineMap productLineMap date location st item in
  (length (newReceiveLines st') + length (errors st')
   = S (length (newReceiveLines st) + length (errors st)))%nat.
Proof.
  unfold receive_item.
  destruct (resolve lineMap productLineMap item) as [e | [pid line]];
    [simpl; rewrite length_app; simpl; lia |].
  destruct (negb allow && _); [simpl; rewrite length_app; simpl; lia |].
  destruct (has_serials item && _);
    simpl; rewrite length_app; simpl; lia.
Qed.

Lemma double_receive_items_count (allow : bool) (lineMap : gmap string PurchaseOrderItem)
    (productLineMap : gmap string (list PurchaseOrderItem)) (date : string)
    (location : option string) (items : list ReceiveItem) :
  forall st,
    let st' := foldl (step64 allow lineMap productLineMap date location) st items in
    (length (newReceiveLines st') + length (errors st')
     = length items + (length (newReceiveLines st) + length (errors st)))%nat.
Proof.
  induction items as [| item items IH]; intros st; simpl; [reflexivity |].
  rewrite IH.
  pose proof (double_receive_item_counts allow lineMap productLineMap date location st item)
    as H.
  simpl in H. lia.
Qed.

(** With explicit items, every item ends as a new line or as an error. *)
Lemma double_build_counts (args : ReceiveArgs) (po : PurchaseOrder) :
  flag (receiveAll args) = false ->
  (length (newReceiveLines (build64 args po)) + length (errors (build64 args po))
   = length (default [] (r_items args)))%nat.
Proof.
  intros Hall. unfold build. rewrite Hall. unfold item_step.
  rewrite double_receive_items_count. simpl. lia.
Qed.

(** The over-receive guard refuses an item exactly when no override is set
    and the running total plus the request exceeds what was ordered. *)
Lemma double_guard_rejects_iff (allow : bool) (lines : list PurchaseOrderItem)
    (date : string) (location : option string) (st : ReceiveState)
    (item : ReceiveItem) (pid : string) (line : PurchaseOrderItem) :
  resolve (lineMapOf lines) (productLineMapOf lines) item = inr (pid, line) ->
  over_receive_rejected st
    (step64 allow (lineMapOf lines) (productLineMapOf lines) date location st item)
  <-> allow = false /\
      (orderedFor readNumber parseFloat (productLineMapOf lines) pid
         <? received_so_far (receivedByProduct st) pid + r_quantity item)%float = true.
Proof.
  intros Hres. unfold receive_item. rewrite Hres.
  destruct (negb allow && _) eqn:G.
  - apply andb_true_iff in G. destruct G as [Ha Hq].
    apply negb_true_iff in Ha.
    split; [intros _; split; assumption |].
    intros _. unfold over_receive_rejected. simpl. eauto 10.
  - split.
    + intros [product [w [o [a [m [Herr [Hnew _]]]]]]]. exfalso.
      destruct (has_serials item && _); simpl in Herr, Hnew.
      * apply app_inv_head in Herr. discriminate.
      * apply (f_equal length) in Hnew. rewrite length_app in Hnew. simpl in Hnew. lia.
    + intros [Ha Hq]. rewrite Ha, Hq in G. discriminate.
Qed.

(** An item that resolves, passes the guard and has as many serial numbers
    as units is accepted: its line is built and the running total of its
    product is raised. *)
Lemma double_item_accepted (allow : bool) (lines : list PurchaseOrderItem)
    (date : string) (location : option string) (st : ReceiveState)
    (item : ReceiveItem) (pid : string) (line : PurchaseOrderItem) :
  resolve (lineMapOf lines) (productLineMapOf lines) item = inr (pid, line) ->
  allow = true \/
  (orderedFor readNumber parseFloat (productLineMapOf lines) pid
     <? received_so_far (receivedByProduct st) pid + r_quantity item)%float = false ->
  has_serials item && serial_count_differs item = false ->
  let st' := step64 allow (lineMapOf lines) (productLineMapOf lines) date location st item in
  newReceiveLines st'
    = newReceiveLines st ++
      [new_entry env date location st pid
         (fixedQuantity toFixed4 (r_quantity item)
            (if has_serials item then r_serialNumbers item else None))] /\
  errors st' = errors st /\
  receivedByProduct st'
    = <[pid := (received_so_far (receivedByProduct st) pid + r_quantity item)%float]>
        (receivedByProduct st).
Proof.
  intros Hres Hguard Hserials. unfold receive_item. rewrite Hres.
  assert (G : negb allow &&
              (orderedFor readNumber parseFloat (productLineMapOf lines) pid
                 <? received_so_far (receivedByProduct st) pid + r_quantity item)%float
              = false).
  { destruct Hguard as [-> | ->]; [reflexivity | apply andb_false_r]. }
  rewrite G, Hserials. simpl. auto.
Qed.

Lemma double_productLineMap_lines (lines : list PurchaseOrderItem) (pid : string) :
  orderedFor readNumber parseFloat (productLineMapOf lines) pid
  = foldl (fun sum l => (sum + parseLineQuantity readNumber parseFloat (line_quantity l))%float)
      0%float (linesOfProduct lines pid).
Proof.
  unfold orderedFor. rewrite productLineMap_lines. reflexivity.
Qed.

(** When every explicit item is refused, nothing is written. *)
Lemma double_all_rejected_writes_nothing (remote : Remote) (args : ReceiveArgs) :
  flag (receiveAll args) = false ->
  (forall po, get remote (r_purchaseOrderId args) = Gave (Some po) ->
     length (errors (build64 args po)) = length (default [] (r_items args))) ->
  writes (snd (receive64 remote args)) = [] /\
  forall po, get remote (r_purchaseOrderId args) = Gave (Some po) ->
    newReceiveLines (build64 args po) = [].
Proof.
  intros Hall Hrej.
  assert (Hnone : forall po, get remote (r_purchaseOrderId args) = Gave (Some po) ->
            newReceiveLines (build64 args po) = []).
  { intros po Hget. pose proof (double_build_counts args po Hall) as Hc.
    rewrite (Hrej po Hget) in Hc.
    destruct (newReceiveLines _); [reflexivity | simpl in Hc; lia]. }
  split; [| exact Hnone].
  unfold receive_purchase_order. rewrite Hall. simpl.
  destruct (length (default [] (r_items args)) =? 0)%nat eqn:En; [reflexivity |].
  destruct (get remote (r_purchaseOrderId args)) as [[po |] | e] eqn:Hget; try reflexivity.
  destruct (length (default [] (po_lines po)) =? 0)%nat; [reflexivity |].
  destruct (terminal_status (po_status po)); [reflexivity |].
  rewrite (Hnone po eq_refl), (Hrej po eq_refl), En. reflexivity.
Qed.

(** C2.  An item that resolves to a product is refused by the
    over-receive guard exactly when no override is set and
    [alreadyReceived + requested > orderedForProduct], the ordered
    quantity being summed over all the order lines of the product.  An
    item that passes the guard (and the serial-number check) is accepted:
    its ledger entry is built and the running total of its product
    becomes [alreadyReceived + requested], and a later item for that
    product is judged on this total.  In [build] the state an item meets
    is the one the items before it left.  When every item is refused, no
    ledger entry is built and no write is issued, as with 10 ordered, 8
    received and 5 requested.  The sums and the comparison are those of
    the doubles. *)
Theorem over_receive_guard_follows_running_total (allow : bool)
    (lines : list PurchaseOrderItem) (date : string) (location : option string)
    (st : ReceiveState) (item : ReceiveItem) (pid : string) (line : PurchaseOrderItem) :
  resolve (lineMapOf lines) (productLineMapOf lines) item = inr (pid, line) ->
  let alreadyReceived := received_so_far (receivedByProduct st) pid in
  let orderedForProduct := orderedFor readNumber parseFloat (productLineMapOf lines) pid in
  let st' := step64 allow (lineMapOf lines) (productLineMapOf lines) date location st item in
  orderedForProduct
    = foldl (fun sum l => (sum + parseLineQuantity readNumber parseFloat (line_quantity l))%float)
        0%float (linesOfProduct lines pid) /\
  (over_receive_rejected st st' <->
   allow = false /\ (orderedForProduct <? alreadyReceived + r_quantity item)%float = true) /\
  (allow = true \/ (orderedForProduct <? alreadyReceived + r_quantity item)%float = false ->
   has_serials item && serial_count_differs item = false ->
   (newReceiveLines st'
      = newReceiveLines st ++
        [new_entry env date location st pid
           (fixedQuantity toFixed4 (r_quantity item)
              (if has_serials item then r_serialNumbers item else None))] /\
    errors st' = errors st /\
    receivedByProduct st'
      = <[pid := (alreadyReceived + r_quantity item)%float]> (receivedByProduct st)) /\
   forall item2 line2,
     resolve (lineMapOf lines) (productLineMapOf lines) item2 = inr (pid, line2) ->
     (over_receive_rejected st'
        (step64 allow (lineMapOf lines) (productLineMapOf lines) date location st' item2)
      <-> allow = false /\
          (orderedForProduct
             <? Double.or_zero (alreadyReceived + r_quantity item) + r_quantity item2)%float
          = true)) /\
  (forall (args : ReceiveArgs) (po : PurchaseOrder) (before : list ReceiveItem)
          (next : ReceiveItem),
     flag (receiveAll args) = false ->
     r_items args = Some (before ++ [next]) ->
     build64 args po
     = item_step readNumber parseFloat toFixed4 env args po
         (foldl (item_step readNumber parseFloat toFixed4 env args po) (start readNumber parseFloat po)
            before)
         next) /\
  (forall remote args,
     flag (receiveAll args) = false ->
     (forall po, get remote (r_purchaseOrderId args) = Gave (Some po) ->
        length (errors (build64 args po)) = length (default [] (r_items args))) ->
     writes (snd (receive64 remote args)) = [] /\
     forall po, get remote (r_purchaseOrderId args) = Gave (Some po) ->
       newReceiveLines (build64 args po) = []) /\
  receive_purchase_order sample_readNumber sample_parseFloat sample_toFixed4
    sample_surroundings sample_remote (receive_by_items [receive_quantity 5])
  = (Replied (ReceiveValidationFailed [OverReceive "Widget" 13 10 8 2]), [GET "po-1"]).
Proof.
  intros Hres alreadyReceived orderedForProduct st'.
  split; [apply double_productLineMap_lines |].
  split; [exact (double_guard_rejects_iff allow lines date location st item pid line Hres) |].
  split; [| split; [| split; [| vm_compute; reflexivity]]].
  - intros Hguard Hserials.
    pose proof (double_item_accepted allow lines date location st item pid line
                  Hres Hguard Hserials) as Hacc.
    split; [exact Hacc |].
    intros item2 line2 Hres2.
    pose proof (double_guard_rejects_iff allow lines date location st' item2 pid line2 Hres2)
      as Hg.
    destruct Hacc as [_ [_ Htotal]]. fold st' in Htotal.
    unfold received_so_far at 1 in Hg. rewrite Htotal, lookup_insert_eq in Hg. exact Hg.
  - intros args po before next Hall Hitems.
    unfold build. rewrite Hall, Hitems. simpl. rewrite foldl_app. reflexivity.
  - intros remote args Hall Hrej. apply double_all_rejected_writes_nothing; assumption.
Qed.

(** The rows of a summary extended by one. *)
Lemma rows_follow_snoc (rows : list SummaryRow) (row : SummaryRow) :
  forall totals : gmap string float,
    rows_follow totals rows ->
    s_previouslyReceived row = received_so_far (totals_after totals rows) (s_productId row) ->
    s_totalAfterReceive row = (s_previouslyReceived row + s_quantity row)%float ->
    (s_ordered row <? s_totalAfterReceive row)%float = false ->
    rows_follow totals (rows ++ [row]).
Proof.
  induction rows as [| r rows IH]; intros totals Hrows Hprev Hafter Hwithin; simpl in *.
  - auto.
  - destruct Hrows as [H1 [H2 [H3 H4]]]. repeat split; try assumption.
    apply IH; assumption.
Qed.

(** X16.  Without [allowOverReceive], the summary of the explicit items
    follows the running totals: the row of each accepted item starts from
    what its product had received when the item was reached (the fetched
    total, raised by the accepted items before it), adds the quantity of
    the item, and does not end above the quantity ordered for the
    product; the total it ends on is what the next row of that product
    starts from, and what the handler holds for the product in the end.
    The rows match the new ledger entries one to one. *)
Theorem accepted_items_stay_within_the_order (args : ReceiveArgs) (po : PurchaseOrder) :
  flag (receiveAll args) = false ->
  flag (allowOverReceive args) = false ->
  let st := build64 args po in
  let fetched := receivedTotals readNumber parseFloat (default [] (po_receiveLines po)) in
  rows_follow fetched (receiveSummary st) /\
  receivedByProduct st = totals_after fetched (receiveSummary st) /\
  Forall (fun row =>
            s_ordered row
            = orderedFor readNumber parseFloat
                (productLineMapOf (default [] (po_lines po))) (s_productId row))
    (receiveSummary st) /\
  map s_productId (receiveSummary st)
    = map (fun rl => or_empty (productId rl)) (newReceiveLines st).
Proof.
  intros Hall Hallow st fetched. unfold st, build. rewrite Hall.
  unfold item_step. rewrite Hallow.
  set (lineMap := lineMapOf (default [] (po_lines po))).
  set (productLineMap := productLineMapOf (default [] (po_lines po))).
  set (step := step64 false lineMap productLineMap
                 (date_of env args) (location_of args po)).
  apply (foldl_keeps
           (fun st : ReceiveState =>
              rows_follow fetched (receiveSummary st) /\
              receivedByProduct st = totals_after fetched (receiveSummary st) /\
              Forall (fun row =>
                        s_ordered row
                        = orderedFor readNumber parseFloat productLineMap (s_productId row))
                (receiveSummary st) /\
              map s_productId (receiveSummary st)
                = map (fun rl => or_empty (productId rl)) (newReceiveLines st))).
  - intros s item [Hrows [Htotals [Hord Hmap]]]. unfold step, receive_item.
    destruct (resolve lineMap productLineMap item) as [e | [pid line]];
      [simpl; auto |].
    destruct (negb false && _) eqn:G; [simpl; auto |].
    destruct (has_serials item && _); [simpl; auto |].
    simpl in G. simpl. split; [| split; [| split]].
    + apply rows_follow_snoc; simpl; try assumption; try reflexivity.
      rewrite <- Htotals. reflexivity.
    + unfold totals_after. rewrite foldl_app. simpl. fold (totals_after fetched (receiveSummary s)).
      rewrite Htotals. reflexivity.
    + apply Forall_app. split; [exact Hord |]. constructor; [reflexivity | constructor].
    + rewrite !map_app, Hmap. reflexivity.
  - simpl. repeat split; constructor.
Qed.

End Receive64Facts.

(** ** Runs on the sample order, on doubles: receiving *)

Section SampleReceipts64.

Import PrimFloat PurchaseOrders PurchaseOrders64.

Local Abbreviation sample_step :=
  (receive_item sample_readNumber sample_parseFloat sample_toFixed4 sample_surroundings false
     (lineMapOf [sample_line]) (productLineMapOf [sample_line])
     "2024-03-01T12:00:00.000Z" (Some "warehouse"%string)).

(** C2 on 10 ordered and 8 received: a first item of 1 is not refused, it
    is accepted and brings the running total to 9; a second item of 2 is
    then refused, since [9 + 2 > 10], although on the fetched total it
    would have passed, [8 + 2] not exceeding 10; the second item meets in
    [build] the state the first one left; the handler writes the entry of
    the first item and reports the second as a warning; and a single item
    of 5 is refused and nothing is written. *)
Lemma over_receive_guard_follows_running_total_witness :
  let st0 := start sample_readNumber sample_parseFloat sample_order in
  let st1 := sample_step st0 (receive_quantity 1) in
  let both := receive_by_items [receive_quantity 1; receive_quantity 2] in
  let step := item_step sample_readNumber sample_parseFloat sample_toFixed4
                sample_surroundings both sample_order in
  ~ over_receive_rejected st0 st1 /\
  length (newReceiveLines st1) = 1%nat /\
  errors st1 = [] /\
  receivedByProduct st1 !! "widget"%string = Some 9%float /\
  over_receive_rejected st1 (sample_step st1 (receive_quantity 2)) /\
  (10 <? 8 + 2)%float = false /\
  build sample_readNumber sample_parseFloat sample_toFixed4 sample_surroundings both
    sample_order
  = step (step st0 (receive_quantity 1)) (receive_quantity 2) /\
  fst (receive_purchase_order sample_readNumber sample_parseFloat sample_toFixed4
         sample_surroundings sample_remote both)
  = Replied
      (Received (Some "po-1"%string) (Some "PO-000001"%string)
         (Some "PartiallyReceived"%string) (Some "PartiallyReceived"%string)
         [{| productName := Some "Widget"%string;
             quantityReceived := 1;
             ordered := 10;
             previouslyReceived := 8;
             totalReceived := 9;
             fullyReceived := false |}]
         3 (Some [OverReceive "Widget" 11 10 9 1])) /\
  writes (snd (receive_purchase_order sample_readNumber sample_parseFloat sample_toFixed4
                 sample_surroundings sample_remote (receive_by_items [receive_quantity 5])))
  = [] /\
  receive_purchase_order sample_readNumber sample_parseFloat sample_toFixed4
    sample_surroundings sample_remote (receive_by_items [receive_quantity 5])
  = (Replied (ReceiveValidationFailed [OverReceive "Widget" 13 10 8 2]), [GET "po-1"]).
Proof.
  intros st0 st1 both step.
  destruct (over_receive_guard_follows_running_total
              sample_readNumber sample_parseFloat sample_toFixed4 sample_surroundings
              false [sample_line] "2024-03-01T12:00:00.000Z" (Some "warehouse"%string)
              st0 (receive_quantity 1) "widget" sample_line)
    as [_ [Hguard [Haccepted [Hbuild [Hnone Hexample]]]]]; [vm_compute; reflexivity |].
  fold st1 in Hguard.
  destruct Haccepted as [[Hnew [Herrors Htotal]] Hnext];
    [right; vm_compute; reflexivity | reflexivity |].
  fold st1 in Hnew, Herrors, Htotal, Hnext.
  split.
  { intros Hrej. apply Hguard in Hrej. destruct Hrej as [_ Hover].
    vm_compute in Hover. discriminate. }
  split; [rewrite Hnew; reflexivity |].
  split; [rewrite Herrors; reflexivity |].
  split; [rewrite Htotal, lookup_insert_eq; f_equal; vm_compute; reflexivity |].
  split.
  { apply (Hnext (receive_quantity 2) sample_line); [vm_compute; reflexivity |].
    split; [reflexivity | vm_compute; reflexivity]. }
  split; [vm_compute; reflexivity |].
  split.
  { apply (Hbuild both sample_order [receive_quantity 1] (receive_quantity 2));
      reflexivity. }
  split; [vm_compute; reflexivity |].
  split; [| exact Hexample].
  apply (Hnone sample_remote (receive_by_items [receive_quantity 5])); [reflexivity |].
  intros po Hget.
  assert (Hpo : sample_order = po).
  { change (Gave (Some sample_order) = Gave (Some po)) in Hget. congruence. }
  subst po. vm_compute. reflexivity.
Defined.

(** X16 on two items of one unit each, on 10 ordered and 8 received: the
    first row runs from 8 to 9, the second from 9 to 10, which is what the
    handler holds for the product in the end. *)
Lemma accepted_items_stay_within_the_order_witness :
  let st := build sample_readNumber sample_parseFloat sample_toFixed4 sample_surroundings
              (receive_by_items [receive_quantity 1; receive_quantity 1]) sample_order in
  let fetched := receivedTotals sample_readNumber sample_parseFloat
                   (default [] (po_receiveLines sample_order)) in
  map (fun row => (s_previouslyReceived row, s_totalAfterReceive row)) (receiveSummary st)
  = [(8, 9); (9, 10)]%float /\
  receivedByProduct st !! "widget"%string = Some 10%float /\
  rows_follow fetched (receiveSummary st) /\
  receivedByProduct st = totals_after fetched (receiveSummary st) /\
  Forall (fun row =>
            s_ordered row
            = orderedFor sample_readNumber sample_parseFloat
                (productLineMapOf (default [] (po_lines sample_order))) (s_productId row))
    (receiveSummary st) /\
  map s_productId (receiveSummary st)
    = map (fun rl => or_empty (productId rl)) (newReceiveLines st).
Proof.
  intros st fetched.
  split; [vm_compute; reflexivity |].
  split; [vm_compute; reflexivity |].
  apply (accepted_items_stay_within_the_order
           sample_readNumber sample_parseFloat sample_toFixed4 sample_surroundings
           (receive_by_items [receive_quantity 1; receive_quantity 1]) sample_order);
    reflexivity.
Defined.

End SampleReceipts64.

(** ** Unreceive: the ledger that is written back *)

Section RetainedFacts.

Import PurchaseOrders.

Variable parseFloat : string -> option Q.
Variable toFixed4 : Q -> string.

Lemma set_has_add (x y : string) (s : list string) :
  set_has x (set_add y s) = set_has x s || String.eqb x y.
Proof.
  unfold set_add. destruct (set_has y s) eqn:E.
  - destruct (String.eqb x y) eqn:Exy; [| rewrite orb_false_r; reflexivity].
    apply String.eqb_eq in Exy. subst. rewrite E. reflexivity.
  - unfold set_has. rewrite existsb_app. simpl. rewrite orb_false_r. reflexivity.
Qed.

Lemma apply_mod_key (m : PartialMod) (lines : list PurchaseOrderReceiveLine) :
  map ledger_key (apply_mod toFixed4 m lines) = map ledger_key lines.
Proof.
  induction lines as [| rl lines IH]; simpl; [reflexivity |].
  destruct (match purchaseOrderReceiveLineId rl with
            | Some i => String.eqb i (mod_id m)
            | None => false
            end); simpl; [reflexivity | rewrite IH; reflexivity].
Qed.

Lemma apply_mod_keeps (P : PurchaseOrderReceiveLine -> Prop) (m : PartialMod)
    (lines : list PurchaseOrderReceiveLine) :
  (forall rl, purchaseOrderReceiveLineId rl = Some (mod_id m) ->
     P {| purchaseOrderReceiveLineId := purchaseOrderReceiveLineId rl;
          productId := productId rl;
          description := description rl;
          vendorItemCode := vendorItemCode rl;
          quantity := Some (fixedQuantity toFixed4 (newQty m) None);
          locationId := locationId rl;
          sublocation := sublocation rl;
          receiveDate := receiveDate rl;
          timestamp := timestamp rl |}) ->
  Forall P lines -> Forall P (apply_mod toFixed4 m lines).
Proof.
  intros Hmod. induction 1 as [| rl lines Hrl Hall IH]; simpl; [constructor |].
  destruct (purchaseOrderReceiveLineId rl) as [i |] eqn:Ei.
  - destruct (String.eqb i (mod_id m)) eqn:E.
    + apply String.eqb_eq in E. subst i. constructor; [| exact Hall].
      rewrite <- Ei. apply Hmod. exact Ei.
    + constructor; assumption.
  - constructor; assumption.
Qed.

Lemma remainingLines_length (existing : list PurchaseOrderReceiveLine)
    (removeSet : list string) (partialMods : list PartialMod) :
  length (remainingLines toFixed4 existing removeSet partialMods)
  = length (List.filter (unmarked removeSet) existing).
Proof.
  unfold remainingLines. fold (unmarked removeSet).
  rewrite <- (List.length_map stripReceiveLineToWritable
                (List.filter (unmarked removeSet) existing)).
  generalize (map stripReceiveLineToWritable (List.filter (unmarked removeSet) existing)).
  induction partialMods as [| m pm IH]; intros lines; simpl; [reflexivity |].
  rewrite IH, <- (List.length_map ledger_key), apply_mod_key. apply List.length_map.
Qed.

(** The retained entries, by their keys and one by one. *)
Lemma retained_entries
    (existing : list PurchaseOrderReceiveLine) (removeSet : list string)
    (partialMods : list PartialMod) :
  map ledger_key (remainingLines toFixed4 existing removeSet partialMods)
    = map ledger_key (List.filter (unmarked removeSet) existing) /\
  Forall (fun rl' =>
            reduced_by partialMods rl' \/
            exists rl, In rl existing /\ unmarked removeSet rl = true /\
                       rl' = stripReceiveLineToWritable rl /\
                       writable_copy rl' rl)
    (remainingLines toFixed4 existing removeSet partialMods).
Proof.
  unfold remainingLines. fold (unmarked removeSet).
  set (kept := List.filter (unmarked removeSet) existing).
  assert (Hstart : Forall (fun rl' =>
                     exists rl, In rl existing /\ unmarked removeSet rl = true /\
                                rl' = stripReceiveLineToWritable rl /\
                                writable_copy rl' rl)
                     (map stripReceiveLineToWritable kept)).
  { apply List.Forall_forall. intros rl' Hin. apply in_map_iff in Hin.
    destruct Hin as [rl [<- Hin]]. apply List.filter_In in Hin. exists rl.
    split; [tauto |]. split; [tauto |]. split; [reflexivity |].
    unfold writable_copy. simpl. repeat split. }
  assert (Hkey : map ledger_key (map stripReceiveLineToWritable kept) = map ledger_key kept).
  { rewrite map_map. reflexivity. }
  revert Hstart Hkey. generalize (map stripReceiveLineToWritable kept) as lines.
  assert (H : forall (done pm : list PartialMod) (lines : list PurchaseOrderReceiveLine),
             Forall (fun rl' =>
                       reduced_by done rl' \/
                       exists rl, In rl existing /\ unmarked removeSet rl = true /\
                                  rl' = stripReceiveLineToWritable rl /\
                                  writable_copy rl' rl) lines ->
             map ledger_key lines = map ledger_key kept ->
             map ledger_key (foldl (fun lines m => apply_mod toFixed4 m lines) lines pm)
               = map ledger_key kept /\
             Forall (fun rl' =>
                       reduced_by (done ++ pm) rl' \/
                       exists rl, In rl existing /\ unmarked removeSet rl = true /\
                                  rl' = stripReceiveLineToWritable rl /\
                                  writable_copy rl' rl)
               (foldl (fun lines m => apply_mod toFixed4 m lines) lines pm)).
  { intros done pm. revert done.
    induction pm as [| m pm IH]; intros done lines Hall Hk; simpl.
    - rewrite app_nil_r. auto.
    - replace (done ++ m :: pm) with ((done ++ [m]) ++ pm)
        by (rewrite <- app_assoc; reflexivity).
      apply IH; [| rewrite apply_mod_key; exact Hk].
      apply apply_mod_keeps.
      + intros rl Hid. left. exists m. split; [apply in_or_app; right; left; reflexivity |].
        exact Hid.
      + eapply List.Forall_impl; [| exact Hall].
        intros rl' [[m' [Hin Hid]] | Hq]; [| right; exact Hq].
        left. exists m'. split; [apply in_or_app; left; exact Hin | exact Hid]. }
  intros lines Hstart Hkey. apply (H [] partialMods lines); [| exact Hkey].
  eapply List.Forall_impl; [| exact Hstart]. intros rl' Hq. right. exact Hq.
Qed.

(** A partial modification leaves the stripped fields stripped. *)
Lemma apply_mod_stays_stripped (m : PartialMod) (lines : list PurchaseOrderReceiveLine) :
  Forall (fun rl => description rl = None /\ vendorItemCode rl = None) lines ->
  Forall (fun rl => description rl = None /\ vendorItemCode rl = None)
    (apply_mod toFixed4 m lines).
Proof.
  induction 1 as [| rl lines Hrl Hall IH]; simpl; [constructor |].
  destruct (match purchaseOrderReceiveLineId rl with
            | Some i => String.eqb i (mod_id m)
            | None => false
            end).
  - constructor; [simpl; exact Hrl | exact Hall].
  - constructor; [exact Hrl | exact IH].
Qed.

(** No retained entry carries a description or a vendor item code. *)
Lemma remainingLines_stripped (existing : list PurchaseOrderReceiveLine)
    (removeSet : list string) (partialMods : list PartialMod) :
  Forall (fun rl => description rl = None /\ vendorItemCode rl = None)
    (remainingLines toFixed4 existing removeSet partialMods).
Proof.
  unfold remainingLines.
  assert (Hstart : Forall (fun rl => description rl = None /\ vendorItemCode rl = None)
                     (map stripReceiveLineToWritable
                        (List.filter
                           (fun rl => negb (set_has (or_empty (purchaseOrderReceiveLineId rl))
                                              removeSet))
                           existing))).
  { apply List.Forall_forall. intros rl' Hin. apply in_map_iff in Hin.
    destruct Hin as [rl [<- _]]. split; reflexivity. }
  revert Hstart. generalize (map stripReceiveLineToWritable
                               (List.filter
                                  (fun rl => negb (set_has (or_empty (purchaseOrderReceiveLineId rl))
                                                     removeSet))
                                  existing)).
  induction partialMods as [| m pm IH]; intros lines Hall; simpl; [exact Hall |].
  apply IH. apply apply_mod_stays_stripped. exact Hall.
Qed.

(** X18.  The ledger an unreceive retains is, entry for entry and in the
    fetched order, the entries whose identity is not marked for removal:
    nothing is added or reordered, and identity, product, location, date
    and version stamp are never touched.  An entry that no partial
    modification names is written back as it was fetched, stripped to its
    writable fields: its identity, product, quantity, location,
    sublocation, receive date and version stamp; and no retained entry,
    reduced or not, carries a description or a vendor item code. *)
Theorem retained_ledger_is_the_unmarked_entries
    (existing : list PurchaseOrderReceiveLine) (removeSet : list string)
    (partialMods : list PartialMod) :
  map ledger_key (remainingLines toFixed4 existing removeSet partialMods)
    = map ledger_key (List.filter (unmarked removeSet) existing) /\
  Forall (fun rl' =>
            reduced_by partialMods rl' \/
            exists rl, In rl existing /\ unmarked removeSet rl = true /\
                       rl' = stripReceiveLineToWritable rl /\
                       writable_copy rl' rl)
    (remainingLines toFixed4 existing removeSet partialMods) /\
  Forall (fun rl' => description rl' = None /\ vendorItemCode rl' = None)
    (remainingLines toFixed4 existing removeSet partialMods).
Proof.
  destruct (retained_entries existing removeSet partialMods) as [Hkeys Hentries].
  split; [exact Hkeys |]. split; [exact Hentries |].
  apply remainingLines_stripped.
Qed.

Lemma set_has_marked_all (x : string) (l : list PurchaseOrderReceiveLine) :
  forall s,
    set_has x (foldl (fun s rl =>
                        if truthy (purchaseOrderReceiveLineId rl)
                        then set_add (or_empty (purchaseOrderReceiveLineId rl)) s
                        else s) s l)
    = set_has x s ||
      existsb (fun rl => truthy (purchaseOrderReceiveLineId rl) &&
                         String.eqb x (or_empty (purchaseOrderReceiveLineId rl))) l.
Proof.
  induction l as [| rl l IH]; intros s; simpl; [rewrite orb_false_r; reflexivity |].
  rewrite IH. destruct (truthy (purchaseOrderReceiveLineId rl)); simpl.
  - rewrite set_has_add, orb_assoc. reflexivity.
  - reflexivity.
Qed.

Lemma truthy_or_empty (s : option string) :
  truthy s = negb (String.eqb (or_empty s) "").
Proof. destruct s; reflexivity. Qed.

(** X19.  A full reversal removes every entry that has an identity, and
    only those: an entry fetched without one is written back.  It reduces
    no entry and collects no error; when every entry has an identity, the
    ledger written is empty. *)
Theorem full_reversal_keeps_entries_without_identity (args : UnreceiveArgs)
    (existing : list PurchaseOrderReceiveLine) (names : gmap string string) :
  flag (unreceiveAll args) = true ->
  let st := mark parseFloat args existing names in
  snd (fst st) = [] /\
  snd st = [] /\
  remainingLines toFixed4 existing (fst (fst st)) (snd (fst st))
    = map stripReceiveLineToWritable
        (List.filter (fun rl => negb (truthy (purchaseOrderReceiveLineId rl))) existing) /\
  (Forall (fun rl => truthy (purchaseOrderReceiveLineId rl) = true) existing ->
   remainingLines toFixed4 existing (fst (fst st)) (snd (fst st)) = []).
Proof.
  intros Hall st. unfold st, mark. unfold flag in Hall. rewrite Hall. simpl.
  split; [reflexivity |]. split; [reflexivity |].
  assert (Hlines : remainingLines toFixed4 existing
                     (foldl (fun s rl =>
                        if truthy (purchaseOrderReceiveLineId rl)
                        then set_add (or_empty (purchaseOrderReceiveLineId rl)) s
                        else s) [] existing) []
                   = map stripReceiveLineToWritable
                       (List.filter (fun rl => negb (truthy (purchaseOrderReceiveLineId rl)))
                          existing)).
  { unfold remainingLines. simpl. f_equal. apply List.filter_ext_in.
    intros rl Hin. rewrite set_has_marked_all. simpl. f_equal.
    destruct (truthy (purchaseOrderReceiveLineId rl)) eqn:Ht.
    - apply existsb_exists. exists rl. rewrite Ht, String.eqb_refl. auto.
    - destruct (existsb _ existing) eqn:Ex; [| reflexivity].
      apply existsb_exists in Ex. destruct Ex as [rl' [_ Hc]].
      apply andb_true_iff in Hc. destruct Hc as [Ht' He].
      apply String.eqb_eq in He. rewrite truthy_or_empty in Ht, Ht'.
      rewrite He in Ht. rewrite Ht in Ht'. discriminate. }
  split; [exact Hlines |].
  intros Hids. rewrite Hlines. clear -Hids.
  induction Hids as [| rl l Hrl _ IH]; simpl; [reflexivity |].
  rewrite Hrl. simpl. exact IH.
Qed.

Lemma mark_ids_fold (existing : list PurchaseOrderReceiveLine) (ids : list string) :
  forall (rs : list string) (pm : list PartialMod) (errs : list UnreceiveError),
    foldl (fun (st : marking) id =>
             let '(removeSet, partialMods, errors) := st in
             match receiveLineMap existing !! id with
             | None => (removeSet, partialMods, errors ++ [ReceiveLineNotFound id])
             | Some _ => (set_add id removeSet, partialMods, errors)
             end) (rs, pm, errs) ids
    = (foldl (fun s id => set_add id s) rs (List.filter (on_ledger existing) ids),
       pm,
       errs ++ map ReceiveLineNotFound
                 (List.filter (fun id => negb (on_ledger existing id)) ids)).
Proof.
  induction ids as [| id ids IH]; intros rs pm errs; simpl;
    [rewrite app_nil_r; reflexivity |].
  assert (Hid : on_ledger existing id
                = match receiveLineMap existing !! id with
                  | Some _ => true
                  | None => false
                  end) by reflexivity.
  destruct (receiveLineMap existing !! id); rewrite Hid; simpl.
  - apply IH.
  - rewrite IH, <- app_assoc. reflexivity.
Qed.

Lemma set_has_added (x : string) (l : list string) :
  forall s, set_has x (foldl (fun s id => set_add id s) s l)
            = set_has x s || existsb (String.eqb x) l.
Proof.
  induction l as [| y l IH]; intros s; simpl; [rewrite orb_false_r; reflexivity |].
  rewrite IH, set_has_add, orb_assoc. reflexivity.
Qed.

(** X20.  With explicit identities, validation goes through the whole
    list: the errors are exactly the identities that are not on the
    ledger, in the order given, and no entry is reduced.  When there is no
    error, the ledger retained is the fetched one without the entries
    whose identity is listed. *)
Theorem explicit_ids_are_all_validated (args : UnreceiveArgs)
    (existing : list PurchaseOrderReceiveLine) (names : gmap string string)
    (ids : list string) :
  flag (unreceiveAll args) = false ->
  receiveLineIds args = Some ids ->
  let st := mark parseFloat args existing names in
  snd st = map ReceiveLineNotFound
             (List.filter (fun id => negb (on_ledger existing id)) ids) /\
  snd (fst st) = [] /\
  (snd st = [] ->
   remainingLines toFixed4 existing (fst (fst st)) (snd (fst st))
   = map stripReceiveLineToWritable
       (List.filter (fun rl =>
                  negb (existsb (String.eqb (or_empty (purchaseOrderReceiveLineId rl))) ids))
          existing)).
Proof.
  intros Hall Hids st. unfold st, mark. unfold flag in Hall. rewrite Hall, Hids.
  rewrite mark_ids_fold. simpl.
  split; [reflexivity |]. split; [reflexivity |].
  intros Hnone.
  assert (Hknown : List.filter (on_ledger existing) ids = ids).
  { clear -Hnone. induction ids as [| id ids IH]; simpl in *; [reflexivity |].
    destruct (on_ledger existing id); simpl in *; [| discriminate].
    rewrite IH; [reflexivity | exact Hnone]. }
  rewrite Hknown. unfold remainingLines. simpl. f_equal.
  apply List.filter_ext. intros rl. rewrite set_has_added. reflexivity.
Qed.

End RetainedFacts.

(** ** Unreceive: what a LIFO item takes off the ledger *)

Section LedgerFacts.

Import PurchaseOrders.

Variable parseFloat : string -> option Q.
Variable toFixed4 : Q -> string.

Local Abbreviation qty rl := (parseLineQuantity parseFloat (quantity rl)).
Local Abbreviation total := (totalReceivedOf parseFloat).
Local Abbreviation walk := (lifo_walk parseFloat).
Local Abbreviation idf :=
  (fun rl : PurchaseOrderReceiveLine => or_empty (purchaseOrderReceiveLineId rl)).

Lemma set_has_add_all (x : string) (lines : list PurchaseOrderReceiveLine) :
  forall rs, set_has x (add_all rs lines)
             = set_has x rs || existsb (String.eqb x) (map idf lines).
Proof.
  unfold add_all.
  induction lines as [| rl lines IH]; intros rs; simpl; [rewrite orb_false_r; reflexivity |].
  rewrite IH, set_has_add, orb_assoc. reflexivity.
Qed.

Lemma NoDup_map_filter (f : PurchaseOrderReceiveLine -> bool)
    (l : list PurchaseOrderReceiveLine) :
  List.NoDup (map idf l) -> List.NoDup (map idf (List.filter f l)).
Proof.
  induction l as [| x l IH]; simpl; intros Hnd; [constructor |].
  apply List.NoDup_cons_iff in Hnd. destruct Hnd as [Hnotin Hnd].
  destruct (f x); simpl; [| apply IH; exact Hnd].
  apply List.NoDup_cons_iff. split; [| apply IH; exact Hnd].
  intros Hin. apply Hnotin. apply in_map_iff in Hin.
  destruct Hin as [y [Hy Hin]]. apply List.filter_In in Hin.
  rewrite <- Hy. apply (in_map idf). tauto.
Qed.

(** Which lines a walk marks and which reduction it makes does not depend
    on what is already marked. *)
Lemma lifo_walk_uniform (l : list PurchaseOrderReceiveLine) :
  forall r : Q,
    exists (k : nat) (mods : list PartialMod),
      (length mods <= 1)%nat /\
      forall (rs : list string) (pm : list PartialMod),
        walk l r rs pm = (add_all rs (take k l), pm ++ mods).
Proof.
  induction l as [| rl l IH]; intros r.
  - exists 0%nat, []. split; [simpl; lia |]. intros rs pm. simpl.
    rewrite app_nil_r. reflexivity.
  - destruct (Qle_bool r 0) eqn:E0.
    + exists 0%nat, []. split; [simpl; lia |]. intros rs pm. simpl.
      rewrite E0, app_nil_r. reflexivity.
    + destruct (Qle_bool (qty rl) r) eqn:E1.
      * destruct (IH (r - qty rl)) as [k [mods [Hlen Hwalk]]].
        exists (S k), mods. split; [exact Hlen |]. intros rs pm. simpl.
        rewrite E0, E1. apply Hwalk.
      * exists 0%nat. eexists [_]. split; [simpl; lia |]. intros rs pm. simpl.
        rewrite E0, E1. apply lifo_walk_nothing_left. lra.
Qed.

Lemma add_all_absorbs (lines : list PurchaseOrderReceiveLine) :
  forall rs : list string,
    (forall rl, In rl lines -> set_has (idf rl) rs = true) ->
    add_all rs lines = rs.
Proof.
  unfold add_all. induction lines as [| rl lines IH]; intros rs Hall; simpl; [reflexivity |].
  unfold set_add. rewrite (Hall rl) by (left; reflexivity).
  apply IH. intros rl' Hin. apply Hall. right. exact Hin.
Qed.

Lemma apply_mod_twice (m : PartialMod) (lines : list PurchaseOrderReceiveLine) :
  apply_mod toFixed4 m (apply_mod toFixed4 m lines) = apply_mod toFixed4 m lines.
Proof.
  induction lines as [| rl lines IH]; simpl; [reflexivity |].
  destruct (match purchaseOrderReceiveLineId rl with
            | Some i => String.eqb i (mod_id m)
            | None => false
            end) eqn:E; simpl; rewrite E; [reflexivity | rewrite IH; reflexivity].
Qed.

(** X22.  Every LIFO item of a call is checked and walked against the
    ledger as fetched, not against what the items before it already took:
    an item given a second time passes validation again, marks no further
    entry and repeats the same reduction, so the ledger written is the one
    a single such item gives. *)
Theorem repeated_lifo_item_takes_nothing_more
    (existing : list PurchaseOrderReceiveLine) (names : gmap string string)
    (item : UnreceiveItem) :
  productLinesOf existing (u_productId item) <> [] ->
  u_quantity item <= total (productLinesOf existing (u_productId item)) ->
  let once := unreceive_item parseFloat existing names ([], [], []) item in
  let twice := unreceive_item parseFloat existing names once item in
  snd twice = [] /\
  fst (fst twice) = fst (fst once) /\
  remainingLines toFixed4 existing (fst (fst twice)) (snd (fst twice))
  = remainingLines toFixed4 existing (fst (fst once)) (snd (fst once)).
Proof.
  intros Hne Hle once twice. subst twice once.
  rewrite (unreceive_item_valid parseFloat existing names item [] [] [] Hne Hle).
  rewrite (unreceive_item_valid parseFloat existing names item _ _ [] Hne Hle).
  destruct (lifo_walk_uniform
              (sort lifo_compare (productLinesOf existing (u_productId item)))
              (u_quantity item)) as [k [mods [Hlen Hwalk]]].
  rewrite !Hwalk. cbn [fst snd].
  set (taken := take k (sort lifo_compare (productLinesOf existing (u_productId item)))).
  assert (Hsame : add_all (add_all [] taken) taken = add_all [] taken).
  { apply add_all_absorbs. intros rl Hin. rewrite set_has_add_all. simpl.
    apply existsb_exists. exists (idf rl). split; [| apply String.eqb_refl].
    apply (in_map idf). exact Hin. }
  rewrite Hsame. split; [reflexivity |]. split; [reflexivity |].
  unfold remainingLines. destruct mods as [| m [| m' mods]]; simpl in Hlen; [| | lia].
  - reflexivity.
  - simpl. apply apply_mod_twice.
Qed.

End LedgerFacts.

(** ** The further properties on the sample order *)

Section SampleLedgers.

Import PurchaseOrders.

Local Abbreviation unreceive := (unreceive_purchase_order sample_parseFloat sample_toFixed4).
Local Abbreviation receive :=
  (receive_purchase_order sample_parseFloat sample_toFixed4 sample_surroundings).

(** X12 on the sample order once cancelled. *)
Lemma terminal_status_blocks_both_handlers_witness :
  writes (snd (receive (remote_holding (sample_order_in "Cancelled"))
                 (receive_by_items [receive_quantity 1]))) = [] /\
  fst (unreceive (remote_holding (sample_order_in "Cancelled")) (unreceive_everything None))
    = Replied (CannotUnreceive "Cancelled").
Proof.
  destruct (terminal_status_blocks_both_handlers
              sample_parseFloat sample_toFixed4 sample_surroundings
              (remote_holding (sample_order_in "Cancelled"))
              (sample_order_in "Cancelled") "Cancelled" eq_refl (or_introl eq_refl))
    as [Hreceive Hunreceive].
  split.
  - exact (proj1 (Hreceive (receive_by_items [receive_quantity 1]) eq_refl)).
  - exact (proj2 (Hunreceive (unreceive_everything None) eq_refl) eq_refl).
Defined.

(** X14 on one unit received on the sample order. *)
Lemma receive_only_appends_witness :
  exists po new,
    get sample_remote "po-1" = Gave (Some po) /\
    new = newReceiveLines
            (build sample_parseFloat sample_toFixed4 sample_surroundings
               (receive_by_items [receive_quantity 1]) po) /\
    new <> [] /\
    fresh_entries sample_surroundings new /\
    Forall2 writable_copy (map stripReceiveLineToWritable [entry_t1; entry_t2])
      [entry_t1; entry_t2].
Proof.
  destruct (receive_only_appends sample_parseFloat sample_toFixed4 sample_surroundings
              sample_remote (receive_by_items [receive_quantity 1])
              {| put_purchaseOrderId := Some "po-1"%string;
                 put_vendorId := Some "vendor-1"%string;
                 put_receiveLines :=
                   map stripReceiveLineToWritable [entry_t1; entry_t2]
                   ++ newReceiveLines
                        (build sample_parseFloat sample_toFixed4 sample_surroundings
                           (receive_by_items [receive_quantity 1]) sample_order);
                 put_unstockLines := None;
                 put_timestamp := Some "0000000000B2"%string |})
    as [po [new [Hget [Hbody [Hnew [Hne [Hfresh [old [Hsplit Hcopies]]]]]]]]].
  - left. vm_compute. reflexivity.
  - exists po, new. split; [exact Hget |]. split; [exact Hnew |].
    split; [exact Hne |]. split; [exact Hfresh |].
    assert (Hpo : sample_order = po).
    { change (Gave (Some sample_order) = Gave (Some po)) in Hget. congruence. }
    subst po. rewrite Hsplit in Hbody. apply app_inv_tail in Hbody. subst old.
    exact Hcopies.
Defined.


(** X19 on the sample order, whose two entries both have an identity. *)
Lemma full_reversal_keeps_entries_without_identity_witness :
  let st := mark sample_parseFloat (unreceive_everything None) [entry_t1; entry_t2] ∅ in
  remainingLines sample_toFixed4 [entry_t1; entry_t2] (fst (fst st)) (snd (fst st)) = [].
Proof.
  apply (full_reversal_keeps_entries_without_identity
           sample_parseFloat sample_toFixed4 (unreceive_everything None)
           [entry_t1; entry_t2] ∅).
  - reflexivity.
  - repeat constructor.
Defined.

(** X20 on one identity of the sample ledger and two that are not on it. *)
Lemma explicit_ids_are_all_validated_witness :
  snd (mark sample_parseFloat (unreceive_by_ids ["rl-9"; "rl-2"; "rl-7"]%string None)
         [entry_t1; entry_t2] ∅)
  = [ReceiveLineNotFound "rl-9"; ReceiveLineNotFound "rl-7"].
Proof.
  destruct (explicit_ids_are_all_validated
              sample_parseFloat sample_toFixed4
              (unreceive_by_ids ["rl-9"; "rl-2"; "rl-7"]%string None)
              [entry_t1; entry_t2] ∅ ["rl-9"; "rl-2"; "rl-7"]%string eq_refl eq_refl)
    as [Herrs _].
  rewrite Herrs. vm_compute. reflexivity.
Defined.

(** X22 on a request of 4 given twice: the ledger is left with 4, as
    after one request. *)
Lemma repeated_lifo_item_takes_nothing_more_witness :
  let once := unreceive_item sample_parseFloat [entry_t1; entry_t2] ∅ ([], [], [])
                (unreceive_quantity 4) in
  let twice := unreceive_item sample_parseFloat [entry_t1; entry_t2] ∅ once
                 (unreceive_quantity 4) in
  remainingLines sample_toFixed4 [entry_t1; entry_t2] (fst (fst twice)) (snd (fst twice))
  = remainingLines sample_toFixed4 [entry_t1; entry_t2] (fst (fst once)) (snd (fst once)).
Proof.
  apply (repeated_lifo_item_takes_nothing_more
           sample_parseFloat sample_toFixed4 [entry_t1; entry_t2] ∅ (unreceive_quantity 4)).
  - vm_compute. discriminate.
  - apply Qle_bool_iff. vm_compute. reflexivity.
Defined.

End SampleLedgers.

(** ** Unreceive: the dry run against the real run *)

Section DryRunFacts.

Import PurchaseOrders.

Variable parseFloat : string -> option Q.
Variable toFixed4 : Q -> string.

Local Abbreviation unreceive := (unreceive_purchase_order parseFloat toFixed4).
Local Abbreviation idf :=
  (fun rl : PurchaseOrderReceiveLine => or_empty (purchaseOrderReceiveLineId rl)).

(** A key of the lookup is the identity of a line of the ledger. *)
Lemma known_on_ledger (existing : list PurchaseOrderReceiveLine) (id : string) :
  is_Some (receiveLineMap existing !! id) ->
  exists rl, In rl existing /\ idf rl = id.
Proof.
  unfold receiveLineMap.
  assert (H : forall l (m : gmap string PurchaseOrderReceiveLine),
             is_Some (foldl (fun m rl =>
                               if truthy (purchaseOrderReceiveLineId rl)
                               then <[or_empty (purchaseOrderReceiveLineId rl) := rl]> m
                               else m) m l !! id) ->
             is_Some (m !! id) \/ exists rl, In rl l /\ idf rl = id).
  { induction l as [| a l IH]; intros m Hm; simpl in *; [left; exact Hm |].
    destruct (IH _ Hm) as [Hin | [rl [Hin Hid]]].
    - destruct (truthy (purchaseOrderReceiveLineId a)); [| left; exact Hin].
      destruct (decide (or_empty (purchaseOrderReceiveLineId a) = id)) as [Heq | Hne].
      + right. exists a. split; [left; reflexivity | exact Heq].
      + rewrite lookup_insert_ne in Hin by exact Hne. left. exact Hin.
    - right. exists rl. split; [right; exact Hin | exact Hid]. }
  intros Hk. destruct (H existing ∅ Hk) as [Hin | Hex]; [| exact Hex].
  rewrite lookup_empty in Hin. destruct Hin as [x Hx]. discriminate.
Qed.

Lemma lifo_walk_keeps (P : list string -> Prop) (l : list PurchaseOrderReceiveLine) :
  (forall x s, P s -> P (set_add x s)) ->
  forall (r : Q) (rs : list string) (pm : list PartialMod),
    P rs -> P (fst (lifo_walk parseFloat l r rs pm)).
Proof.
  intros Hadd. induction l as [| rl l IH]; intros r rs pm Hrs; simpl; [exact Hrs |].
  destruct (Qle_bool r 0); [exact Hrs |].
  destruct (Qle_bool _ r); apply IH; [apply Hadd |]; exact Hrs.
Qed.

(** What holds of the empty set and is kept by [add] holds of the set of
    identities to remove, whatever the mode. *)
Lemma mark_keeps (P : list string -> Prop) (args : UnreceiveArgs)
    (existing : list PurchaseOrderReceiveLine) (names : gmap string string) :
  P [] ->
  (forall x s, P s -> P (set_add x s)) ->
  P (fst (fst (mark parseFloat args existing names))).
Proof.
  intros Hnil Hadd. unfold mark.
  destruct (match unreceiveAll args with Some b => b | None => false end).
  - simpl. apply foldl_keeps; [| exact Hnil].
    intros s rl Hs. destruct (truthy (purchaseOrderReceiveLineId rl)); auto.
  - destruct (receiveLineIds args) as [ids |].
    + apply (foldl_keeps (fun st : marking => P (fst (fst st)))); [| exact Hnil].
      intros [[rs pm] errs] id Hs. simpl in *.
      destruct (receiveLineMap existing !! id); simpl; auto.
    + destruct (u_items args) as [items |]; [| exact Hnil].
      apply (foldl_keeps (fun st : marking => P (fst (fst st)))); [| exact Hnil].
      intros [[rs pm] errs] item Hs. simpl in Hs. unfold unreceive_item.
      destruct (length _ =? 0)%nat; [exact Hs |].
      destruct (Qltb _ _); [exact Hs |].
      pose proof (lifo_walk_keeps P
                    (sort lifo_compare (productLinesOf existing (u_productId item)))
                    Hadd (u_quantity item) rs pm Hs) as Hw.
      destruct (lifo_walk _ _ _ _ _) as [rs' pm']. exact Hw.
Qed.

Lemma set_add_NoDup (x : string) (s : list string) :
  List.NoDup s -> List.NoDup (set_add x s).
Proof.
  intros Hs. unfold set_add. destruct (set_has x s) eqn:E; [exact Hs |].
  apply List.NoDup_app; [exact Hs | repeat constructor; intros [] |].
  intros y Hy [Heq | []]. subst y. unfold set_has in E.
  assert (Ht : existsb (String.eqb x) s = true)
    by (apply existsb_exists; exists x; split; [exact Hy | apply String.eqb_refl]).
  congruence.
Qed.

(** On a ledger of distinct identities, the lines that stay are the
    lines there were less the identities marked. *)
Lemma unmarked_count (existing : list PurchaseOrderReceiveLine) (rs : list string) :
  List.NoDup (map idf existing) ->
  List.NoDup rs ->
  (forall id, In id rs -> exists rl, In rl existing /\ idf rl = id) ->
  (length (List.filter (unmarked rs) existing) + length rs = length existing)%nat.
Proof.
  intros Hnd Hrs Hsub.
  rewrite <- (List.filter_length (fun rl => set_has (idf rl) rs) existing).
  fold (unmarked rs). rewrite Nat.add_comm. f_equal.
  rewrite <- (List.length_map idf (List.filter _ existing)).
  apply Permutation.Permutation_length. apply Permutation.NoDup_Permutation.
  - exact Hrs.
  - apply NoDup_map_filter. exact Hnd.
  - intros id. split.
    + intros Hin. destruct (Hsub id Hin) as [rl [Hrl Hid]].
      apply in_map_iff. exists rl. split; [exact Hid |].
      apply List.filter_In. split; [exact Hrl |].
      apply existsb_exists. exists id. split; [exact Hin |].
      rewrite Hid. apply String.eqb_refl.
    + intros Hin. apply in_map_iff in Hin. destruct Hin as [rl [Hid Hin]].
      apply List.filter_In in Hin. destruct Hin as [_ Hhas].
      apply existsb_exists in Hhas. destruct Hhas as [y [Hy Heq]].
      apply String.eqb_eq in Heq. rewrite <- Hid, Heq. exact Hy.
Qed.

(** X23.  On a ledger of distinct identities a dry run predicts the real
    run: when the call with [dryRun] set reports a number of remaining
    lines, the same call without it reads the order once and writes it
    once, the ledger written has exactly that many lines, and when the
    write is answered it replies with the same removed and modified
    lines. *)
Theorem dry_run_predicts_the_real_run (remote : Remote) (args : UnreceiveArgs)
    (po : PurchaseOrder) (id : string) (number : option string) (before : nat)
    (removed : list RemovedLine) (modified : list ModifiedLine) (count : Z)
    (calls : list call) :
  List.NoDup (map (fun rl => or_empty (purchaseOrderReceiveLineId rl))
                (default [] (po_receiveLines po))) ->
  get remote (u_purchaseOrderId args) = Gave (Some po) ->
  unreceive remote (with_dryRun true args)
    = (Replied (DryRun id number before removed modified count), calls) ->
  exists body,
    snd (unreceive remote (with_dryRun false args))
      = [GET (u_purchaseOrderId args); PUT body] /\
    Z.of_nat (length (put_receiveLines body)) = count /\
    forall result,
      put remote body = Gave result ->
      exists poId poNumber oldStatus newStatus remaining,
        fst (unreceive remote (with_dryRun false args))
        = Replied (Unreceived poId poNumber oldStatus newStatus removed modified remaining).
Proof.
  intros Hnd Hget Hdry.
  destruct args as [poId ids items everything dry].
  unfold unreceive_purchase_order, with_dryRun in *. cbn [u_purchaseOrderId] in *.
  set (m := modes _) in *.
  destruct (m =? 0)%nat; [discriminate |].
  destruct (1 <? m)%nat; [discriminate |].
  rewrite Hget in *.
  destruct (terminal_status (po_status po)); [discriminate |].
  set (existing := default [] (po_receiveLines po)) in *.
  destruct (length existing =? 0)%nat; [discriminate |].
  set (names := productNameMap (default [] (po_lines po))) in *.
  pose proof (mark_keeps (@List.NoDup string)
                {| u_purchaseOrderId := poId; receiveLineIds := ids; u_items := items;
                   unreceiveAll := everything; dryRun := Some true |}
                existing names (List.NoDup_nil _) set_add_NoDup) as Hrs.
  pose proof (mark_known parseFloat existing
                {| u_purchaseOrderId := poId; receiveLineIds := ids; u_items := items;
                   unreceiveAll := everything; dryRun := Some true |} names) as [Hknown _].
  change (mark parseFloat
            {| u_purchaseOrderId := poId; receiveLineIds := ids; u_items := items;
               unreceiveAll := everything; dryRun := Some false |} existing names)
    with (mark parseFloat
            {| u_purchaseOrderId := poId; receiveLineIds := ids; u_items := items;
               unreceiveAll := everything; dryRun := Some true |} existing names).
  destruct (mark parseFloat _ existing names) as [[rs pm] errs].
  cbn [fst snd] in Hrs, Hknown.
  destruct (negb (length errs =? 0)%nat); [discriminate |].
  destruct (removed_of parseFloat existing names rs) as [removed' |]; [| discriminate].
  destruct (modified_of existing names pm) as [modified' |]; [| discriminate].
  cbn [dryRun] in *. injection Hdry as _ _ _ <- <- <- _.
  eexists. split; [| split].
  - destruct (put remote _); reflexivity.
  - cbn [put_receiveLines].
    rewrite remainingLines_length.
    pose proof (unmarked_count existing rs Hnd Hrs) as Hcount.
    rewrite <- Hcount; [lia |].
    intros y Hy. apply known_on_ledger.
    apply (proj1 (List.Forall_forall _ _) Hknown). exact Hy.
  - intros result Hput. rewrite Hput. cbn [fst]. repeat eexists.
Qed.

End DryRunFacts.

(** X23 on a request of 4 on the sample order: one line is left. *)
Lemma dry_run_predicts_the_real_run_witness :
  exists body,
    snd (PurchaseOrders.unreceive_purchase_order
           PurchaseOrders.sample_parseFloat PurchaseOrders.sample_toFixed4
           PurchaseOrders.sample_remote
           (PurchaseOrders.with_dryRun false
              (PurchaseOrders.unreceive_by_items [PurchaseOrders.unreceive_quantity 4] None)))
      = [PurchaseOrders.GET "po-1"; PurchaseOrders.PUT body] /\
    Z.of_nat (length (PurchaseOrders.put_receiveLines body)) = 1%Z.
Proof.
  assert (Hdry : exists removed modified,
             PurchaseOrders.unreceive_purchase_order
               PurchaseOrders.sample_parseFloat PurchaseOrders.sample_toFixed4
               PurchaseOrders.sample_remote
               (PurchaseOrders.with_dryRun true
                  (PurchaseOrders.unreceive_by_items [PurchaseOrders.unreceive_quantity 4] None))
             = (PurchaseOrders.Replied
                  (PurchaseOrders.DryRun "po-1" (Some "PO-000001"%string) 2
                     removed modified 1),
                [PurchaseOrders.GET "po-1"])).
  { eexists. eexists. vm_compute. reflexivity. }
  destruct Hdry as [removed [modified Hdry]].
  destruct (dry_run_predicts_the_real_run
              PurchaseOrders.sample_parseFloat PurchaseOrders.sample_toFixed4
              PurchaseOrders.sample_remote
              (PurchaseOrders.unreceive_by_items [PurchaseOrders.unreceive_quantity 4] None)
              PurchaseOrders.sample_order _ _ _ _ _ _ _
              ltac:(repeat constructor; simpl; intuition discriminate) eq_refl Hdry)
    as [body [Hcalls [Hcount _]]].
  exists body. split; [exact Hcalls | exact Hcount].
Defined.
